(** * DICOM SEG mask decoding: [MaskFactory.create] and [Matrix33]

    A shallow embedding of [src/image/maskFactory.js] and of the 3x3 matrix
    module that it imports ([math/matrix]), together with the properties
    that the specification states about them.

    JavaScript numbers are IEEE 754 binary64 values.  The numeric code is
    written once over an interface [Number] and instantiated twice:
    - at [float] (Rocq's primitive binary64 floats): this is the program as
      it runs, and every concrete run below is computed there;
    - at [R]: the same code read over exact real arithmetic, where the
      geometric arguments (distances along the slice normal) are carried
      out. *)

From Stdlib Require Import PrimFloat Floats.
From Stdlib Require Import Ascii ZArith Reals Lra Lia Psatz.
From stdpp Require Import base option list strings pretty gmap.

(** ** Tag values

    The values of the tags that [checkTag] reads are integers and strings;
    a tag value is one of them or an array of them. *)

Inductive JsScalar :=
| JNum (n : Z)
| JStr (s : string).

Inductive JsValue :=
| VUndefined
| VScalar (v : JsScalar)
| VArray (l : list JsScalar).

(** ** Completions: a normal value, a thrown [Error], or a loop that has
    not finished within the allotted number of iterations. *)

(** Every [throw] site of the two modules, and the two implicit ones
    (property reads on [undefined]).  The constructor names follow the
    error taxonomy of the specification; the comment gives the message
    of the JavaScript [Error]. *)
Inductive Error :=
| MissingTag (name : string)
    (* 'Missing or empty ' + name *)
| CannotCompareArray
    (* 'Cannot compare array and non array tag value.' *)
| UnsupportedTagValue (name : string) (v : JsValue)
    (* 'Unsupported ' + name + ' value: ' + tagValue *)
| FrameCountMismatch (msg : string)
    (* the two checks of the number of frames, with their message *)
| UnsupportedDimensionOrganization (msg : string)
    (* the four checks of [getDimensionOrganization], with their message *)
| MissingSegmentSequence
    (* 'Missing or empty segmentation sequence' *)
| MissingPerFrameSequence
    (* 'Missing or empty per frame functional sequence' *)
| MultiOrientationUnsupported
    (* 'Unsupported multi orientation dicom seg.' *)
| MultiSpacingUnsupported
    (* 'Unsupported multi resolution dicom seg.' *)
| MissingSpacing
    (* 'No spacing found for DICOM SEG' *)
| MissingOrientation
    (* 'No imageOrientationPatient found for DICOM SEG' *)
| IntermediatePositionDivergence
    (* 'Test distance is increasing when adding intermediate pos pats' *)
| UnknownSegmentReference
    (* TypeError: [frameSegment] is [undefined] when its display value
       is read; there is no dedicated check in the source *)
| TypeError (what : string).
    (* any other property read on [undefined] *)

Inductive Completion (T : Type) :=
| Ok (v : T)
| Throw (e : Error)
| OutOfFuel.
Arguments Ok {T} v.
Arguments Throw {T} e.
Arguments OutOfFuel {T}.

#[export] Instance Completion_ret : MRet Completion := fun T v => Ok v.

#[export] Instance Completion_bind : MBind Completion := fun T U k c =>
  match c with
  | Ok v => k v
  | Throw e => Throw e
  | OutOfFuel => OutOfFuel
  end.

(** ** Numbers *)

Class Number (A : Type) := {
  num_zero : A;
  num_one : A;
  num_of_nat : nat -> A;
  num_add : A -> A -> A;
  num_sub : A -> A -> A;
  num_mul : A -> A -> A;
  num_div : A -> A -> A;
  num_abs : A -> A;                (* Math.abs *)
  num_sqrt : A -> A;               (* Math.sqrt *)
  num_lt : A -> A -> bool;         (* a < b *)
  num_eq : A -> A -> bool;         (* a === b *)
  num_json_eq : A -> A -> bool;    (* JSON.stringify(a) === JSON.stringify(b) *)
  num_undefined : A;               (* an [undefined] operand: NaN *)
  EPSILON : A;                     (* Number.EPSILON, 2^-52 *)
  REAL_WORLD_EPSILON : A;          (* 1e-4 *)
  num_ten : A;
  num_hundred : A
}.

Declare Scope num_scope.
Delimit Scope num_scope with num.
Notation "a + b" := (num_add a b) : num_scope.
Notation "a - b" := (num_sub a b) : num_scope.
Notation "a * b" := (num_mul a b) : num_scope.
Notation "a / b" := (num_div a b) : num_scope.
Notation "a <? b" := (num_lt a b) : num_scope.
Notation "a >? b" := (num_lt b a) : num_scope.
Notation "a =? b" := (num_eq a b) : num_scope.

(** *** The program's numbers: binary64 *)

Definition float_finite (a : float) : bool :=
  negb (PrimFloat.is_nan a || PrimFloat.is_infinity a).

(** [JSON.stringify] prints a finite number in its shortest round-trip
    form (so two finite numbers print alike exactly when they are [===],
    -0 printing as 0), and NaN and the infinities as [null]. *)
Definition float_json_eq (a b : float) : bool :=
  if float_finite a && float_finite b then PrimFloat.eqb a b
  else negb (float_finite a) && negb (float_finite b).

(** The slice index, a counter that starts at 0 and is incremented. *)
Fixpoint float_of_nat (n : nat) : float :=
  match n with
  | O => 0%float
  | S n' => PrimFloat.add (float_of_nat n') 1%float
  end.

#[warnings="-inexact-float"] Definition float_REAL_WORLD_EPSILON : float :=
  0.0001%float.

#[export] Instance Number_float : Number float := {|
  num_zero := 0%float;
  num_one := 1%float;
  num_of_nat := float_of_nat;
  num_add := PrimFloat.add;
  num_sub := PrimFloat.sub;
  num_mul := PrimFloat.mul;
  num_div := PrimFloat.div;
  num_abs := PrimFloat.abs;
  num_sqrt := PrimFloat.sqrt;
  num_lt := PrimFloat.ltb;
  num_eq := PrimFloat.eqb;
  num_json_eq := float_json_eq;
  num_undefined := PrimFloat.nan;
  EPSILON := 0x1p-52%float;
  REAL_WORLD_EPSILON := float_REAL_WORLD_EPSILON;
  num_ten := 10%float;
  num_hundred := 100%float
|}.

(** *** Exact arithmetic: the reals *)

Definition Rltb (a b : R) : bool := if Rlt_dec a b then true else false.
Definition Reqb (a b : R) : bool := if Req_dec_T a b then true else false.

#[export] Instance Number_R : Number R := {|
  num_zero := 0%R;
  num_one := 1%R;
  num_of_nat := INR;
  num_add := Rplus;
  num_sub := Rminus;
  num_mul := Rmult;
  num_div := Rdiv;
  num_abs := Rabs;
  num_sqrt := sqrt;
  num_lt := Rltb;
  num_eq := Reqb;
  num_json_eq := Reqb;
  num_undefined := 0%R;   (* the reals have no NaN; never read below *)
  EPSILON := (/ 4503599627370496)%R;
  REAL_WORLD_EPSILON := (1 / 10000)%R;
  num_ten := 10%R;
  num_hundred := 100%R
|}.

(** ** [math/matrix.js] *)

Section Matrix.
Context {A : Type} {NA : Number A}.
Local Open Scope num_scope.

(** [isSimilar(a, b, tol)]: [tol] defaults to [Number.EPSILON]. *)
Definition isSimilar (a b : A) (tol : option A) : bool :=
  let tol := match tol with None => EPSILON | Some t => t end in
  num_abs (a - b) <? tol.

(** The nine values of a [Matrix33], row-major. *)
Record Matrix33 := mkMatrix33 {
  m00 : A; m01 : A; m02 : A;
  m10 : A; m11 : A; m12 : A;
  m20 : A; m21 : A; m22 : A
}.

Definition values (m : Matrix33) : list A :=
  [m00 m; m01 m; m02 m; m10 m; m11 m; m12 m; m20 m; m21 m; m22 m].

(** [new Matrix33(values)] for a JavaScript array of values. *)
Definition matrix_of_list (l : list A) : Matrix33 :=
  let v i := nth i l num_undefined in
  mkMatrix33 (v 0%nat) (v 1%nat) (v 2%nat) (v 3%nat) (v 4%nat) (v 5%nat)
             (v 6%nat) (v 7%nat) (v 8%nat).

(** [get(row, col)]: [this.#values[row * 3 + col]]. *)
Definition get (m : Matrix33) (row col : nat) : A :=
  nth (row * 3 + col)%nat (values m) num_undefined.

(** [getMatrixInverse(m)]: [None] is [undefined] (zero determinant). *)
Definition getMatrixInverse (m : Matrix33) : option Matrix33 :=
  let m00 := get m 0 0 in
  let m01 := get m 0 1 in
  let m02 := get m 0 2 in
  let m10 := get m 1 0 in
  let m11 := get m 1 1 in
  let m12 := get m 1 2 in
  let m20 := get m 2 0 in
  let m21 := get m 2 1 in
  let m22 := get m 2 2 in
  let a1212 := m11 * m22 - m12 * m21 in
  let a2012 := m12 * m20 - m10 * m22 in
  let a0112 := m10 * m21 - m11 * m20 in
  let det := m00 * a1212 + m01 * a2012 + m02 * a0112 in
  if det =? num_zero then None
  else
    let det := num_one / det in
    Some (matrix_of_list [
      det * a1212;
      det * (m02 * m21 - m01 * m22);
      det * (m01 * m12 - m02 * m11);
      det * a2012;
      det * (m00 * m22 - m02 * m20);
      det * (m02 * m10 - m00 * m12);
      det * a0112;
      det * (m01 * m20 - m00 * m21);
      det * (m00 * m11 - m01 * m10)
    ]).

(** [getInverse()]: the cached result of [getMatrixInverse(this)]. *)
Definition getInverse (m : Matrix33) : option Matrix33 :=
  getMatrixInverse m.

(** The determinant as [getMatrixInverse] computes it. *)
Definition determinant (m : Matrix33) : A :=
  get m 0 0 * (get m 1 1 * get m 2 2 - get m 1 2 * get m 2 1)
  + get m 0 1 * (get m 1 2 * get m 2 0 - get m 1 0 * get m 2 2)
  + get m 0 2 * (get m 1 0 * get m 2 1 - get m 1 1 * get m 2 0).

(** [equals(rhs, p)] *)
Definition equals (m rhs : Matrix33) (p : option A) : bool :=
  forallb (fun i =>
    forallb (fun j => isSimilar (get m i j) (get rhs i j) p)
            [0; 1; 2]%nat)
    [0; 1; 2]%nat.

(** [multiply(rhs)] *)
Definition multiply (m rhs : Matrix33) : Matrix33 :=
  matrix_of_list
    (flat_map (fun i =>
       map (fun j =>
         fold_left (fun tmp k => tmp + get m i k * get rhs k j)
                   [0; 1; 2]%nat num_zero)
         [0; 1; 2]%nat)
       [0; 1; 2]%nat).

(** [multiplyArray3D(array3D)] on a 3D array (the length check of the
    source cannot fail on a triple). *)
Definition multiplyArray3D (m : Matrix33) (array3D : A * A * A)
  : A * A * A :=
  let '(a0, a1, a2) := array3D in
  let a j := nth j [a0; a1; a2] num_undefined in
  let row i :=
    fold_left (fun tmp j => tmp + get m i j * a j) [0; 1; 2]%nat num_zero in
  (row 0%nat, row 1%nat, row 2%nat).

Definition getIdentityMat33 : Matrix33 :=
  mkMatrix33 num_one num_zero num_zero
             num_zero num_one num_zero
             num_zero num_zero num_one.

Definition getCoronalMat33 : Matrix33 :=
  mkMatrix33 num_one num_zero num_zero
             num_zero num_zero num_one
             num_zero (num_zero - num_one) num_zero.

Definition getSagittalMat33 : Matrix33 :=
  mkMatrix33 num_zero num_zero (num_zero - num_one)
             num_one num_zero num_zero
             num_zero (num_zero - num_one) num_zero.

(** The [threshold] of [getVectorStringLPS], 0.0001. *)
Definition LPS_threshold : A := REAL_WORLD_EPSILON.

(** [getVectorStringLPS(vector)].  [lps_loop n] is the [for] loop with
    [n] iterations left; [abs] and [orientation] are its two mutable
    variables, and the last branch is the [break]. *)
Fixpoint lps_loop (n : nat) (orientationX orientationY orientationZ : string)
    (abs : A * A * A) (orientation : string) : string :=
  match n with
  | O => orientation
  | S n' =>
    let '(ax, ay, az) := abs in
    if (ax >? LPS_threshold) && (ax >? ay) && (ax >? az) then
      lps_loop n' orientationX orientationY orientationZ
               (num_zero, ay, az) (orientation +:+ orientationX)
    else if (ay >? LPS_threshold) && (ay >? ax) && (ay >? az) then
      lps_loop n' orientationX orientationY orientationZ
               (ax, num_zero, az) (orientation +:+ orientationY)
    else if (az >? LPS_threshold) && (az >? ax) && (az >? ay) then
      lps_loop n' orientationX orientationY orientationZ
               (ax, ay, num_zero) (orientation +:+ orientationZ)
    else orientation
  end.

Definition getVectorStringLPS (vector : A * A * A) : string :=
  let '(x, y, z) := vector in
  let abs := (num_abs x, num_abs y, num_abs z) in
  let orientationX := if x <? num_zero then "R" else "L" in
  let orientationY := if y <? num_zero then "A" else "P" in
  let orientationZ := if z <? num_zero then "I" else "S" in
  lps_loop 3 orientationX orientationY orientationZ abs "".

(** [getOrientationStringLPS(matrix)] *)
Definition getOrientationStringLPS (matrix : Matrix33) : string :=
  let v0 := (get matrix 0 0, get matrix 1 0, get matrix 2 0) in
  let v1 := (get matrix 0 1, get matrix 1 1, get matrix 2 1) in
  let v2 := (get matrix 0 2, get matrix 1 2, get matrix 2 2) in
  getVectorStringLPS v0 +:+ getVectorStringLPS v1 +:+ getVectorStringLPS v2.

End Matrix.

Arguments Matrix33 A : clear implicits.
Arguments mkMatrix33 {A} _ _ _ _ _ _ _ _ _.

(** ** [image/maskFactory.js]: the tag checks *)

(** [a === b] on tag values. *)
Definition strict_eq (a b : JsScalar) : bool :=
  match a, b with
  | JNum x, JNum y => Z.eqb x y
  | JStr x, JStr y => String.eqb x y
  | _, _ => false
  end.

Fixpoint remove_first {T} (eqb : T -> T -> bool) (x : T) (l : list T)
  : option (list T) :=
  match l with
  | [] => None
  | y :: l' =>
    if eqb x y then Some l'
    else match remove_first eqb x l' with
         | Some r => Some (y :: r)
         | None => None
         end
  end.

(** Modelled from the spec: [arraySortEquals] of [utils/array], which is
    not among the sources.  It is the "order-insensitive set equality" of
    two value sequences: the arrays are equal once sorted, that is, they
    hold the same values the same number of times, in any order. *)
Fixpoint arraySortEquals {T} (eqb : T -> T -> bool) (arr0 arr1 : list T)
  : bool :=
  match arr0 with
  | [] => match arr1 with [] => true | _ => false end
  | x :: arr0' =>
    match remove_first eqb x arr1 with
    | Some arr1' => arraySortEquals eqb arr0' arr1'
    | None => false
    end
  end.

(** A data element of the parsed file: its [value] array. *)
Record DataElement := mkDataElement { value : list JsScalar }.

(** A tag definition [{name, tag, type, enum}]. *)
Record TagDefinition := mkTagDefinition {
  name : string;
  tag : string;
  type : JsScalar;
  enum : list JsValue
}.

(** [Array.prototype.includes] on the accepted values: an array among
    them is never the same value as the tag value. *)
Definition enum_includes (enum : list JsValue) (tagValue : JsScalar) : bool :=
  existsb (fun e => match e with
                    | VScalar v => strict_eq v tagValue
                    | _ => false
                    end) enum.

(** The [for] loop of [checkTag] over [tagDefinition.enum] when the tag
    value is an array: [Ok includes], or the throw at the first entry
    that is not an array. *)
Fixpoint enum_array_loop (enum : list JsValue) (tagValue : list JsScalar)
  : Completion bool :=
  match enum with
  | [] => Ok false
  | VArray e :: enum' =>
    if arraySortEquals strict_eq e tagValue then Ok true
    else enum_array_loop enum' tagValue
  | _ :: _ => Throw CannotCompareArray
  end.

(** [checkTag(dataElements, tagDefinition)].  The first [match] is the
    null and undefined check: [Ok None] is its early [return]. *)
Definition checkTag (dataElements : gmap string DataElement)
    (tagDefinition : TagDefinition) : Completion unit :=
  let element := dataElements !! tag tagDefinition in
  let checked : Completion (option DataElement) :=
    if strict_eq (type tagDefinition) (JNum 1)
       || strict_eq (type tagDefinition) (JNum 2) then
      match element with
      | None => Throw (MissingTag (name tagDefinition))
      | Some e => Ok (Some e)
      end
    else
      match element with
      | None => Ok None   (* non mandatory value, exit *)
      | Some e => Ok (Some e)
      end in
  match checked with
  | Throw e => Throw e
  | OutOfFuel => OutOfFuel
  | Ok None => Ok tt
  | Ok (Some element) =>
    let tagValue := match value element with
                    | [v] => VScalar v
                    | l => VArray l
                    end in
    let includes : Completion bool :=
      match tagValue with
      | VArray l => enum_array_loop (enum tagDefinition) l
      | VScalar v => Ok (enum_includes (enum tagDefinition) v)
      | VUndefined => Ok false
      end in
    match includes with
    | Throw e => Throw e
    | OutOfFuel => OutOfFuel
    | Ok true => Ok tt
    | Ok false => Throw (UnsupportedTagValue (name tagDefinition) tagValue)
    end
  end.

(** [RequiredDicomSegTags] *)
Definition RequiredDicomSegTags : list TagDefinition := [
  mkTagDefinition "TransferSyntaxUID" "00020010" (JStr "1")
    [VScalar (JStr "1.2.840.10008.1.2.1")];
  mkTagDefinition "MediaStorageSOPClassUID" "00020002" (JStr "1")
    [VScalar (JStr "1.2.840.10008.5.1.4.1.1.66.4")];
  mkTagDefinition "SOPClassUID" "00020002" (JStr "1")
    [VScalar (JStr "1.2.840.10008.5.1.4.1.1.66.4")];
  mkTagDefinition "Modality" "00080060" (JStr "1")
    [VScalar (JStr "SEG")];
  mkTagDefinition "SegmentationType" "00620001" (JStr "1")
    [VScalar (JStr "BINARY")];
  mkTagDefinition "DimensionOrganizationType" "00209311" (JStr "3")
    [VScalar (JStr "3D")];
  mkTagDefinition "ImageType" "00080008" (JStr "1")
    [VArray [JStr "DERIVED"; JStr "PRIMARY"]];
  mkTagDefinition "SamplesPerPixel" "00280002" (JStr "1")
    [VScalar (JNum 1)];
  mkTagDefinition "PhotometricInterpretation" "00280004" (JStr "1")
    [VScalar (JStr "MONOCHROME2")];
  mkTagDefinition "PixelRepresentation" "00280103" (JStr "1")
    [VScalar (JNum 0)];
  mkTagDefinition "BitsAllocated" "00280100" (JStr "1")
    [VScalar (JNum 1)];
  mkTagDefinition "BitsStored" "00280101" (JStr "1")
    [VScalar (JNum 1)];
  mkTagDefinition "HighBit" "00280102" (JStr "1")
    [VScalar (JNum 0)]
].

(** The first loop of [create]: [checkTag] on every definition, in order. *)
Fixpoint checkTags (dataElements : gmap string DataElement)
    (defs : list TagDefinition) : Completion unit :=
  match defs with
  | [] => Ok tt
  | d :: defs' =>
    checkTag dataElements d ≫= λ _, checkTags dataElements defs'
  end.

(** [getDefaultDicomSegJson()]: the object [tags], one property per table
    entry, written in table order. *)
Definition getDefaultDicomSegJson : gmap string JsValue :=
  fold_left (fun tags reqTag =>
               <[name reqTag := nth 0 (enum reqTag) VUndefined]> tags)
            RequiredDicomSegTags ∅.

(** ** [image/maskFactory.js]: the parsed object

    [create] reads the root tags through [dataElements] and the sequences
    through helpers of other modules ([getImage2DSize], [getSegment],
    [getSegmentFrameInfo], [getSpacingFromMeasure]) that are not among the
    sources.  The sequences are therefore given with their items already
    read: a segment sequence holds [Segment]s, the per-frame functional
    groups sequence holds [FrameInfo]s, and so on. *)

(** A segment: [{number, displayValue}] or [{number, displayRGBValue}]. *)
Record Segment := mkSegment {
  number : Z;
  displayValue : option Z;
  displayRGBValue : option (Z * Z * Z)      (* {r, g, b} *)
}.

(** An item of the dimension organization sequence (0020,9221). *)
Record OrganizationItem := mkOrganizationItem {
  itemOrganizationUID : JsScalar            (* (0020,9164) value[0] *)
}.

(** An item of the dimension index sequence (0020,9222). *)
Record IndexItem := mkIndexItem {
  itemIndexOrganizationUID : JsScalar;      (* (0020,9164) value[0] *)
  itemIndexPointer : JsScalar;              (* (0020,9165) value[0] *)
  itemDescriptionLabel : option JsScalar    (* (0020,9421) value[0] *)
}.

Record DimensionIndex := mkDimensionIndex {
  DimensionOrganizationUID : JsScalar;
  DimensionIndexPointer : JsScalar;
  DimensionDescriptionLabel : option JsScalar
}.

Record Dimension := mkDimension {
  organizations : list JsScalar;
  indices : list DimensionIndex
}.

(** The element type of the pixel buffer, which is also that of the
    output buffer ([new pixelBuffer.constructor(...)]). *)
Inductive ArrayKind := Uint8 | Int8 | Uint16 | Int16 | Uint32 | Int32.

Record PixelBuffer := mkPixelBuffer {
  kind : ArrayKind;
  samples : list Z
}.

Definition kind_bits (k : ArrayKind) : Z :=
  match k with
  | Uint8 | Int8 => 8
  | Uint16 | Int16 => 16
  | Uint32 | Int32 => 32
  end.

Definition kind_signed (k : ArrayKind) : bool :=
  match k with
  | Int8 | Int16 | Int32 => true
  | _ => false
  end.

(** The value a typed array of kind [k] holds after [array[i] = v]:
    [v] modulo [2^bits], read as signed for the [Int] kinds, and [0] for
    [undefined] (it converts to NaN). *)
Definition to_element (k : ArrayKind) (v : option Z) : Z :=
  match v with
  | None => 0
  | Some z =>
    let m := (z mod 2 ^ kind_bits k)%Z in
    if kind_signed k && (2 ^ (kind_bits k - 1) <=? m)%Z
    then (m - 2 ^ kind_bits k)%Z else m
  end.

(** [array[offset] = v] on a typed array: an offset outside the array is
    ignored. *)
Definition typed_set (k : ArrayKind) (buffer : list Z) (offset : Z)
    (v : option Z) : list Z :=
  if (offset <? 0)%Z then buffer
  else <[Z.to_nat offset := to_element k v]> buffer.

Definition is_digit (c : Ascii.ascii) : bool :=
  let n := Ascii.nat_of_ascii c in (48 <=? n)%nat && (n <=? 57)%nat.

Definition is_space (c : Ascii.ascii) : bool :=
  let n := Ascii.nat_of_ascii c in
  (n =? 32)%nat || ((9 <=? n)%nat && (n <=? 13)%nat).

Fixpoint skip_spaces (s : string) : string :=
  match s with
  | String c s' => if is_space c then skip_spaces s' else s
  | EmptyString => s
  end.

Fixpoint digits_prefix (s : string) (acc : option Z) : option Z :=
  match s with
  | String c s' =>
    if is_digit c then
      digits_prefix s'
        (Some (10 * default 0%Z acc + Z.of_nat (Ascii.nat_of_ascii c) - 48)%Z)
    else acc
  | EmptyString => acc
  end.

(** [parseInt(v, 10)]; [None] is NaN.  An integer prints as its decimal
    digits and parses back to itself. *)
Definition parseInt (v : option JsScalar) : option Z :=
  match v with
  | None => None
  | Some (JNum n) => Some n
  | Some (JStr s) =>
    match skip_spaces s with
    | String "-"%char s' => Z.opp <$> digits_prefix s' None
    | String "+"%char s' => digits_prefix s' None
    | s' => digits_prefix s' None
    end
  end.

(** [getDimensionOrganization(dataElements)] *)
Fixpoint dimension_index_loop (orgUID : JsScalar) (indexSq : list IndexItem)
    (indices : list DimensionIndex) (indexPointer : option JsScalar)
  : Completion (list DimensionIndex * option JsScalar) :=
  match indexSq with
  | [] => Ok (indices, indexPointer)
  | item :: indexSq' =>
    let indexOrg := itemIndexOrganizationUID item in
    if negb (strict_eq indexOrg orgUID) then
      Throw (UnsupportedDimensionOrganization
        "Dimension Index Sequence contains a unknown Dimension Organization")
    else
      let indexPointer := itemIndexPointer item in
      let index := mkDimensionIndex indexOrg indexPointer
                     (itemDescriptionLabel item) in
      dimension_index_loop orgUID indexSq' (indices ++ [index])
                           (Some indexPointer)
  end.

Definition getDimensionOrganization
    (orgSq : option (list OrganizationItem))
    (indexSqElem : option (list IndexItem)) : Completion Dimension :=
  match orgSq with
  | Some [item] =>
    let orgUID := itemOrganizationUID item in
    match indexSqElem with
    | None => Ok (mkDimension [orgUID] [])
    | Some indexSq =>
      if negb (length indexSq =? 2)%nat then
        Throw (UnsupportedDimensionOrganization
                 "Unsupported dimension index sequence length")
      else
        match dimension_index_loop orgUID indexSq [] None with
        | Ok (indices, indexPointer) =>
          match indexPointer with
          | Some (JStr "(0020,0032)") => Ok (mkDimension [orgUID] indices)
          | _ => Throw (UnsupportedDimensionOrganization
                          "Unsupported non image position as last index")
          end
        | Throw e => Throw e
        | OutOfFuel => OutOfFuel
        end
    end
  | _ => Throw (UnsupportedDimensionOrganization
                  "Unsupported dimension organization sequence length")
  end.

Section MaskFactory.
Context {A : Type} {NA : Number A}.
Local Open Scope num_scope.

(** An image position patient [[x, y, z]], also a [Point3D]. *)
Definition Pos : Type := A * A * A.

(** A [Spacing] of three values. *)
Definition Spacing : Type := A * A * A.

(** An image orientation patient: the row cosines, then the column
    cosines. *)
Record ImageOrientation := mkImageOrientation {
  rowX : A; rowY : A; rowZ : A;
  colX : A; colY : A; colZ : A
}.

(** The six values as the JavaScript array. *)
Definition orientation_values (o : ImageOrientation) : list A :=
  [rowX o; rowY o; rowZ o; colX o; colY o; colZ o].

(** The result of [getSegmentFrameInfo] on a per-frame group. *)
Record FrameInfo := mkFrameInfo {
  refSegmentNumber : Z;
  imagePosPat : Pos;
  imageOrientationPatient : option ImageOrientation;
  spacing : option Spacing
}.

(** A functional group: its plane orientation sequence (0020,9116) and
    its pixel measures sequence (0028,9110), each item already read
    ((0020,0037) value, [getSpacingFromMeasure]). *)
Record FunctionalGroup := mkFunctionalGroup {
  planeOrientationSequence : option (list ImageOrientation);
  pixelMeasuresSequence : option (list Spacing)
}.

Record SegElements := mkSegElements {
  rootElements : gmap string DataElement;  (* the tags of the root *)
  image2DSize : nat * nat;                 (* [getImage2DSize(dataElements)] *)
  dimensionOrganizationSequence : option (list OrganizationItem);
  dimensionIndexSequence : option (list IndexItem);
  segmentSequence : option (list Segment);             (* (0062,0002) *)
  sharedFunctionalGroupsSequence : option (list FunctionalGroup);
                                                       (* (5200,9229) *)
  perFrameFunctionalGroupsSequence : option (list FrameInfo)
                                                       (* (5200,9230) *)
}.

(** [equalPosPat(pos1, pos2)]: the two arrays print alike. *)
Definition equalPosPat (pos1 pos2 : Pos) : bool :=
  let '(x1, y1, z1) := pos1 in
  let '(x2, y2, z2) := pos2 in
  num_json_eq x1 x2 && num_json_eq y1 y2 && num_json_eq z1 z2.

Definition includesPosPat (arr : list Pos) (val : Pos) : bool :=
  existsb (fun arrVal => equalPosPat val arrVal) arr.

(** [findIndex]: [-1] when no element matches. *)
Fixpoint findIndexPosPat_from (i : Z) (arr : list Pos) (val : Pos) : Z :=
  match arr with
  | [] => (-1)%Z
  | arrVal :: arr' =>
    if equalPosPat val arrVal then i
    else findIndexPosPat_from (i + 1)%Z arr' val
  end.

Definition findIndexPosPat (arr : list Pos) (val : Pos) : Z :=
  findIndexPosPat_from 0%Z arr val.

(** Modelled from the spec: [Vector3D.crossProduct] of [math/vector]
    (absent), the cross product that gives the slice normal. *)
Definition crossProduct (u v : A * A * A) : A * A * A :=
  let '(ux, uy, uz) := u in
  let '(vx, vy, vz) := v in
  (uy * vz - vy * uz, uz * vx - vz * ux, ux * vy - vx * uy).

(** Modelled from the spec: [Point3D.getDistance] of [math/point]
    (absent), the Euclidean distance of two points. *)
Definition getDistance (p q : Pos) : A :=
  let '(px, py, pz) := p in
  let '(qx, qy, qz) := q in
  let dx := px - qx in
  let dy := py - qy in
  let dz := pz - qz in
  num_sqrt (dx * dx + dy * dy + dz * dz).

(** Modelled from the spec: [Spacing.equals] of [image/spacing]
    (absent), the equality of the three values. *)
Definition spacing_equals (s1 s2 : Spacing) : bool :=
  let '(a1, b1, c1) := s1 in
  let '(a2, b2, c2) := s2 in
  (a1 =? a2) && (b1 =? b2) && (c1 =? c2).

(** Modelled from the spec: the [Geometry] of [image/geometry] (absent),
    as far as [create] uses it: the origin of the first slice, the size
    per axis, the spacing, the orientation, and one origin per slice. *)
Record Geometry := mkGeometry {
  origin : Pos;
  geometrySize : nat * nat * nat;
  geometrySpacing : Spacing;
  orientation : Matrix33 A;
  origins : list Pos
}.

(** Modelled from the spec: [Geometry.indexToWorld] (absent).  The
    index is scaled by the spacing, turned by the orientation and moved
    to the origin, so that the points of indices [(0, 0, k)] are the
    multiples of the slice spacing along the normal, from the origin. *)
Definition indexToWorld (g : Geometry) (index : A * A * A) : Pos :=
  let '(i, j, k) := index in
  let '(sx, sy, sz) := geometrySpacing g in
  let '(px, py, pz) :=
    multiplyArray3D (orientation g) (i * sx, j * sy, k * sz) in
  let '(ox, oy, oz) := origin g in
  (ox + px, oy + py, oz + pz).

(** [getComparePosPat(orientation)], given the inverse. *)
Definition comparePosPat (invOrientation : Matrix33 A) (pos1 pos2 : Pos)
  : A :=
  let p1 := multiplyArray3D invOrientation pos1 in
  let p2 := multiplyArray3D invOrientation pos2 in
  p1.2 - p2.2.

(** [Array.prototype.sort(compare)] is a stable sort; written as the
    insertion of each element, in order, after the elements it does not
    compare below. *)
Fixpoint sort_insert (compare : Pos -> Pos -> A) (x : Pos) (l : list Pos)
  : list Pos :=
  match l with
  | [] => [x]
  | y :: l' =>
    if compare x y <? num_zero then x :: y :: l'
    else y :: sort_insert compare x l'
  end.

Definition sort (compare : Pos -> Pos -> A) (l : list Pos) : list Pos :=
  fold_left (fun sorted x => sort_insert compare x sorted) l [].

(** [framePosPats.sort(getComparePosPat(orientationMatrix))]: with fewer
    than two positions the comparison is never called; otherwise it
    reads the inverse, which is [undefined] for a zero determinant. *)
Definition sortPosPats (orientationMatrix : Matrix33 A)
    (framePosPats : list Pos) : Completion (list Pos) :=
  match framePosPats with
  | [] | [_] => Ok framePosPats
  | _ =>
    match getInverse orientationMatrix with
    | None => Throw (TypeError "invOrientation")
    | Some invOrientation =>
      Ok (sort (comparePosPat invOrientation) framePosPats)
    end
  end.

(** The distances, along the normal, of consecutive origins. *)
Fixpoint sliceDeltas (invOrientation : Matrix33 A) (origins : list Pos)
  : list A :=
  match origins with
  | o1 :: ((o2 :: _) as rest) =>
    num_abs ((multiplyArray3D invOrientation o1).2
             - (multiplyArray3D invOrientation o2).2)
    :: sliceDeltas invOrientation rest
  | _ => []
  end.

(** Modelled from the spec: [getSliceGeometrySpacing] of
    [image/geometry] (absent), the "inferred inter-slice spacing from
    the sorted positions' geometric projection": the smallest distance
    between the projections on the normal of two consecutive origins,
    and [undefined] ([None]) when there are fewer than two origins. *)
Definition getSliceGeometrySpacing (frameOrigins : list Pos)
    (orientationMatrix : Matrix33 A) : Completion (option A) :=
  match frameOrigins with
  | [] | [_] => Ok None
  | _ =>
    match getInverse orientationMatrix with
    | None => Throw (TypeError "invOrientation")
    | Some invOrientation =>
      match sliceDeltas invOrientation frameOrigins with
      | [] => Ok None
      | d :: deltas =>
        Ok (Some (fold_left (fun sliceSpacing diff =>
                               if diff <? sliceSpacing then diff
                               else sliceSpacing) deltas d))
      end
    end
  end.

(** [isNotSmall(value)] (the warnings are only logged). *)
Definition isNotSmall (value : A) : bool :=
  let res := value >? REAL_WORLD_EPSILON in
  if res then
    let res := value >? REAL_WORLD_EPSILON * num_ten in
    if negb res then res
    else value >? REAL_WORLD_EPSILON * num_hundred
  else res.

(** The [while (isNotSmall(dist))] loop of [create], for the frame
    origin [frameOrigin]; [fuel] bounds its iterations.  It returns the
    slice index and the positions at its exit. *)
Fixpoint addIntermediatePosPats (fuel : nat) (tmpGeometry : Geometry)
    (frameOrigin : Pos) (distPrevious : A)
    (sliceIndex : nat) (point : Pos) (dist : A) (posPats : list Pos)
  : Completion (nat * list Pos) :=
  if isNotSmall dist then
    match fuel with
    | O => OutOfFuel
    | S fuel' =>
      let posPats := posPats ++ [point] in
      let sliceIndex := S sliceIndex in
      let index := (num_zero, num_zero, num_of_nat sliceIndex) in
      let point := indexToWorld tmpGeometry index in
      let dist := getDistance frameOrigin point in
      if dist >? distPrevious then Throw IntermediatePositionDivergence
      else addIntermediatePosPats fuel' tmpGeometry frameOrigin
             distPrevious sliceIndex point dist posPats
    end
  else Ok (sliceIndex, posPats).

(** The [for (let g = 1; ...)] loop of [create]; [framePosPats] holds
    the positions from index [g] on. *)
Fixpoint addMissingPosPats (fuel : nat) (tmpGeometry : Geometry)
    (framePosPats : list Pos) (sliceIndex : nat) (posPats : list Pos)
  : Completion (list Pos) :=
  match framePosPats with
  | [] => Ok posPats
  | framePosPat :: framePosPats' =>
    let sliceIndex := S sliceIndex in
    let index := (num_zero, num_zero, num_of_nat sliceIndex) in
    let point := indexToWorld tmpGeometry index in
    let frameOrigin := framePosPat in
    let dist := getDistance frameOrigin point in
    let distPrevious := dist in
    '(sliceIndex, posPats) ←
      addIntermediatePosPats fuel tmpGeometry frameOrigin distPrevious
                             sliceIndex point dist posPats;
    addMissingPosPats fuel tmpGeometry framePosPats' sliceIndex
                      (posPats ++ [framePosPat])
  end.

(** *** The stages of [create] *)

(** What [create] has read when it starts checking the frame infos. *)
Record Parsed := mkParsed {
  parsedSize : nat * nat * nat;
  sliceSize : nat;
  dimension : Dimension;
  segments : list Segment;
  storeAsRGB : bool;
  sharedSpacing : option Spacing;
  sharedOrientation : option ImageOrientation;
  frameInfos : list FrameInfo
}.

(** [frames !== pixelBuffer.length / sliceSize], negated: the quotient
    of two array sizes is the integer [frames] exactly when the product
    matches and [sliceSize] is not zero. *)
Definition frames_equal (frames : option Z) (len sliceSize : nat) : bool :=
  match frames with
  | None => false
  | Some f =>
    negb (sliceSize =? 0)%nat
    && (f * Z.of_nat sliceSize =? Z.of_nat len)%Z
  end.

(** The shared functional groups sequence: the orientation and the
    spacing that hold for all frames, when given. *)
Definition readSharedGroups (seq : option (list FunctionalGroup))
  : Completion (option Spacing * option ImageOrientation) :=
  match seq with
  | None => Ok (None, None)
  | Some [] => Throw (TypeError "funcGroup0")
  | Some (funcGroup0 :: _) =>
    let imageOrientationPatient :=
      match planeOrientationSequence funcGroup0 with
      | Some (item :: _) => Some item
      | _ => None
      end in
    let spacing :=
      match pixelMeasuresSequence funcGroup0 with
      | Some (item :: _) => Some item
      | _ => None
      end in
    Ok (spacing, imageOrientationPatient)
  end.

(** [create], from the tag checks to the frame infos. *)
Definition readElements (dataElements : SegElements)
    (pixelBuffer : PixelBuffer) : Completion Parsed :=
  _ ← checkTags (rootElements dataElements) RequiredDicomSegTags;
  let size2D := image2DSize dataElements in
  let size := (size2D.1, size2D.2, 1%nat) in
  let sliceSize := (size2D.1 * size2D.2 * 1)%nat in
  let frames :=
    match rootElements dataElements !! "00280008" with
    | None => Some 1%Z
    | Some framesElem => parseInt (head (value framesElem))
    end in
  if negb (frames_equal frames (length (samples pixelBuffer)) sliceSize)
  then Throw (FrameCountMismatch
                "Buffer and numberOfFrames meta are not equal.")
  else
    dimension ← getDimensionOrganization
                  (dimensionOrganizationSequence dataElements)
                  (dimensionIndexSequence dataElements);
    match segmentSequence dataElements with
    | None => Throw MissingSegmentSequence
    | Some segments =>
      let storeAsRGB :=
        existsb (fun segment => bool_decide (is_Some (displayRGBValue segment)))
                segments in
      '(spacing, imageOrientationPatient) ←
        readSharedGroups (sharedFunctionalGroupsSequence dataElements);
      match perFrameFunctionalGroupsSequence dataElements with
      | None => Throw MissingPerFrameSequence
      | Some frameInfos =>
        if negb (bool_decide (frames = Some (Z.of_nat (length frameInfos))))
        then Throw (FrameCountMismatch
          "perFrameFuncGroupSequence meta and numberOfFrames are not equal.")
        else Ok (mkParsed size sliceSize dimension segments storeAsRGB
                          spacing imageOrientationPatient frameInfos)
      end
    end.

(** The loop "check frame infos": the positions seen so far, and the
    orientation and the spacing established so far. *)
Fixpoint checkFrameInfos (frameInfos : list FrameInfo)
    (framePosPats : list Pos)
    (orientationPatient : option ImageOrientation)
    (pixelSpacing : option Spacing)
  : Completion (list Pos * option ImageOrientation * option Spacing) :=
  match frameInfos with
  | [] => Ok (framePosPats, orientationPatient, pixelSpacing)
  | frameInfo :: frameInfos' =>
    let framePosPats :=
      if negb (includesPosPat framePosPats (imagePosPat frameInfo))
      then framePosPats ++ [imagePosPat frameInfo]
      else framePosPats in
    (* store orientation if needed, avoid multi *)
    orientationPatient ←
      match imageOrientationPatient frameInfo, orientationPatient with
      | None, _ => Ok orientationPatient
      | Some o, None => Ok (Some o)
      | Some o, Some reference =>
        if negb (arraySortEquals num_eq (orientation_values reference)
                                        (orientation_values o))
        then Throw MultiOrientationUnsupported
        else Ok orientationPatient
      end;
    (* store spacing if needed, avoid multi *)
    pixelSpacing ←
      match spacing frameInfo, pixelSpacing with
      | None, _ => Ok pixelSpacing
      | Some s, None => Ok (Some s)
      | Some s, Some reference =>
        if negb (spacing_equals reference s)
        then Throw MultiSpacingUnsupported
        else Ok pixelSpacing
      end;
    checkFrameInfos frameInfos' framePosPats orientationPatient
                    pixelSpacing
  end.

(** The orientation matrix of an image orientation patient
    ([parseFloat] leaves a number as it is). *)
Definition orientationMatrixOf (o : ImageOrientation) : Matrix33 A :=
  let rowCosines := (rowX o, rowY o, rowZ o) in
  let colCosines := (colX o, colY o, colZ o) in
  let normal := crossProduct rowCosines colCosines in
  mkMatrix33 (rowX o) (colX o) normal.1.1
             (rowY o) (colY o) normal.1.2
             (rowZ o) (colZ o) normal.2.

(** [create], from the frame infos to the final geometry: the positions
    of the slices, the geometry, and the slice identifiers. *)
Definition reconcile (fuel : nat) (parsed : Parsed)
  : Completion (list Pos * Geometry * list string) :=
  '(framePosPats, imageOrientationPatient, spacing) ←
    checkFrameInfos (frameInfos parsed) []
                    (sharedOrientation parsed) (sharedSpacing parsed);
  match spacing, imageOrientationPatient with
  | None, _ => Throw MissingSpacing
  | Some _, None => Throw MissingOrientation
  | Some spacing, Some imageOrientationPatient =>
    let orientationMatrix := orientationMatrixOf imageOrientationPatient in
    framePosPats ← sortPosPats orientationMatrix framePosPats;
    let frameOrigins := framePosPats in
    geoSliceSpacing ← getSliceGeometrySpacing frameOrigins orientationMatrix;
    let newSpacing :=
      match geoSliceSpacing with
      | Some geoSliceSpacing =>
        if negb (geoSliceSpacing =? spacing.2)
        then (spacing.1.1, spacing.1.2, geoSliceSpacing)
        else spacing
      | None => spacing
      end in
    match framePosPats with
    | [] => Throw (TypeError "frameOrigins[0]")
    | framePosPat0 :: framePosPats' =>
      let tmpGeometry :=
        mkGeometry framePosPat0 (parsedSize parsed) newSpacing
                   orientationMatrix [framePosPat0] in
      posPats ← addMissingPosPats fuel tmpGeometry framePosPats' 0
                                  [framePosPat0];
      let numberOfSlices := length posPats in
      let geometry :=
        mkGeometry framePosPat0
                   ((parsedSize parsed).1.1, (parsedSize parsed).1.2,
                    numberOfSlices)
                   newSpacing orientationMatrix posPats in
      let uids := (λ m : nat, pretty m) <$> seq 0 numberOfSlices in
      Ok (posPats, geometry, uids)
    end
  end.

(** The writes of one non-zero sample, at [offset]. *)
Definition writeSample (k : ArrayKind) (storeAsRGB : bool)
    (frameSegment : option Segment) (offset : Z) (buffer : list Z)
  : Completion (list Z) :=
  match frameSegment with
  | None => Throw UnknownSegmentReference
  | Some frameSegment =>
    if storeAsRGB then
      match displayRGBValue frameSegment with
      | None => Throw (TypeError "displayRGBValue")
      | Some (r, g, b) =>
        let buffer := typed_set k buffer offset (Some r) in
        let buffer := typed_set k buffer (offset + 1)%Z (Some g) in
        Ok (typed_set k buffer (offset + 2)%Z (Some b))
      end
    else Ok (typed_set k buffer offset (displayValue frameSegment))
  end.

(** [pixelBuffer[i] !== 0] *)
Definition sample_not_zero (pixelBuffer : PixelBuffer) (i : nat) : bool :=
  match samples pixelBuffer !! i with
  | Some 0%Z => false
  | _ => true
  end.

(** The loop over the samples [l] of one frame. *)
Fixpoint mergeSamples (ls : list nat) (pixelBuffer : PixelBuffer)
    (storeAsRGB : bool) (frameSegment : option Segment)
    (frameOffset : nat) (sliceOffset : Z) (buffer : list Z)
  : Completion (list Z) :=
  match ls with
  | [] => Ok buffer
  | l :: ls' =>
    if sample_not_zero pixelBuffer (frameOffset + l) then
      let mul := if storeAsRGB then 3%Z else 1%Z in
      let offset := (mul * (sliceOffset + Z.of_nat l))%Z in
      buffer ← writeSample (kind pixelBuffer) storeAsRGB frameSegment
                           offset buffer;
      mergeSamples ls' pixelBuffer storeAsRGB frameSegment
                   frameOffset sliceOffset buffer
    else
      mergeSamples ls' pixelBuffer storeAsRGB frameSegment
                   frameOffset sliceOffset buffer
  end.

(** The body of the loop "merge frame buffers" for frame [f]. *)
Definition mergeFrame (parsed : Parsed) (posPats : list Pos)
    (pixelBuffer : PixelBuffer) (f : nat) (frameInfo : FrameInfo)
    (buffer : list Z) : Completion (list Z) :=
  let sliceIndex := findIndexPosPat posPats (imagePosPat frameInfo) in
  let frameOffset := (sliceSize parsed * f)%nat in
  let sliceOffset := (Z.of_nat (sliceSize parsed) * sliceIndex)%Z in
  let frameSegment :=
    List.find (fun item => (number item =? refSegmentNumber frameInfo)%Z)
              (segments parsed) in
  mergeSamples (seq 0 (sliceSize parsed)) pixelBuffer (storeAsRGB parsed)
               frameSegment frameOffset sliceOffset buffer.

Fixpoint mergeFrames (parsed : Parsed) (posPats : list Pos)
    (pixelBuffer : PixelBuffer) (f : nat) (frameInfos : list FrameInfo)
    (buffer : list Z) : Completion (list Z) :=
  match frameInfos with
  | [] => Ok buffer
  | frameInfo :: frameInfos' =>
    buffer ← mergeFrame parsed posPats pixelBuffer f frameInfo buffer;
    mergeFrames parsed posPats pixelBuffer (S f) frameInfos' buffer
  end.

(** [create]: the output buffer, zero filled, and the frames merged
    into it. *)
Definition mergeFrameBuffers (parsed : Parsed) (posPats : list Pos)
    (pixelBuffer : PixelBuffer) : Completion (list Z) :=
  let numberOfSlices := length posPats in
  let mul := if storeAsRGB parsed then 3%nat else 1%nat in
  let buffer := replicate (mul * sliceSize parsed * numberOfSlices) 0%Z in
  mergeFrames parsed posPats pixelBuffer 0 (frameInfos parsed) buffer.

(** The meta data of the image. *)
Record Meta := mkMeta {
  metaTags : gmap string JsValue;
  DimensionOrganizationSequence : list JsScalar;
  DimensionIndexSequence : list DimensionIndex;
  customSegments : list Segment;
  customFrameInfos : list FrameInfo;
  customSOPInstanceUID : JsValue;
  numberOfFiles : nat
}.

Record Image := mkImage {
  geometry : Geometry;
  buffer : list Z;
  bufferKind : ArrayKind;
  uids : list string;
  photometricInterpretation : option string;
  meta : Meta
}.

Definition safeGet (dataElements : gmap string DataElement) (key : string)
  : JsValue :=
  match dataElements !! key with
  | Some element =>
    match value element with
    | v :: _ => VScalar v
    | [] => VUndefined
    end
  | None => VUndefined
  end.

(** The properties that [create] sets from [safeGet], in order. *)
Definition metaKeys : list (string * string) := [
  ("StudyDate", "00080020"); ("StudyTime", "00080030");
  ("StudyInstanceUID", "0020000D"); ("StudyID", "00200010");
  ("SeriesInstanceUID", "0020000E"); ("SeriesNumber", "00200011");
  ("ReferringPhysicianName", "00080090");
  ("PatientName", "00100010"); ("PatientID", "00100020");
  ("PatientBirthDate", "00100030"); ("PatientSex", "00100040");
  ("Manufacturer", "00080070"); ("ManufacturerModelName", "00081090");
  ("DeviceSerialNumber", "00181000"); ("SoftwareVersions", "00181020")
].

(** The optional properties, set only when the element is there. *)
Definition optionalMetaKeys : list (string * string) := [
  ("FrameOfReferenceUID", "00200052");
  ("LossyImageCompression", "00282110")
].

(** [create], from the image to the end. *)
Definition makeImage (dataElements : SegElements) (parsed : Parsed)
    (posPats : list Pos) (geometry : Geometry) (uids : list string)
    (k : ArrayKind) (buffer : list Z) : Completion Image :=
  let photometric := if storeAsRGB parsed then Some "RGB" else None in
  let meta := getDefaultDicomSegJson in
  let meta :=
    fold_left (fun meta kv =>
                 <[kv.1 := safeGet (rootElements dataElements) kv.2]> meta)
              metaKeys meta in
  match rootElements dataElements !! "00080018" with
  | None => Throw (TypeError "dataElements['00080018']")
  | Some sopInstanceUID =>
    let meta :=
      fold_left (fun meta kv =>
                   match rootElements dataElements !! kv.2 with
                   | Some _ =>
                     <[kv.1 := safeGet (rootElements dataElements) kv.2]> meta
                   | None => meta
                   end)
                optionalMetaKeys meta in
    Ok (mkImage geometry buffer k uids photometric
          (mkMeta meta
                  (organizations (dimension parsed))
                  (indices (dimension parsed))
                  (segments parsed) (frameInfos parsed)
                  (match value sopInstanceUID with
                   | v :: _ => VScalar v
                   | [] => VUndefined
                   end)
                  (length posPats)))
  end.

(** [MaskFactory.create(dataElements, pixelBuffer)] *)
Definition create (fuel : nat) (dataElements : SegElements)
    (pixelBuffer : PixelBuffer) : Completion Image :=
  parsed ← readElements dataElements pixelBuffer;
  '(posPats, geometry, uids) ← reconcile fuel parsed;
  buffer ← mergeFrameBuffers parsed posPats pixelBuffer;
  makeImage dataElements parsed posPats geometry uids
            (kind pixelBuffer) buffer.

End MaskFactory.

Arguments ImageOrientation A : clear implicits.
Arguments mkImageOrientation {A} _ _ _ _ _ _.
Arguments FrameInfo A : clear implicits.
Arguments mkFrameInfo {A} _ _ _ _.
Arguments FunctionalGroup A : clear implicits.
Arguments mkFunctionalGroup {A} _ _.
Arguments SegElements A : clear implicits.
Arguments mkSegElements {A} _ _ _ _ _ _ _.
Arguments Geometry A : clear implicits.
Arguments mkGeometry {A} _ _ _ _ _.
Arguments Parsed A : clear implicits.
Arguments mkParsed {A} _ _ _ _ _ _ _ _.
Arguments Meta A : clear implicits.
Arguments Image A : clear implicits.
Arguments Pos A : clear implicits.
Arguments Spacing A : clear implicits.

(** * Inputs and predicates of the statements *)

(** ** The tag validator *)

(** The requirement level "required" of a tag definition: type 1. *)
Definition is_required (d : TagDefinition) : bool :=
  strict_eq (type d) (JStr "1").

Definition Modality_definition : TagDefinition :=
  mkTagDefinition "Modality" "00080060" (JStr "1") [VScalar (JStr "SEG")].

(** A store that holds every tag of the table with an accepted value,
    the number of frames (2) and the SOP instance UID. *)
Definition seg_tags : gmap string DataElement :=
  list_to_map [
    ("00020010", mkDataElement [JStr "1.2.840.10008.1.2.1"]);
    ("00020002", mkDataElement [JStr "1.2.840.10008.5.1.4.1.1.66.4"]);
    ("00080060", mkDataElement [JStr "SEG"]);
    ("00620001", mkDataElement [JStr "BINARY"]);
    ("00209311", mkDataElement [JStr "3D"]);
    ("00080008", mkDataElement [JStr "DERIVED"; JStr "PRIMARY"]);
    ("00280002", mkDataElement [JNum 1]);
    ("00280004", mkDataElement [JStr "MONOCHROME2"]);
    ("00280103", mkDataElement [JNum 0]);
    ("00280100", mkDataElement [JNum 1]);
    ("00280101", mkDataElement [JNum 1]);
    ("00280102", mkDataElement [JNum 0]);
    ("00280008", mkDataElement [JNum 2]);
    ("00080018", mkDataElement [JStr "1.2.826.0.1"])
  ].

(** ** SEG objects, in binary64 *)

(** The axial orientation: rows along x, columns along y. *)
Definition axial : ImageOrientation float :=
  (mkImageOrientation 1 0 0 0 1 0)%float.

(** The image orientation with the rows along x and the columns along z:
    the six values of [axial] in another order. *)
Definition rows_x_columns_z : ImageOrientation float :=
  (mkImageOrientation 1 0 0 0 0 1)%float.

(** The coronal orientation of [getCoronalMat33]: rows along x, columns
    along -z. *)
Definition coronal : ImageOrientation float :=
  (mkImageOrientation 1 0 0 0 0 (-1))%float.

(** A SEG object of 2 x 2 frames over the tags [tags], with one segment
    sequence and the frames [frames]; orientation and spacing are shared
    when given. *)
Definition seg_object (tags : gmap string DataElement)
    (segs : list Segment)
    (shared : FunctionalGroup float)
    (frames : list (FrameInfo float)) : SegElements float :=
  mkSegElements tags (2, 2)%nat
    (Some [mkOrganizationItem (JStr "1.2.826.0.2")]) None
    (Some segs) (Some [shared]) (Some frames).

(** Two frames of 2 x 2 samples, all set. *)
Definition all_set : PixelBuffer := mkPixelBuffer Uint8 (replicate 8 1%Z).

(** Two frames of 2 x 2 samples: the first all set, the second empty. *)
Definition first_frame_set : PixelBuffer :=
  mkPixelBuffer Uint8 [1; 1; 1; 1; 0; 0; 0; 0]%Z.

(** One frame of 2 x 2 samples, the first and the third set. *)
Definition half_set : PixelBuffer := mkPixelBuffer Uint8 [1; 0; 1; 0]%Z.

(** The scenario of the specification: 2 frames at (0,0,0) and (0,0,4),
    declared spacing (1,1,2), one segment of display value 5. *)
Definition scenario_two_frames : SegElements float :=
  seg_object seg_tags [mkSegment 1 (Some 5%Z) None]
    (mkFunctionalGroup (Some [axial]) (Some [(1, 1, 2)%float]))
    [mkFrameInfo 1 (0, 0, 0)%float None None;
     mkFrameInfo 1 (0, 0, 4)%float None None].

(** The same object without its Modality tag (0008,0060). *)
Definition scenario_no_modality : SegElements float :=
  seg_object (delete "00080060" seg_tags) [mkSegment 1 (Some 5%Z) None]
    (mkFunctionalGroup (Some [axial]) (Some [(1, 1, 2)%float]))
    [mkFrameInfo 1 (0, 0, 0)%float None None;
     mkFrameInfo 1 (0, 0, 4)%float None None].

(** Two frames, each with its own orientation. *)
Definition two_frames_oriented (o1 o2 : ImageOrientation float)
  : SegElements float :=
  seg_object seg_tags [mkSegment 1 (Some 5%Z) None]
    (mkFunctionalGroup None (Some [(1, 1, 2)%float]))
    [mkFrameInfo 1 (0, 0, 0)%float (Some o1) None;
     mkFrameInfo 1 (0, 0, 4)%float (Some o2) None].

(** Two frames, the second of which refers to segment 2 while the
    segment sequence holds segment 1 only. *)
Definition scenario_unknown_segment : SegElements float :=
  seg_object seg_tags [mkSegment 1 (Some 5%Z) None]
    (mkFunctionalGroup (Some [axial]) (Some [(1, 1, 2)%float]))
    [mkFrameInfo 1 (0, 0, 0)%float None None;
     mkFrameInfo 2 (0, 0, 4)%float None None].

(** One frame of 2 x 2 samples, two of them set, over a scalar segment. *)
Definition parsed_one_frame : Parsed float :=
  mkParsed (2, 2, 1)%nat 4 (mkDimension [JStr "1.2.826.0.2"] [])
           [mkSegment 1 (Some 5%Z) None] false
           (Some (1, 1, 1)%float) (Some axial)
           [mkFrameInfo 1 (0, 0, 0)%float None None].

(** The geometry of the two frames at (0,0,0) and (0,0,4). *)
Definition geometry_two_frames : Geometry float :=
  mkGeometry (0, 0, 0)%float (2, 2, 2)%nat (1, 1, 4)%float
             (mkMatrix33 1 0 0 0 1 0 0 0 1)%float
             [(0, 0, 0); (0, 0, 4)]%float.

(** What the statements below read of a completion of [create]: the
    geometry, the buffer and the number of slices of the image. *)
Definition volume_of {A : Type} (c : Completion (Image A))
  : Completion (Geometry A * list Z * nat) :=
  image ← c; Ok (geometry image, buffer image, numberOfFiles (meta image)).

(** ** Matrices and the orientation code *)

(** The matrix, of determinant 5, on which the product with the inverse
    misses the identity by one unit in the last place. *)
Definition matrix_2130 : Matrix33 float :=
  (mkMatrix33 2 1 0
              1 3 0
              0 0 1)%float.

(** The matrix [[2,1,0],[1,3,0],[0,0,1]] over the reals. *)
Definition matrix_2130_R : Matrix33 R :=
  (mkMatrix33 2 1 0
              1 3 0
              0 0 1)%R.

(** An orientation whose first column (1, 0.5, 0.2) is oblique. *)
#[warnings="-inexact-float"] Definition matrix_oblique : Matrix33 float :=
  (mkMatrix33 1   0 0
              0.5 1 0
              0.2 0 1)%float.

(** An orientation whose first column (1, 1, 0) has two equal largest
    magnitudes. *)
Definition matrix_tie : Matrix33 float :=
  (mkMatrix33 1 0 0
              1 1 0
              0 0 1)%float.

Section OrientationCode.
Context {A : Type} {NA : Number A}.
Local Open Scope num_scope.

(** Column [j] of a matrix, as [getOrientationStringLPS] reads it. *)
Definition column (m : Matrix33 A) (j : nat) : A * A * A :=
  (get m 0 j, get m 1 j, get m 2 j).

(** The test of [getVectorStringLPS] for the magnitude [a] against the
    two others: above the threshold and strictly the largest. *)
Definition dominates (a b c : A) : bool :=
  (a >? LPS_threshold) && (a >? b) && (a >? c).

(** The letter of the first axis, in the order x, y, z, whose magnitude
    dominates; [None] when no magnitude does. *)
Definition firstLetterLPS (v : A * A * A) : option string :=
  let '(x, y, z) := v in
  let ax := num_abs x in
  let ay := num_abs y in
  let az := num_abs z in
  if dominates ax ay az then Some (if x <? num_zero then "R" else "L")
  else if dominates ay ax az then Some (if y <? num_zero then "A" else "P")
  else if dominates az ax ay then Some (if z <? num_zero then "I" else "S")
  else None.

(** A vector along one axis: one magnitude dominates and the two others
    are not above the threshold. *)
Definition single_axis (v : A * A * A) : bool :=
  let '(x, y, z) := v in
  let ax := num_abs x in
  let ay := num_abs y in
  let az := num_abs z in
  (dominates ax ay az && negb (ay >? LPS_threshold)
                      && negb (az >? LPS_threshold))
  || (dominates ay ax az && negb (ax >? LPS_threshold)
                         && negb (az >? LPS_threshold))
  || (dominates az ax ay && negb (ax >? LPS_threshold)
                         && negb (ay >? LPS_threshold)).

End OrientationCode.

(** ** Gap filling *)

Section GapFillingTerms.
Context {A : Type} {NA : Number A}.
Local Open Scope num_scope.

(** The point of slice index [k] in a geometry: what the gap filling
    computes as [tmpGeometry.indexToWorld(new Index([0, 0, k])).get3D()]. *)
Definition slicePoint (g : Geometry A) (k : nat) : Pos A :=
  indexToWorld g (num_zero, num_zero, num_of_nat k).

(** The slice normal of an image orientation. *)
Definition normalOf (o : ImageOrientation A) : A * A * A :=
  crossProduct (rowX o, rowY o, rowZ o) (colX o, colY o, colZ o).



End GapFillingTerms.

(** The distance from the frame origin to the point of slice index [k]:
    the value of [dist] in the gap filling. *)
Definition sliceDistance {A : Type} {NA : Number A} (g : Geometry A)
    (frameOrigin : Pos A) (k : nat) : A :=
  getDistance frameOrigin (slicePoint g k).

(** An image orientation and a parsed object over the reals: frames at
    (0,0,2), (0,0,0), (0,0,2) again and (0,0,4), declared spacing
    (1,1,2). *)
Definition axial_R : ImageOrientation R :=
  (mkImageOrientation 1 0 0 0 1 0)%R.


(** A geometry over the reals with slices 3 apart along z. *)
Definition geometry_step3_R : Geometry R :=
  mkGeometry (0, 0, 0)%R (2, 2, 1)%nat (1, 1, 3)%R
             (mkMatrix33 1 0 0 0 1 0 0 0 1)%R [(0, 0, 0)%R].

(** ** Inputs at the limits: rounding, a slice step of zero *)





(** Two frames in one plane, at (0,0,0) and (1,0,0): their projections
    on the normal are equal, and the inferred slice spacing is 0. *)
Definition parsed_same_plane : Parsed float :=
  mkParsed (2, 2, 1)%nat 4 (mkDimension [JStr "1.2.826.0.2"] [])
           [mkSegment 1 (Some 5%Z) None] false
           (Some (1, 1, 2)%float) (Some axial)
           [mkFrameInfo 1 (0, 0, 0)%float None None;
            mkFrameInfo 1 (1, 0, 0)%float None None].

Definition parsed_same_plane_R : Parsed R :=
  mkParsed (2, 2, 1)%nat 4 (mkDimension [JStr "1.2.826.0.2"] [])
           [mkSegment 1 (Some 5%Z) None] false
           (Some (1, 1, 2)%R) (Some axial_R)
           [mkFrameInfo 1 (0, 0, 0)%R None None;
            mkFrameInfo 1 (1, 0, 0)%R None None].





(** ** The letters of a column, one after the other *)

(** The three axes of a vector. *)
Inductive Axis := AxisX | AxisY | AxisZ.

Section OrientationLetters.
Context {A : Type} {NA : Number A}.
Local Open Scope num_scope.

(** The first axis, tested in the order x, y, z, whose magnitude is
    above the threshold and strictly above the two others; [None] when
    there is no such axis. *)
Definition dominantAxis (abs : A * A * A) : option Axis :=
  let '(ax, ay, az) := abs in
  if dominates ax ay az then Some AxisX
  else if dominates ay ax az then Some AxisY
  else if dominates az ax ay then Some AxisZ
  else None.

(** The magnitudes with the one of the chosen axis set to zero. *)
Definition withoutAxis (axis : Axis) (abs : A * A * A) : A * A * A :=
  let '(ax, ay, az) := abs in
  match axis with
  | AxisX => (num_zero, ay, az)
  | AxisY => (ax, num_zero, az)
  | AxisZ => (ax, ay, num_zero)
  end.

(** The letter of an axis, by the sign of the vector along it. *)
Definition letterLPS (v : A * A * A) (axis : Axis) : string :=
  let '(x, y, z) := v in
  match axis with
  | AxisX => if x <? num_zero then "R" else "L"
  | AxisY => if y <? num_zero then "A" else "P"
  | AxisZ => if z <? num_zero then "I" else "S"
  end.

(** At most [n] letters for the vector [v], from the magnitudes [abs]:
    the letter of the dominant axis, followed by the letters found the
    same way once the magnitude of that axis is set to zero; no letter
    when no axis is dominant. *)
Fixpoint lettersLPS (n : nat) (v abs : A * A * A) : string :=
  match n with
  | O => ""
  | S n' =>
    match dominantAxis abs with
    | Some axis =>
      letterLPS v axis +:+ lettersLPS n' v (withoutAxis axis abs)
    | None => ""
    end
  end.

(** The code of a column: at most three letters, from the magnitudes of
    its three values. *)
Definition columnCode (v : A * A * A) : string :=
  let '(x, y, z) := v in
  lettersLPS 3 v (num_abs x, num_abs y, num_abs z).

End OrientationLetters.

(** * The rest of the code *)

(** ** [math/matrix.js]: the other methods of [Matrix33] *)

(** [Math.max] of two numbers: NaN when one of them is NaN, and +0 above
    -0. *)
Class MathMax (A : Type) := Math_max : A -> A -> A.

Definition float_max (a b : float) : float :=
  if PrimFloat.is_nan a || PrimFloat.is_nan b then PrimFloat.nan
  else if PrimFloat.ltb a b then b
  else if PrimFloat.ltb b a then a
  else if PrimFloat.get_sign a then b else a.

#[export] Instance MathMax_float : MathMax float := float_max.

#[export] Instance MathMax_R : MathMax R := Rmax.

Section MatrixMethods.
Context {A : Type} {NA : Number A} {MA : MathMax A}.
Local Open Scope num_scope.

(** [this.#values[row * 3 + col]] where the indices may be negative;
    [None] is [undefined]. *)
Definition getZ (m : Matrix33 A) (row col : Z) : option A :=
  let i := (row * 3 + col)%Z in
  if (i <? 0)%Z then None else values m !! Z.to_nat i.

(** [getAbs()] *)
Definition getAbs (m : Matrix33 A) : Matrix33 A :=
  matrix_of_list
    (flat_map (fun i => map (fun j => num_abs (get m i j)) [0; 1; 2]%nat)
              [0; 1; 2]%nat).

(** [Math.max.apply(null, values)] for an array of three values. *)
Definition Math_max_apply (values : A * A * A) : A :=
  let '(v0, v1, v2) := values in Math_max (Math_max v0 v1) v2.

(** [values.indexOf(searchElement)]: the first index whose value is
    [===] to the element, [-1] when there is none. *)
Fixpoint indexOf_from (i : Z) (values : list A) (searchElement : A) : Z :=
  match values with
  | [] => (-1)%Z
  | v :: values' =>
    if v =? searchElement then i
    else indexOf_from (i + 1)%Z values' searchElement
  end.

Definition indexOf (values : list A) (searchElement : A) : Z :=
  indexOf_from 0%Z values searchElement.

(** The object [{value, index}]. *)
Record AbsMax := mkAbsMax {
  maxValue : option A;
  maxIndex : Z
}.

(** [getRowAbsMax(row)] *)
Definition getRowAbsMax (m : Matrix33 A) (row : nat) : AbsMax :=
  let v0 := num_abs (get m row 0) in
  let v1 := num_abs (get m row 1) in
  let v2 := num_abs (get m row 2) in
  let absMax := Math_max_apply (v0, v1, v2) in
  let index := indexOf [v0; v1; v2] absMax in
  mkAbsMax (getZ m (Z.of_nat row) index) index.

(** [getColAbsMax(col)] *)
Definition getColAbsMax (m : Matrix33 A) (col : nat) : AbsMax :=
  let v0 := num_abs (get m 0 col) in
  let v1 := num_abs (get m 1 col) in
  let v2 := num_abs (get m 2 col) in
  let absMax := Math_max_apply (v0, v1, v2) in
  let index := indexOf [v0; v1; v2] absMax in
  mkAbsMax (getZ m index (Z.of_nat col)) index.

(** [asOneAndZeros()]; [max.value > 0] is false for [undefined]. *)
Definition asOneAndZeros (m : Matrix33 A) : Matrix33 A :=
  matrix_of_list
    (flat_map (fun j =>
       let max := getRowAbsMax m j in
       let positive := match maxValue max with
                       | Some v => v >? num_zero
                       | None => false
                       end in
       let sign := if positive then num_one else num_zero - num_one in
       map (fun i : nat =>
              if (Z.of_nat i =? maxIndex max)%Z then num_one * sign
              else num_zero)
           [0; 1; 2]%nat)
     [0; 1; 2]%nat).

(** [getThirdColMajorDirection()] *)
Definition getThirdColMajorDirection (m : Matrix33 A) : Z :=
  maxIndex (getColAbsMax m 2).

(** [isIdentityMat33(mat33)] *)
Definition isIdentityMat33 (mat33 : Matrix33 A) : bool :=
  equals mat33 getIdentityMat33 None.

(** The names of [Orientation]. *)
Definition Orientation_Axial : string := "axial".
Definition Orientation_Coronal : string := "coronal".
Definition Orientation_Sagittal : string := "sagittal".

(** [getMatrixFromName(name)]; [None] is [undefined]. *)
Definition getMatrixFromName (name : string) : option (Matrix33 A) :=
  if String.eqb name Orientation_Axial then Some getIdentityMat33
  else if String.eqb name Orientation_Coronal then Some getCoronalMat33
  else if String.eqb name Orientation_Sagittal then Some getSagittalMat33
  else None.

End MatrixMethods.

Arguments AbsMax A : clear implicits.

(** A matrix with a NaN in the middle. *)
Definition matrix_with_NaN : Matrix33 float :=
  (mkMatrix33 1 0 0
              0 PrimFloat.nan 3
              0 0 1)%float.

(** ** Segments with colours *)

(** Two frames over one segment with the colour (255, 128, 0). *)
Definition scenario_colour : SegElements float :=
  seg_object seg_tags [mkSegment 1 None (Some (255, 128, 0)%Z)]
    (mkFunctionalGroup (Some [axial]) (Some [(1, 1, 2)%float]))
    [mkFrameInfo 1 (0, 0, 0)%float None None;
     mkFrameInfo 1 (0, 0, 4)%float None None].

(** Two frames over segment 1, which has a display value and no colour,
    while segment 2 has a colour. *)
Definition scenario_mixed_segments : SegElements float :=
  seg_object seg_tags
    [mkSegment 1 (Some 5%Z) None; mkSegment 2 None (Some (255, 0, 0)%Z)]
    (mkFunctionalGroup (Some [axial]) (Some [(1, 1, 2)%float]))
    [mkFrameInfo 1 (0, 0, 0)%float None None;
     mkFrameInfo 1 (0, 0, 4)%float None None].

(** One frame of 2 x 2 samples, none of them set. *)
Definition none_set : PixelBuffer := mkPixelBuffer Uint8 [0; 0; 0; 0]%Z.

(** The channel [c] (0, 1 or 2) of a colour. *)
Definition channel (rgb : Z * Z * Z) (c : Z) : Z :=
  if (c =? 0)%Z then rgb.1.1 else if (c =? 1)%Z then rgb.1.2 else rgb.2.

(** ** Limits of the checks *)

(** The object of the scenario with the value 'SEG' twice in its
    Modality element. *)
Definition scenario_modality_twice : SegElements float :=
  seg_object (<["00080060" := mkDataElement [JStr "SEG"; JStr "SEG"]]>
                seg_tags)
    [mkSegment 1 (Some 5%Z) None]
    (mkFunctionalGroup (Some [axial]) (Some [(1, 1, 2)%float]))
    [mkFrameInfo 1 (0, 0, 0)%float None None;
     mkFrameInfo 1 (0, 0, 4)%float None None].

(** Three frames, two of them at the same position, with their own
    spacings and orientations while nothing is shared. *)
Definition frames_own_values : list (FrameInfo float) :=
  [mkFrameInfo 1 (0, 0, 4)%float None (Some (1, 1, 2)%float);
   mkFrameInfo 1 (0, 0, 0)%float (Some axial) None;
   mkFrameInfo 2 (0, 0, 4)%float (Some axial) (Some (1, 1, 2)%float)].

(** The first value that the frames give for a property. *)
Definition first_given {T F : Type} (property : F -> option T)
    (frames : list F) : option T :=
  head (omap property frames).

(** The object of the scenario, without any spacing. *)
Definition parsed_no_spacing : Parsed float :=
  mkParsed (2, 2, 1)%nat 4 (mkDimension [JStr "1.2.826.0.2"] [])
           [mkSegment 1 (Some 5%Z) None] false
           None (Some axial)
           [mkFrameInfo 1 (0, 0, 0)%float None None;
            mkFrameInfo 1 (0, 0, 4)%float None None].

(** ** Positions that print alike *)

(** What [JSON.stringify] shows of a binary64 number: nothing of NaN and
    the infinities ([null]), no sign of a zero, and the number itself
    otherwise. *)
Definition json_shown (x : float) : option (option (bool * positive * Z)) :=
  match Prim2SF x with
  | S754_nan | S754_infinity _ => None
  | S754_zero _ => Some None
  | S754_finite s m e => Some (Some (s, m, e))
  end.

(** ** [tests/bench/listen.js]: the listener handler *)

Module ListenerHandler.

(** A callback is a function object: [===] compares its identity, which
    is a number here.  The private object [listeners] holds an array of
    callbacks per event type. *)

(** [add(type, callback)] *)
Definition add (type : string) (callback : nat)
    (listeners : gmap string (list nat)) : gmap string (list nat) :=
  let listeners :=
    match listeners !! type with
    | None => <[type := []]> listeners     (* create array if not present *)
    | Some _ => listeners
    end in
  alter (fun array => array ++ [callback]) type listeners.




End ListenerHandler.




(** * Properties *)

(** ** The tag validator *)

Lemma RequiredDicomSegTags_length : length RequiredDicomSegTags = 13%nat.
Proof. reflexivity. Qed.

(** No definition of the table has a type that [checkTag] takes for
    mandatory: the types are the strings '1' and '3', and [checkTag]
    compares them with the numbers 1 and 2. *)
Lemma RequiredDicomSegTags_never_mandatory :
  Forall (fun d => strict_eq (type d) (JNum 1) || strict_eq (type d) (JNum 2)
                   = false) RequiredDicomSegTags.
Proof. repeat (constructor; [reflexivity|]). constructor. Qed.

Lemma checkTag_absent_not_mandatory dataElements d :
  strict_eq (type d) (JNum 1) || strict_eq (type d) (JNum 2) = false ->
  dataElements !! tag d = None ->
  checkTag dataElements d = Ok tt.
Proof.
  intros Htype Habs. unfold checkTag. rewrite Htype, Habs. reflexivity.
Qed.

(** C9: the table of required tags holds 12 tags (12 distinct tag keys,
    and 12 definitions of requirement level "required"), and
    [getDefaultDicomSegJson] maps the name of every definition of the
    table to the first of its accepted values. *)
Theorem C9_required_tags_and_defaults :
  length (remove_dups (tag <$> RequiredDicomSegTags)) = 12%nat
  /\ length (filter (fun d => is_required d = true) RequiredDicomSegTags)
     = 12%nat
  /\ Forall (fun d => getDefaultDicomSegJson !! name d = head (enum d))
            RequiredDicomSegTags.
Proof.
  split; [vm_compute; reflexivity|].
  split; [vm_compute; reflexivity|].
  repeat (constructor; [vm_compute; reflexivity|]). constructor.
Qed.

(** A completion with a volume is a normal completion. *)
Lemma volume_of_Ok {A : Type} (c : Completion (Image A)) v :
  volume_of c = Ok v ->
  exists image,
    c = Ok image
    /\ v = (geometry image, buffer image, numberOfFiles (meta image)).
Proof.
  destruct c as [image| |]; try discriminate.
  intros [= <-]. exists image. auto.
Qed.

Lemma create_scenario_no_modality fuel :
  volume_of (create fuel scenario_no_modality all_set)
  = Ok (geometry_two_frames, replicate 8 5%Z, 2%nat).
Proof. destruct fuel; vm_compute; reflexivity. Qed.

(** C1 (the code does not do this): [checkTag] returns normally on the
    Modality definition, required by the table, for a store without the
    Modality tag, and [create] decodes the object to a volume. *)
Theorem C1_missing_required_tag_is_accepted :
  rootElements scenario_no_modality !! tag Modality_definition = None
  /\ Modality_definition ∈ RequiredDicomSegTags
  /\ is_required Modality_definition = true
  /\ checkTag (rootElements scenario_no_modality) Modality_definition = Ok tt
  /\ forall fuel, exists image,
       create fuel scenario_no_modality all_set = Ok image.
Proof.
  split; [vm_compute; reflexivity|].
  split; [unfold Modality_definition, RequiredDicomSegTags;
          do 3 apply list_elem_of_further; apply list_elem_of_here|].
  split; [reflexivity|].
  split; [vm_compute; reflexivity|].
  intros fuel.
  destruct (volume_of_Ok _ _ (create_scenario_no_modality fuel))
    as (image & Hrun & _).
  exists image. exact Hrun.
Qed.

(** ** The scenario of two frames *)

Lemma create_scenario_two_frames fuel :
  volume_of (create fuel scenario_two_frames all_set)
  = Ok (geometry_two_frames, replicate 8 5%Z, 2%nat).
Proof. destruct fuel; vm_compute; reflexivity. Qed.

(** C2 (amended): on the two frames at (0,0,0) and (0,0,4) with declared
    spacing (1,1,2), the slice spacing inferred from the positions, 4,
    replaces the declared 2; no intermediate position is synthesized and
    the volume has the 2 slices of the frames, every voxel holding 5. *)
Theorem C2_scenario_two_slices : forall fuel, exists image,
  create fuel scenario_two_frames all_set = Ok image
  /\ geometrySpacing (geometry image) = (1, 1, 4)%float
  /\ origins (geometry image) = [(0, 0, 0); (0, 0, 4)]%float
  /\ numberOfFiles (meta image) = 2%nat
  /\ buffer image = replicate 8 5%Z.
Proof.
  intros fuel.
  destruct (volume_of_Ok _ _ (create_scenario_two_frames fuel))
    as (image & Hrun & [= Hg Hb Hn]).
  exists image. rewrite <- Hg, <- Hb, <- Hn. repeat split; auto.
Qed.

(** C2 (as stated, refuted): no run of the scenario yields 3 slices. *)
Lemma C2_scenario_not_three_slices :
  ~ exists fuel image,
      create fuel scenario_two_frames all_set = Ok image
      /\ length (origins (geometry image)) = 3%nat.
Proof.
  intros (fuel & image & Hrun & Hlen).
  pose proof (create_scenario_two_frames fuel) as Hvolume.
  rewrite Hrun in Hvolume. unfold volume_of in Hvolume.
  cbn [mbind Completion_bind] in Hvolume. injection Hvolume as Hg _ _.
  rewrite Hg in Hlen. discriminate Hlen.
Qed.

(** ** The inverse of a matrix, in binary64 *)

(** C6 (as stated, refuted): the matrix [[2,1,0],[1,3,0],[0,0,1]] has
    determinant 5, and its product with its inverse has 1 + 2^-52 on the
    diagonal: it is not the identity within [Number.EPSILON]. *)
Lemma C6_inverse_product_not_identity :
  (determinant matrix_2130 =? 5%float)%num = true
  /\ exists inverse,
       getInverse matrix_2130 = Some inverse
       /\ m00 (multiply matrix_2130 inverse) = 0x1.0000000000001p+0%float
       /\ equals (multiply matrix_2130 inverse) getIdentityMat33 None
          = false.
Proof.
  split; [vm_compute; reflexivity|].
  eexists. split; [vm_compute; reflexivity|].
  split; vm_compute; reflexivity.
Qed.

(** ** The orientation code *)

Lemma string_append_assoc (a b c : string) :
  (a +:+ b) +:+ c = a +:+ (b +:+ c).
Proof.
  induction a as [|ch a IH]; [reflexivity|].
  change (String ch ((a +:+ b) +:+ c) = String ch (a +:+ (b +:+ c))).
  now rewrite IH.
Qed.

Lemma string_append_length (a b : string) :
  String.length (a +:+ b) = (String.length a + String.length b)%nat.
Proof.
  induction a as [|ch a IH]; [reflexivity|].
  change (S (String.length (a +:+ b))
          = S (String.length a + String.length b)).
  now rewrite IH.
Qed.

Lemma string_append_empty_r (a : string) : a +:+ "" = a.
Proof.
  induction a as [|ch a IH]; [reflexivity|].
  change (String ch (a +:+ "") = String ch a). now rewrite IH.
Qed.

Section OrientationCodeFacts.
Context {A : Type} {NA : Number A}.
Local Open Scope num_scope.

(** One iteration of the loop of [getVectorStringLPS]. *)
Lemma lps_loop_S n oX oY oZ (ax ay az : A) acc :
  lps_loop (S n) oX oY oZ (ax, ay, az) acc =
  if dominates ax ay az then
    lps_loop n oX oY oZ (num_zero, ay, az) (acc +:+ oX)
  else if dominates ay ax az then
    lps_loop n oX oY oZ (ax, num_zero, az) (acc +:+ oY)
  else if dominates az ax ay then
    lps_loop n oX oY oZ (ax, ay, num_zero) (acc +:+ oZ)
  else acc.
Proof. reflexivity. Qed.

(** The loop only appends, one letter per iteration at most. *)
Lemma lps_loop_appends n oX oY oZ (abs : A * A * A) acc :
  String.length oX = 1%nat -> String.length oY = 1%nat ->
  String.length oZ = 1%nat ->
  exists rest,
    lps_loop n oX oY oZ abs acc = acc +:+ rest
    /\ (String.length rest <= n)%nat.
Proof.
  intros HX HY HZ. revert abs acc.
  induction n as [|n IH]; intros [[ax ay] az] acc.
  - exists "". split; [now rewrite string_append_empty_r | simpl; lia].
  - rewrite lps_loop_S.
    destruct (dominates ax ay az);
      [|destruct (dominates ay ax az);
        [|destruct (dominates az ax ay)]].
    + destruct (IH (num_zero, ay, az) (acc +:+ oX)) as (rest & -> & Hlen).
      exists (oX +:+ rest). rewrite string_append_assoc.
      split; [reflexivity|]. rewrite string_append_length. lia.
    + destruct (IH (ax, num_zero, az) (acc +:+ oY)) as (rest & -> & Hlen).
      exists (oY +:+ rest). rewrite string_append_assoc.
      split; [reflexivity|]. rewrite string_append_length. lia.
    + destruct (IH (ax, ay, num_zero) (acc +:+ oZ)) as (rest & -> & Hlen).
      exists (oZ +:+ rest). rewrite string_append_assoc.
      split; [reflexivity|]. rewrite string_append_length. lia.
    + exists "". split; [now rewrite string_append_empty_r | simpl; lia].
Qed.

(** The code of a vector starts with the letter of its first dominating
    axis and has at most two more letters; it is empty when no magnitude
    dominates. *)
Lemma getVectorStringLPS_first_letter (v : A * A * A) :
  match firstLetterLPS v with
  | Some c => exists rest,
      getVectorStringLPS v = c +:+ rest /\ (String.length rest <= 2)%nat
  | None => getVectorStringLPS v = ""
  end.
Proof.
  destruct v as [[x y] z]. unfold firstLetterLPS, getVectorStringLPS.
  rewrite lps_loop_S.
  assert (HX : String.length (if x <? num_zero then "R" else "L") = 1%nat)
    by (destruct (x <? num_zero); reflexivity).
  assert (HY : String.length (if y <? num_zero then "A" else "P") = 1%nat)
    by (destruct (y <? num_zero); reflexivity).
  assert (HZ : String.length (if z <? num_zero then "I" else "S") = 1%nat)
    by (destruct (z <? num_zero); reflexivity).
  destruct (dominates (num_abs x) (num_abs y) (num_abs z));
    [|destruct (dominates (num_abs y) (num_abs x) (num_abs z));
      [|destruct (dominates (num_abs z) (num_abs x) (num_abs y))]];
    try reflexivity.
  all: match goal with
       | |- context [lps_loop 2 ?oX ?oY ?oZ ?abs ?acc] =>
         destruct (lps_loop_appends 2 oX oY oZ abs acc HX HY HZ)
           as (rest & -> & Hlen)
       end; exists rest; split; [reflexivity | exact Hlen].
Qed.

End OrientationCodeFacts.

Section OrientationLettersFacts.
Context {A : Type} {NA : Number A}.
Local Open Scope num_scope.

(** The loop of [getVectorStringLPS] appends the letters of
    [lettersLPS]. *)
Lemma lps_loop_letters n (v abs : A * A * A) acc :
  lps_loop n (letterLPS v AxisX) (letterLPS v AxisY) (letterLPS v AxisZ)
           abs acc
  = acc +:+ lettersLPS n v abs.
Proof.
  revert abs acc. induction n as [|n IH]; intros [[ax ay] az] acc.
  - cbn [lps_loop lettersLPS]. now rewrite string_append_empty_r.
  - rewrite lps_loop_S. cbn [lettersLPS]. unfold dominantAxis.
    destruct (dominates ax ay az);
      [|destruct (dominates ay ax az);
        [|destruct (dominates az ax ay)]];
      cbn [withoutAxis]; rewrite ?IH, ?string_append_assoc,
        ?string_append_empty_r; reflexivity.
Qed.

Lemma getVectorStringLPS_columnCode (v : A * A * A) :
  getVectorStringLPS v = columnCode v.
Proof.
  destruct v as [[x y] z]. unfold getVectorStringLPS, columnCode.
  exact (lps_loop_letters 3 (x, y, z) (num_abs x, num_abs y, num_abs z) "").
Qed.

(** The first letter of [lettersLPS] is the one of [firstLetterLPS]. *)
Lemma firstLetterLPS_dominantAxis (v : A * A * A) :
  firstLetterLPS v
  = letterLPS v <$> dominantAxis (num_abs v.1.1, num_abs v.1.2, num_abs v.2).
Proof.
  destruct v as [[x y] z]. unfold firstLetterLPS, dominantAxis.
  cbn [fst snd].
  destruct (dominates (num_abs x) (num_abs y) (num_abs z));
    [|destruct (dominates (num_abs y) (num_abs x) (num_abs z));
      [|destruct (dominates (num_abs z) (num_abs x) (num_abs y))]];
    reflexivity.
Qed.

End OrientationLettersFacts.

Lemma threshold_above_zero :
  (num_zero >? LPS_threshold (A:=float))%num = false.
Proof. reflexivity. Qed.

(** A vector along one axis has a code of exactly one letter. *)
Lemma getVectorStringLPS_single_axis (v : float * float * float) :
  single_axis v = true ->
  exists c, firstLetterLPS v = Some c /\ getVectorStringLPS v = c
            /\ String.length c = 1%nat.
Proof.
  destruct v as [[x y] z]. unfold single_axis, firstLetterLPS.
  unfold getVectorStringLPS.
  set (ax := num_abs x). set (ay := num_abs y). set (az := num_abs z).
  set (oX := if (x <? num_zero)%num then "R" else "L").
  set (oY := if (y <? num_zero)%num then "A" else "P").
  set (oZ := if (z <? num_zero)%num then "I" else "S").
  assert (HX : String.length oX = 1%nat)
    by (subst oX; destruct (x <? num_zero)%num; reflexivity).
  assert (HY : String.length oY = 1%nat)
    by (subst oY; destruct (y <? num_zero)%num; reflexivity).
  assert (HZ : String.length oZ = 1%nat)
    by (subst oZ; destruct (z <? num_zero)%num; reflexivity).
  intros Hs. rewrite !lps_loop_S.
  unfold dominates in *. rewrite !threshold_above_zero.
  destruct (ax >? LPS_threshold)%num, (ay >? LPS_threshold)%num,
           (az >? LPS_threshold)%num;
    cbn [andb orb negb] in Hs |- *;
    rewrite ?andb_false_r, ?andb_true_r in Hs; cbn [andb orb negb] in Hs;
    try discriminate Hs.
  - destruct (ax >? ay)%num, (ax >? az)%num; try discriminate Hs.
    cbn [andb]. exists oX. repeat split; auto.
  - destruct (ay >? ax)%num, (ay >? az)%num; try discriminate Hs.
    cbn [andb]. exists oY. repeat split; auto.
  - destruct (az >? ax)%num, (az >? ay)%num; try discriminate Hs.
    cbn [andb]. exists oZ. repeat split; auto.
Qed.

(** C8 (amended): the code of a matrix is the concatenation, in column
    order, of the codes of its three columns.  The code of a column is
    [columnCode]: the letter of the first axis, in the order x, y, z,
    whose magnitude is above 1e-4 and strictly above the two others (R or
    L, A or P, I or S by the sign), followed by at most two more letters,
    found the same way after the chosen magnitude is set to zero; it is
    empty when no magnitude is strictly the largest.  When every column
    lies along one axis (its two other magnitudes are not above the
    threshold) every column gives one letter and the code has 3
    letters. *)
Theorem C8_orientation_code (m : Matrix33 float) :
  getOrientationStringLPS m
  = getVectorStringLPS (column m 0) +:+ getVectorStringLPS (column m 1)
    +:+ getVectorStringLPS (column m 2)
  /\ (forall j, getVectorStringLPS (column m j) = columnCode (column m j))
  /\ (forall j,
        match firstLetterLPS (column m j) with
        | Some c => exists rest,
            getVectorStringLPS (column m j) = c +:+ rest
            /\ (String.length rest <= 2)%nat
        | None => getVectorStringLPS (column m j) = ""
        end)
  /\ (single_axis (column m 0) && single_axis (column m 1)
      && single_axis (column m 2) = true ->
      (forall j, (j < 3)%nat ->
         firstLetterLPS (column m j) = Some (getVectorStringLPS (column m j)))
      /\ String.length (getOrientationStringLPS m) = 3%nat).
Proof.
  split; [reflexivity|].
  split; [intros j; apply getVectorStringLPS_columnCode|].
  split; [intros j; apply getVectorStringLPS_first_letter|].
  intros Hs. apply andb_true_iff in Hs as [Hs H2].
  apply andb_true_iff in Hs as [H0 H1].
  destruct (getVectorStringLPS_single_axis _ H0) as (c0 & F0 & E0 & L0).
  destruct (getVectorStringLPS_single_axis _ H1) as (c1 & F1 & E1 & L1).
  destruct (getVectorStringLPS_single_axis _ H2) as (c2 & F2 & E2 & L2).
  split.
  - intros j Hj.
    destruct j as [|[|[|j]]]; [| | |lia]; congruence.
  - change (getOrientationStringLPS m)
      with (getVectorStringLPS (column m 0)
            +:+ getVectorStringLPS (column m 1)
            +:+ getVectorStringLPS (column m 2)).
    rewrite E0, E1, E2, !string_append_length. lia.
Qed.

(** The identity matrix has the code "LPS". *)
Lemma C8_identity_code :
  single_axis (column (A:=float) getIdentityMat33 0)
  && single_axis (column (A:=float) getIdentityMat33 1)
  && single_axis (column (A:=float) getIdentityMat33 2) = true
  /\ String.length (getOrientationStringLPS (A:=float) getIdentityMat33)
     = 3%nat.
Proof.
  split; [reflexivity|].
  apply (C8_orientation_code getIdentityMat33). reflexivity.
Defined.

(** C8 (as stated, refuted): every column of [matrix_oblique] has a
    dominant axis above the threshold, and its code has 5 letters, 3 of
    them for the first column; the first column of [matrix_tie] has two
    equal largest magnitudes and gives no letter. *)
Lemma C8_oblique_column_gives_three_letters :
  firstLetterLPS (column matrix_oblique 0) = Some "L"
  /\ firstLetterLPS (column matrix_oblique 1) = Some "P"
  /\ firstLetterLPS (column matrix_oblique 2) = Some "S"
  /\ getVectorStringLPS (column matrix_oblique 0) = "LPS"
  /\ getOrientationStringLPS matrix_oblique = "LPSPS"
  /\ getVectorStringLPS (column matrix_tie 0) = "".
Proof. repeat split; vm_compute; reflexivity. Qed.

(** ** Merging the frames *)

Lemma typed_set_length k (buffer : list Z) offset v :
  length (typed_set k buffer offset v) = length buffer.
Proof.
  unfold typed_set. destruct (offset <? 0)%Z; [reflexivity|].
  apply length_insert.
Qed.

Lemma typed_set_lookup_ne k (buffer : list Z) offset v (i : nat) :
  Z.of_nat i <> offset ->
  typed_set k buffer offset v !! i = buffer !! i.
Proof.
  intros Hne. unfold typed_set.
  destruct (offset <? 0)%Z eqn:Hneg; [reflexivity|].
  apply list_lookup_insert_ne. apply Z.ltb_ge in Hneg. lia.
Qed.

(** A non-zero sample writes the channels of its voxel only. *)
Lemma writeSample_lookup k rgb frameSegment offset (buffer buffer' : list Z)
    (i : nat) :
  writeSample k rgb frameSegment offset buffer = Ok buffer' ->
  length buffer' = length buffer
  /\ (buffer' !! i = buffer !! i
      \/ exists c, (0 <= c < (if rgb then 3 else 1))%Z
                   /\ Z.of_nat i = (offset + c)%Z).
Proof.
  unfold writeSample. destruct frameSegment as [seg|]; [|discriminate].
  destruct rgb.
  - destruct (displayRGBValue seg) as [[[r g] b]|]; [|discriminate].
    intros [= <-]. split; [now rewrite !typed_set_length|].
    destruct (decide (Z.of_nat i = offset)) as [E0|N0];
      [right; exists 0%Z; lia|].
    destruct (decide (Z.of_nat i = (offset + 1)%Z)) as [E1|N1];
      [right; exists 1%Z; lia|].
    destruct (decide (Z.of_nat i = (offset + 2)%Z)) as [E2|N2];
      [right; exists 2%Z; lia|].
    left. now rewrite !typed_set_lookup_ne.
  - intros [= <-]. split; [now rewrite typed_set_length|].
    destruct (decide (Z.of_nat i = offset)) as [E0|N0];
      [right; exists 0%Z; lia|].
    left. now rewrite typed_set_lookup_ne.
Qed.

(** The loop over the samples of a frame changes, at most, the channels
    of the voxels of its non-zero samples. *)
Lemma mergeSamples_lookup ls pixelBuffer rgb frameSegment frameOffset
    sliceOffset (buffer buffer' : list Z) (i : nat) :
  mergeSamples ls pixelBuffer rgb frameSegment frameOffset sliceOffset buffer
  = Ok buffer' ->
  length buffer' = length buffer
  /\ (buffer' !! i = buffer !! i
      \/ exists l c,
           l ∈ ls
           /\ sample_not_zero pixelBuffer (frameOffset + l) = true
           /\ (0 <= c < (if rgb then 3 else 1))%Z
           /\ Z.of_nat i
              = ((if rgb then 3 else 1) * (sliceOffset + Z.of_nat l) + c)%Z).
Proof.
  revert buffer. induction ls as [|l ls IH]; intros buffer; simpl.
  - intros [= <-]. auto.
  - destruct (sample_not_zero pixelBuffer (frameOffset + l)) eqn:Hnz.
    + destruct (writeSample (kind pixelBuffer) rgb frameSegment _ buffer)
        as [buffer1| |] eqn:Hw; simpl; try discriminate.
      intros Hrest. destruct (IH _ Hrest) as [Hlen Hi].
      destruct (writeSample_lookup _ _ _ _ _ _ i Hw) as [Hlen1 Hi1].
      split; [congruence|].
      destruct Hi as [Hi|(l' & c & Hin & Hl' & Hc & Hoff)].
      * destruct Hi1 as [Hi1|(c & Hc & Hoff)].
        -- left. congruence.
        -- right. exists l, c. repeat split; try tauto; try lia.
           apply list_elem_of_here.
      * right. exists l', c. repeat split; try tauto; try lia.
        now apply list_elem_of_further.
    + intros Hrest. destruct (IH _ Hrest) as [Hlen Hi].
      split; [exact Hlen|].
      destruct Hi as [Hi|(l' & c & Hin & Hl' & Hc & Hoff)]; [now left|].
      right. exists l', c. repeat split; try tauto; try lia.
      now apply list_elem_of_further.
Qed.

(** C10: merging a frame changes, at most, the channels of the voxels of
    its non-zero samples; the voxel of a sample that is zero in the frame
    keeps, in all its channels, the value that it had, whatever an
    earlier frame wrote there. *)
Theorem C10_zero_samples_keep_voxels {A : Type} {NA : Number A}
    (parsed : Parsed A) (posPats : list (Pos A)) (pixelBuffer : PixelBuffer)
    (f : nat) (frameInfo : FrameInfo A) (buffer buffer' : list Z) :
  mergeFrame parsed posPats pixelBuffer f frameInfo buffer = Ok buffer' ->
  let mul := (if storeAsRGB parsed then 3 else 1)%Z in
  let sliceOffset :=
    (Z.of_nat (sliceSize parsed)
     * findIndexPosPat posPats (imagePosPat frameInfo))%Z in
  length buffer' = length buffer
  /\ (forall i : nat,
        buffer' !! i <> buffer !! i ->
        exists (l : nat) (c : Z),
          (l < sliceSize parsed)%nat
          /\ sample_not_zero pixelBuffer (sliceSize parsed * f + l) = true
          /\ (0 <= c < mul)%Z
          /\ Z.of_nat i = (mul * (sliceOffset + Z.of_nat l) + c)%Z)
  /\ (forall (l : nat) (c : Z) (i : nat),
        (l < sliceSize parsed)%nat ->
        sample_not_zero pixelBuffer (sliceSize parsed * f + l) = false ->
        (0 <= c < mul)%Z ->
        Z.of_nat i = (mul * (sliceOffset + Z.of_nat l) + c)%Z ->
        buffer' !! i = buffer !! i).
Proof.
  intros Hm mul sliceOffset. unfold mergeFrame in Hm.
  fold sliceOffset in Hm.
  assert (Hall : forall i : nat,
    buffer' !! i = buffer !! i
    \/ exists (l : nat) (c : Z),
         (l < sliceSize parsed)%nat
         /\ sample_not_zero pixelBuffer (sliceSize parsed * f + l) = true
         /\ (0 <= c < mul)%Z
         /\ Z.of_nat i = (mul * (sliceOffset + Z.of_nat l) + c)%Z).
  { intros i.
    destruct (mergeSamples_lookup _ _ _ _ _ _ _ _ i Hm)
      as [_ [Hi|(l & c & Hin & Hnz & Hc & Hoff)]]; [now left|].
    right. exists l, c. apply elem_of_seq in Hin. repeat split; tauto || lia. }
  split; [eapply mergeSamples_lookup with (i := 0%nat); exact Hm|].
  split.
  - intros i Hne. destruct (Hall i) as [Heq|Hex]; [contradiction|exact Hex].
  - intros l c i Hl Hz Hc Hoff.
    destruct (Hall i) as [Heq|(l' & c' & Hl' & Hnz & Hc' & Hoff')];
      [exact Heq|].
    assert (l' = l); [|subst l'; congruence].
    subst mul. destruct (storeAsRGB parsed); nia.
Qed.

(** A frame with the samples (1, 0, 1, 0) merged over a slice that holds
    7 everywhere: the voxels of the zero samples keep their 7. *)
Lemma C10_zero_samples_keep_voxels_witness :
  mergeFrame parsed_one_frame [(0, 0, 0)%float] half_set 0
             (mkFrameInfo 1 (0, 0, 0)%float None None) [7; 7; 7; 7]%Z
  = Ok [5; 7; 5; 7]%Z
  /\ ([5; 7; 5; 7]%Z : list Z) !! 1%nat = ([7; 7; 7; 7]%Z : list Z) !! 1%nat.
Proof.
  assert (H : mergeFrame parsed_one_frame [(0, 0, 0)%float] half_set 0
                (mkFrameInfo 1 (0, 0, 0)%float None None) [7; 7; 7; 7]%Z
              = Ok [5; 7; 5; 7]%Z) by (vm_compute; reflexivity).
  split; [exact H|].
  apply (C10_zero_samples_keep_voxels _ _ _ _ _ _ _ H)
    with (l := 1%nat) (c := 0%Z);
    [vm_compute; lia | reflexivity | simpl; lia | vm_compute; reflexivity].
Defined.

(** ** The checks on the frames *)

Section FrameChecks.
Context {A : Type} {NA : Number A}.

Lemma checkFrameInfos_app (pre rest : list (FrameInfo A)) framePosPats
    orientationPatient pixelSpacing :
  checkFrameInfos (pre ++ rest) framePosPats orientationPatient pixelSpacing
  = '(framePosPats', orientationPatient', pixelSpacing') ←
      checkFrameInfos pre framePosPats orientationPatient pixelSpacing;
    checkFrameInfos rest framePosPats' orientationPatient' pixelSpacing'.
Proof.
  revert framePosPats orientationPatient pixelSpacing.
  induction pre as [|frameInfo pre IH]; intros ps o s; [reflexivity|].
  cbn [app checkFrameInfos].
  destruct (imageOrientationPatient frameInfo) as [fo|], o as [ro|];
    cbn [mbind Completion_bind];
    try destruct (negb (arraySortEquals num_eq _ _)); try reflexivity;
    destruct (spacing frameInfo) as [fs|], s as [rs|];
    cbn [mbind Completion_bind];
    try destruct (negb (spacing_equals _ _)); try reflexivity;
    apply IH.
Qed.

Lemma mergeFrames_app (parsed : Parsed A) posPats pixelBuffer f
    (pre rest : list (FrameInfo A)) buffer :
  mergeFrames parsed posPats pixelBuffer f (pre ++ rest) buffer
  = buffer' ← mergeFrames parsed posPats pixelBuffer f pre buffer;
    mergeFrames parsed posPats pixelBuffer (f + length pre) rest buffer'.
Proof.
  revert f buffer. induction pre as [|frameInfo pre IH]; intros f buffer.
  - cbn. now rewrite Nat.add_0_r.
  - cbn [app mergeFrames length].
    destruct (mergeFrame parsed posPats pixelBuffer f frameInfo buffer);
      cbn [mbind Completion_bind]; [|reflexivity..].
    rewrite IH. now replace (S f + length pre)%nat
                       with (f + S (length pre))%nat by lia.
Qed.

(** Without a segment, the first non-zero sample of the frame throws. *)
Lemma mergeSamples_unknown_segment ls pixelBuffer rgb frameOffset
    sliceOffset buffer (l : nat) :
  l ∈ ls ->
  sample_not_zero pixelBuffer (frameOffset + l) = true ->
  mergeSamples ls pixelBuffer rgb None frameOffset sliceOffset buffer
  = Throw UnknownSegmentReference.
Proof.
  induction ls as [|l' ls IH]; intros Hin Hnz.
  - inversion Hin.
  - cbn [mergeSamples].
    destruct (sample_not_zero pixelBuffer (frameOffset + l')) eqn:Hnz';
      [reflexivity|].
    apply IH; [|exact Hnz].
    apply elem_of_cons in Hin as [->|Hin]; [congruence|exact Hin].
Qed.

End FrameChecks.

(** What the check of the orientations rejects: when the decode reaches
    the checks on the frames and the frames before [frameInfo] pass
    them, leaving the reference orientation [reference], a frame whose
    six orientation values are not those of the reference up to their
    order makes [create] fail with MultiOrientationUnsupported. *)
Lemma orientation_check_rejects {A : Type} {NA : Number A}
    (fuel : nat) (dataElements : SegElements A) (pixelBuffer : PixelBuffer)
    (parsed : Parsed A) (pre post : list (FrameInfo A))
    (frameInfo : FrameInfo A) (framePosPats : list (Pos A))
    (reference o : ImageOrientation A) (pixelSpacing : option (Spacing A)) :
  readElements dataElements pixelBuffer = Ok parsed ->
  frameInfos parsed = pre ++ frameInfo :: post ->
  checkFrameInfos pre [] (sharedOrientation parsed) (sharedSpacing parsed)
  = Ok (framePosPats, Some reference, pixelSpacing) ->
  imageOrientationPatient frameInfo = Some o ->
  arraySortEquals num_eq (orientation_values reference) (orientation_values o)
  = false ->
  create fuel dataElements pixelBuffer = Throw MultiOrientationUnsupported.
Proof.
  intros Hread Hframes Hpre Ho Hdiff.
  unfold create. rewrite Hread. cbn [mbind Completion_bind].
  unfold reconcile. rewrite Hframes, checkFrameInfos_app, Hpre.
  cbn [mbind Completion_bind checkFrameInfos].
  rewrite Ho, Hdiff. reflexivity.
Qed.

(** A second frame in the coronal orientation, after an axial one. *)
Lemma orientation_check_rejects_coronal :
  create 8 (two_frames_oriented axial coronal) all_set
  = Throw MultiOrientationUnsupported.
Proof.
  eapply (orientation_check_rejects 8 _ _ _
            [mkFrameInfo 1 (0, 0, 0)%float (Some axial) None] []).
  - vm_compute. reflexivity.
  - reflexivity.
  - vm_compute. reflexivity.
  - reflexivity.
  - vm_compute. reflexivity.
Defined.

Lemma create_permuted_orientation fuel :
  volume_of (create fuel (two_frames_oriented axial rows_x_columns_z) all_set)
  = Ok (geometry_two_frames, replicate 8 5%Z, 2%nat).
Proof. destruct fuel; vm_compute; reflexivity. Qed.

(** C4 (the code does not do this): the second frame carries the
    orientation (1,0,0,0,0,1), which differs from the reference
    (1,0,0,0,1,0) of the first frame in its fifth and sixth values; its
    slice normal is (0,-1,0), that of the reference (0,0,1).  The check
    compares the six values of the two orientations whatever their
    order, finds the same values, and the object is decoded to a volume
    of 2 slices in the orientation of the first frame. *)
Theorem C4_permuted_orientation_accepted :
  (colY axial =? colY rows_x_columns_z)%num = false
  /\ (colZ axial =? colZ rows_x_columns_z)%num = false
  /\ normalOf axial = (0, 0, 1)%float
  /\ normalOf rows_x_columns_z = (0, -1, 0)%float
  /\ forall fuel, exists image,
       create fuel (two_frames_oriented axial rows_x_columns_z) all_set
       = Ok image
       /\ geometry image = geometry_two_frames
       /\ numberOfFiles (meta image) = 2%nat.
Proof.
  split; [reflexivity|]. split; [reflexivity|].
  split; [vm_compute; reflexivity|]. split; [vm_compute; reflexivity|].
  intros fuel.
  destruct (volume_of_Ok _ _ (create_permuted_orientation fuel))
    as (image & Hrun & [= Hg Hb Hn]).
  exists image. auto.
Qed.

(** C5 (amended): when the decode reaches the merge of the frames and
    the frames before [frameInfo] are merged, a frame whose segment
    number is not in the segment sequence and whose mask has a non-zero
    sample makes [create] fail with UnknownSegmentReference (the read of
    the display value of the missing segment); no volume is returned. *)
Theorem C5_unknown_segment_rejected {A : Type} {NA : Number A}
    (fuel : nat) (dataElements : SegElements A) (pixelBuffer : PixelBuffer)
    (parsed : Parsed A) (posPats : list (Pos A)) (geometry : Geometry A)
    (uids : list string) (pre post : list (FrameInfo A))
    (frameInfo : FrameInfo A) (buffer : list Z) (l : nat) :
  readElements dataElements pixelBuffer = Ok parsed ->
  reconcile fuel parsed = Ok (posPats, geometry, uids) ->
  frameInfos parsed = pre ++ frameInfo :: post ->
  mergeFrames parsed posPats pixelBuffer 0 pre
    (replicate ((if storeAsRGB parsed then 3 else 1)
                * sliceSize parsed * length posPats) 0%Z)
  = Ok buffer ->
  List.find (fun item => (number item =? refSegmentNumber frameInfo)%Z)
            (segments parsed) = None ->
  (l < sliceSize parsed)%nat ->
  sample_not_zero pixelBuffer (sliceSize parsed * length pre + l) = true ->
  create fuel dataElements pixelBuffer = Throw UnknownSegmentReference.
Proof.
  intros Hread Hrec Hframes Hpre Hfind Hl Hnz.
  unfold create. rewrite Hread. cbn [mbind Completion_bind].
  rewrite Hrec. cbn [mbind Completion_bind].
  unfold mergeFrameBuffers. rewrite Hframes, mergeFrames_app, Hpre.
  cbn [mbind Completion_bind mergeFrames]. unfold mergeFrame.
  rewrite Hfind, Nat.add_0_l.
  rewrite (mergeSamples_unknown_segment _ _ _ _ _ _ l);
    [reflexivity| |exact Hnz].
  apply elem_of_seq. lia.
Qed.

(** The second frame refers to the absent segment 2 and all its samples
    are set. *)
Lemma C5_unknown_segment_rejected_witness :
  create 8 scenario_unknown_segment all_set = Throw UnknownSegmentReference.
Proof.
  eapply (C5_unknown_segment_rejected 8 _ _ _ _ _ _
            [mkFrameInfo 1 (0, 0, 0)%float None None] [] _ _ 0%nat).
  - vm_compute. reflexivity.
  - vm_compute. reflexivity.
  - reflexivity.
  - vm_compute. reflexivity.
  - reflexivity.
  - vm_compute. lia.
  - reflexivity.
Defined.

Lemma create_unknown_segment_empty_mask fuel :
  volume_of (create fuel scenario_unknown_segment first_frame_set)
  = Ok (geometry_two_frames, [5; 5; 5; 5; 0; 0; 0; 0]%Z, 2%nat).
Proof. destruct fuel; vm_compute; reflexivity. Qed.

(** C5 (as stated, refuted): the second frame refers to segment 2, which
    the segment sequence does not hold, all its samples are zero, and
    the object is decoded to a volume. *)
Lemma C5_unknown_segment_with_empty_mask_accepted :
  List.find (fun item => (number item =? 2)%Z) [mkSegment 1 (Some 5%Z) None]
  = None
  /\ forall fuel, exists image,
       create fuel scenario_unknown_segment first_frame_set = Ok image
       /\ buffer image = [5; 5; 5; 5; 0; 0; 0; 0]%Z.
Proof.
  split; [reflexivity|].
  intros fuel.
  destruct (volume_of_Ok _ _ (create_unknown_segment_empty_mask fuel))
    as (image & Hrun & [= Hg Hb Hn]).
  exists image. rewrite <- Hb. auto.
Qed.

(** ** Exact arithmetic *)

Lemma Rltb_true (a b : R) : (a < b)%R -> Rltb a b = true.
Proof. intros H. unfold Rltb. destruct (Rlt_dec a b); [reflexivity|tauto]. Qed.

Lemma Rltb_false (a b : R) : (b <= a)%R -> Rltb a b = false.
Proof. intros H. unfold Rltb. destruct (Rlt_dec a b); [lra|reflexivity]. Qed.

Lemma Rltb_true_iff (a b : R) : Rltb a b = true <-> (a < b)%R.
Proof.
  unfold Rltb. destruct (Rlt_dec a b); split; intros; try tauto; discriminate.
Qed.

Lemma Rltb_false_iff (a b : R) : Rltb a b = false <-> (b <= a)%R.
Proof.
  unfold Rltb.
  destruct (Rlt_dec a b); split; intros; try lra; try discriminate;
    reflexivity.
Qed.

Lemma Reqb_true (a b : R) : a = b -> Reqb a b = true.
Proof.
  intros H. unfold Reqb. destruct (Req_dec_T a b); [reflexivity|tauto].
Qed.

Lemma Reqb_false (a b : R) : a <> b -> Reqb a b = false.
Proof.
  intros H. unfold Reqb. destruct (Req_dec_T a b); [tauto|reflexivity].
Qed.


(** Unfolding of the number interface at the reals. *)
Ltac num_R :=
  cbn [num_zero num_one num_of_nat num_add num_sub num_mul num_div num_abs
       num_sqrt num_lt num_eq num_json_eq num_undefined EPSILON
       REAL_WORLD_EPSILON num_ten num_hundred Number_R] in *.

(** The inverse of a real matrix of non-zero determinant is an exact
    right inverse. *)
Lemma getInverse_R_exact (m : Matrix33 R) :
  determinant m <> 0%R ->
  exists inverse,
    getInverse m = Some inverse
    /\ multiply m inverse = getIdentityMat33.
Proof.
  destruct m as [a b c d e f g h i].
  unfold determinant, getInverse, getMatrixInverse, get, values.
  cbn [nth Nat.mul Nat.add m00 m01 m02 m10 m11 m12 m20 m21 m22]. num_R.
  intros Hdet. rewrite Reqb_false by exact Hdet.
  eexists. split; [reflexivity|].
  unfold multiply, matrix_of_list, get, values, getIdentityMat33.
  cbn [flat_map map fold_left app nth Nat.mul Nat.add
       m00 m01 m02 m10 m11 m12 m20 m21 m22]. num_R.
  f_equal; field; exact Hdet.
Qed.

Lemma equals_R_refl (m : Matrix33 R) : equals m m None = true.
Proof.
  unfold equals, isSimilar. cbn [forallb andb]. num_R.
  rewrite !Rminus_diag, Rabs_R0.
  rewrite !Rltb_true by lra. reflexivity.
Qed.

(** C6 (amended): over exact real arithmetic, a matrix of non-zero
    determinant multiplied by its [getInverse()] is the identity, exactly
    and hence under [equals] with the tolerance [Number.EPSILON]; in
    binary64 arithmetic this holds for the identity, coronal and sagittal
    matrices. *)
Theorem C6_inverse_product_identity :
  (forall m : Matrix33 R,
     determinant m <> 0%R ->
     exists inverse,
       getInverse m = Some inverse
       /\ multiply m inverse = getIdentityMat33
       /\ equals (multiply m inverse) getIdentityMat33 None = true)
  /\ Forall (fun m : Matrix33 float =>
               exists inverse,
                 getInverse m = Some inverse
                 /\ equals (multiply m inverse) getIdentityMat33 None = true)
            [getIdentityMat33; getCoronalMat33; getSagittalMat33].
Proof.
  split.
  - intros m Hdet.
    destruct (getInverse_R_exact m Hdet) as (inverse & Hinv & Hprod).
    exists inverse. rewrite Hprod. auto using equals_R_refl.
  - repeat (constructor;
            [eexists; split; vm_compute; reflexivity|]).
    constructor.
Qed.

(** The matrix [[2,1,0],[1,3,0],[0,0,1]], of determinant 5, over the
    reals. *)
Lemma C6_inverse_product_identity_witness :
  determinant matrix_2130_R <> 0%R
  /\ exists inverse,
       getInverse matrix_2130_R = Some inverse
       /\ multiply matrix_2130_R inverse = getIdentityMat33
       /\ equals (multiply matrix_2130_R inverse) getIdentityMat33 None = true.
Proof.
  assert (H : determinant matrix_2130_R <> 0%R).
  { unfold determinant, matrix_2130_R, get, values.
    cbn [nth Nat.mul Nat.add m00 m01 m02 m10 m11 m12 m20 m21 m22]. num_R. lra. }
  split; [exact H|].
  exact (proj1 C6_inverse_product_identity matrix_2130_R H).
Defined.

(** ** Gap filling, over the reals *)

Section GapFillingR.
Local Open Scope R_scope.

(** The point of slice index [k], over the reals: the origin moved by
    [k] slice spacings along the third column of the orientation. *)
Lemma slicePoint_R (g : Geometry R) (k : nat) :
  slicePoint g k =
  ((origin g).1.1 + INR k * ((geometrySpacing g).2 * m02 (orientation g)),
   (origin g).1.2 + INR k * ((geometrySpacing g).2 * m12 (orientation g)),
   (origin g).2 + INR k * ((geometrySpacing g).2 * m22 (orientation g))).
Proof.
  destruct g as [[[ox oy] oz] sz [[sx sy] s] [a b c d e f h i j] os].
  unfold slicePoint, indexToWorld, multiplyArray3D, get, values.
  cbn [geometrySpacing orientation origin fst snd fold_left nth Nat.mul Nat.add
       m00 m01 m02 m10 m11 m12 m20 m21 m22]. num_R.
  f_equal; [f_equal|]; ring.
Qed.


Lemma isNotSmall_R (v : R) : isNotSmall v = true <-> 1 / 100 < v.
Proof.
  unfold isNotSmall. num_R.
  destruct (Rltb (1 / 10000) v) eqn:H1.
  - destruct (Rltb (1 / 10000 * 10) v) eqn:H2; cbn [negb].
    + rewrite Rltb_true_iff. lra.
    + apply Rltb_false_iff in H2. split; [discriminate|lra].
  - apply Rltb_false_iff in H1. split; [discriminate|lra].
Qed.

Lemma isNotSmall_R_false (v : R) : isNotSmall v = false <-> v <= 1 / 100.
Proof.
  destruct (isNotSmall v) eqn:H.
  - apply isNotSmall_R in H. split; [discriminate|lra].
  - split; [|reflexivity]. intros _.
    destruct (Rle_dec v (1 / 100)) as [Hle|Hgt]; [exact Hle|].
    assert (isNotSmall v = true) by (apply isNotSmall_R; lra). congruence.
Qed.











(** Evaluation of the comparisons of closed real terms. *)
Ltac r_eval :=
  repeat first
    [ rewrite Rltb_true by lra
    | rewrite Rltb_false by lra
    | rewrite Reqb_true by lra
    | rewrite Reqb_false by lra
    | rewrite Rabs_pos_eq by lra
    | rewrite Rabs_left by lra
    | progress cbn [negb andb orb mbind Completion_bind] ].

Ltac r_unfold :=
  unfold includesPosPat, equalPosPat, sortPosPats, getSliceGeometrySpacing,
    getInverse, getMatrixInverse, orientationMatrixOf, crossProduct, sort,
    comparePosPat, multiplyArray3D, matrix_of_list, get, values;
  cbn -[Rplus Rmult Rminus Rdiv Ropp Rinv Rabs sqrt INR IZR Rltb Reqb].

Ltac r_compute := repeat (progress (r_unfold; r_eval)).






(** ** A slice step of zero *)

(** While the distance stays above the tolerance and never exceeds the
    distance before the first step, the loop goes on. *)
Lemma addIntermediatePosPats_goes_on {A} {NA : Number A} (g : Geometry A)
    frameOrigin distPrevious :
  (forall k, isNotSmall (sliceDistance g frameOrigin k) = true) ->
  (forall k, num_lt distPrevious (sliceDistance g frameOrigin k) = false) ->
  forall fuel k posPats,
    addIntermediatePosPats fuel g frameOrigin distPrevious k (slicePoint g k)
      (sliceDistance g frameOrigin k) posPats = OutOfFuel.
Proof.
  intros Hbig Hle. induction fuel as [|fuel IH]; intros k posPats;
    cbn [addIntermediatePosPats]; rewrite Hbig; [reflexivity|].
  fold (slicePoint g (S k)). fold (sliceDistance g frameOrigin (S k)).
  rewrite Hle. apply IH.
Qed.

Lemma parsed_same_plane_R_checked :
  checkFrameInfos (frameInfos parsed_same_plane_R) []
                  (sharedOrientation parsed_same_plane_R)
                  (sharedSpacing parsed_same_plane_R)
  = Ok ([(0, 0, 0); (1, 0, 0)]%R, Some axial_R, Some (1, 1, 2)%R).
Proof. unfold parsed_same_plane_R. r_compute. reflexivity. Qed.

Lemma parsed_same_plane_R_sorted :
  sortPosPats (orientationMatrixOf axial_R) [(0, 0, 0); (1, 0, 0)]%R
  = Ok [(0, 0, 0); (1, 0, 0)]%R.
Proof. r_compute. reflexivity. Qed.

Lemma parsed_same_plane_R_spacing :
  exists s,
    getSliceGeometrySpacing [(0, 0, 0); (1, 0, 0)]%R
                            (orientationMatrixOf axial_R)
    = Ok (Some s)
    /\ s = 0%R.
Proof.
  eexists. split; [r_compute; reflexivity|].
  field.
Qed.

(** For the frames at (0,0,0) and (1,0,0) the slice step is zero: every
    slice point is the first position, at the distance 1 of the second,
    and the loop that adds the intermediate positions does not end,
    however many iterations it is allowed: over exact arithmetic for
    every number of iterations, in binary64 for each of the first 64. *)
Lemma zero_step_loop_goes_on :
  (forall fuel, reconcile fuel parsed_same_plane_R = OutOfFuel)
  /\ Forall (fun fuel => reconcile fuel parsed_same_plane = OutOfFuel)
            (seq 0 65).
Proof.
  split.
  - intros fuel. destruct parsed_same_plane_R_spacing as (s & Hs & ->).
    unfold reconcile. rewrite parsed_same_plane_R_checked.
    cbn [mbind Completion_bind]. rewrite parsed_same_plane_R_sorted.
    cbn [mbind Completion_bind]. rewrite Hs.
    cbn [mbind Completion_bind addMissingPosPats snd fst num_eq Number_R].
    rewrite Reqb_false by lra. cbn [negb].
    match goal with
    | |- context [addIntermediatePosPats fuel ?g ?fo _ _ _ _ _] =>
      set (geo := g);
      fold (slicePoint geo 1); fold (sliceDistance geo fo 1);
      assert (Hd : forall k, sliceDistance geo fo k = 1%R)
    end.
    { intros k. unfold sliceDistance. rewrite slicePoint_R.
      unfold getDistance, geo, orientationMatrixOf, crossProduct, axial_R.
      cbn [origin geometrySpacing orientation fst snd m02 m12 m22
           rowX rowY rowZ colX colY colZ]. num_R.
      match goal with
      | |- sqrt ?e = _ => replace e with 1%R; [apply sqrt_1|]
      end.
      ring. }
    rewrite addIntermediatePosPats_goes_on; [reflexivity| |].
    + intros k. rewrite Hd. apply isNotSmall_R. lra.
    + intros k. rewrite !Hd. num_R. apply Rltb_false. lra.
  - repeat (constructor; [vm_compute; reflexivity|]). constructor.
Qed.

End GapFillingR.

(** *** The steps between two positions *)

Section IntermediateSteps.
Context {A : Type} {NA : Number A}.
Variable g : Geometry A.
Variable frameOrigin : Pos A.
Variable distPrevious : A.

(** What a completed run of the [while] loop went through. *)
Lemma addIntermediatePosPats_Ok fuel k posPats k_end posPats' :
  addIntermediatePosPats fuel g frameOrigin distPrevious k (slicePoint g k)
    (sliceDistance g frameOrigin k) posPats = Ok (k_end, posPats') ->
  (k <= k_end)%nat
  /\ isNotSmall (sliceDistance g frameOrigin k_end) = false
  /\ (forall j, (k <= j < k_end)%nat ->
        isNotSmall (sliceDistance g frameOrigin j) = true)
  /\ (forall j, (k < j <= k_end)%nat ->
        num_lt distPrevious (sliceDistance g frameOrigin j) = false)
  /\ posPats' = posPats ++ (slicePoint g <$> seq k (k_end - k)).
Proof.
  revert k posPats. induction fuel as [|fuel IH]; intros k posPats;
    cbn [addIntermediatePosPats];
    destruct (isNotSmall (sliceDistance g frameOrigin k)) eqn:Hk;
    try discriminate.
  - intros [= <- <-]. rewrite Nat.sub_diag, app_nil_r.
    repeat split; auto; intros; lia.
  - fold (slicePoint g (S k)). fold (sliceDistance g frameOrigin (S k)).
    destruct (num_lt distPrevious (sliceDistance g frameOrigin (S k))) eqn:Hd;
      [discriminate|].
    intros Hrun. destruct (IH _ _ Hrun) as (Hle & Hend & Hbig & Hprev & ->).
    split; [lia|]. split; [exact Hend|].
    split; [|split].
    + intros j Hj. destruct (decide (j = k)) as [->|]; [exact Hk|].
      apply Hbig. lia.
    + intros j Hj. destruct (decide (j = S k)) as [->|]; [exact Hd|].
      apply Hprev. lia.
    + replace (k_end - k)%nat with (S (k_end - S k)) by lia.
      cbn [seq fmap list_fmap]. now rewrite <- app_assoc.
  - intros [= <- <-]. rewrite Nat.sub_diag, app_nil_r.
    repeat split; auto; intros; lia.
Qed.

(** Once the distance at index [K] exceeds the distance before the first
    step, the loop has ended by index [K]: [K - k] iterations suffice. *)
Lemma addIntermediatePosPats_ends (K : nat) :
  num_lt distPrevious (sliceDistance g frameOrigin K) = true ->
  forall n fuel k posPats,
    (k + n = K)%nat -> (n <= fuel)%nat ->
    (n = 0%nat ->
     num_lt distPrevious (sliceDistance g frameOrigin k) = false) ->
    addIntermediatePosPats fuel g frameOrigin distPrevious k (slicePoint g k)
      (sliceDistance g frameOrigin k) posPats <> OutOfFuel.
Proof.
  intros HK. induction n as [|n IH]; intros fuel k posPats Hkn Hfuel Hzero.
  - rewrite Nat.add_0_r in Hkn. subst k. rewrite (Hzero eq_refl) in HK.
    discriminate.
  - destruct fuel as [|fuel]; [lia|]. cbn [addIntermediatePosPats].
    destruct (isNotSmall (sliceDistance g frameOrigin k)); [|discriminate].
    fold (slicePoint g (S k)). fold (sliceDistance g frameOrigin (S k)).
    destruct (num_lt distPrevious (sliceDistance g frameOrigin (S k))) eqn:Hd;
      [discriminate|].
    apply IH; [lia|lia|]. intros _. exact Hd.
Qed.

(** The loop throws nothing but the divergence error. *)
Lemma addIntermediatePosPats_Throw fuel k point dist posPats e :
  addIntermediatePosPats fuel g frameOrigin distPrevious k point dist posPats
  = Throw e -> e = IntermediatePositionDivergence.
Proof.
  revert k point dist posPats. induction fuel as [|fuel IH];
    intros k point dist posPats; cbn [addIntermediatePosPats];
    destruct (isNotSmall dist); try discriminate.
  destruct (num_lt distPrevious _); [now intros [= <-]|]. apply IH.
Qed.

End IntermediateSteps.

Section StepsR.
Local Open Scope R_scope.
Variable g : Geometry R.
Variable t : Pos R.

Local Abbreviation vx := ((geometrySpacing g).2 * m02 (orientation g)).
Local Abbreviation vy := ((geometrySpacing g).2 * m12 (orientation g)).
Local Abbreviation vz := ((geometrySpacing g).2 * m22 (orientation g)).
Local Abbreviation d := (sliceDistance g t).

Lemma sliceDistance_nonneg k : 0 <= d k.
Proof.
  unfold sliceDistance, getDistance.
  destruct t as [[tx ty] tz], (slicePoint g k) as [[px py] pz]. num_R.
  apply sqrt_pos.
Qed.

(** The squared distance is a quadratic function of the slice index. *)
Lemma sliceDistance_sqr k :
  d k * d k =
  (t.1.1 - ((origin g).1.1 + INR k * vx))
  * (t.1.1 - ((origin g).1.1 + INR k * vx))
  + (t.1.2 - ((origin g).1.2 + INR k * vy))
    * (t.1.2 - ((origin g).1.2 + INR k * vy))
  + (t.2 - ((origin g).2 + INR k * vz))
    * (t.2 - ((origin g).2 + INR k * vz)).
Proof.
  unfold sliceDistance. rewrite slicePoint_R. unfold getDistance.
  destruct t as [[tx ty] tz]. num_R. cbn [fst snd].
  apply sqrt_sqrt.
  generalize (tx - ((origin g).1.1 + INR k * vx))
             (ty - ((origin g).1.2 + INR k * vy))
             (tz - ((origin g).2 + INR k * vz)).
  intros a b c. nra.
Qed.

Lemma sliceDistance_lt_sqr i j : d i < d j <-> d i * d i < d j * d j.
Proof.
  pose proof (sliceDistance_nonneg i). pose proof (sliceDistance_nonneg j).
  split; intros; nra.
Qed.

Lemma sliceDistance_le_sqr i j : d i <= d j <-> d i * d i <= d j * d j.
Proof.
  pose proof (sliceDistance_nonneg i). pose proof (sliceDistance_nonneg j).
  split; intros; nra.
Qed.

(** The squared distance is convex in the slice index. *)
Lemma sliceDistance_convex k :
  d (S k) * d (S k) - d k * d k
  <= d (S (S k)) * d (S (S k)) - d (S k) * d (S k).
Proof.
  rewrite !sliceDistance_sqr, !S_INR.
  generalize (INR k) ((origin g).1.1) ((origin g).1.2) ((origin g).2)
             vx vy vz (t.1.1) (t.1.2) (t.2).
  intros x ox oy oz a b c tx ty tz.
  assert (E : (tx - (ox + (x + 1 + 1) * a)) * (tx - (ox + (x + 1 + 1) * a))
              + (ty - (oy + (x + 1 + 1) * b)) * (ty - (oy + (x + 1 + 1) * b))
              + (tz - (oz + (x + 1 + 1) * c)) * (tz - (oz + (x + 1 + 1) * c))
              - ((tx - (ox + (x + 1) * a)) * (tx - (ox + (x + 1) * a))
                 + (ty - (oy + (x + 1) * b)) * (ty - (oy + (x + 1) * b))
                 + (tz - (oz + (x + 1) * c)) * (tz - (oz + (x + 1) * c)))
              - ((tx - (ox + (x + 1) * a)) * (tx - (ox + (x + 1) * a))
                 + (ty - (oy + (x + 1) * b)) * (ty - (oy + (x + 1) * b))
                 + (tz - (oz + (x + 1) * c)) * (tz - (oz + (x + 1) * c))
                 - ((tx - (ox + x * a)) * (tx - (ox + x * a))
                    + (ty - (oy + x * b)) * (ty - (oy + x * b))
                    + (tz - (oz + x * c)) * (tz - (oz + x * c))))
              = 2 * (a * a + b * b + c * c)) by ring.
  nra.
Qed.

(** After a step that does not decrease the distance, no step does. *)
Lemma sliceDistance_nondecreasing j :
  d j <= d (S j) -> forall n, d (j + n) <= d (S (j + n)).
Proof.
  intros Hj. induction n as [|n IH].
  - now rewrite Nat.add_0_r.
  - replace (j + S n)%nat with (S (j + n)) by lia.
    apply sliceDistance_le_sqr. apply sliceDistance_le_sqr in IH.
    pose proof (sliceDistance_convex (j + n)). lra.
Qed.

Lemma sliceDistance_ge_from j :
  d j <= d (S j) -> forall n, d j <= d (j + n).
Proof.
  intros Hj. induction n as [|n IH].
  - rewrite Nat.add_0_r. lra.
  - replace (j + S n)%nat with (S (j + n)) by lia.
    pose proof (sliceDistance_nondecreasing j Hj n). lra.
Qed.

(** When the slice step moves the point, the distance ends up above any
    earlier one. *)
Lemma sliceDistance_unbounded k0 :
  slicePoint g 1 <> origin g ->
  exists K, (k0 < K)%nat /\ d k0 < d K.
Proof.
  intros Hstep.
  assert (Ha : 0 < vx * vx + vy * vy + vz * vz).
  { destruct (Req_dec_T vx 0) as [Ex|Nx];
      [|generalize dependent vx; generalize vy vz; intros; nra].
    destruct (Req_dec_T vy 0) as [Ey|Ny];
      [|generalize dependent vy; generalize vx vz; intros; nra].
    destruct (Req_dec_T vz 0) as [Ez|Nz];
      [|generalize dependent vz; generalize vx vy; intros; nra].
    exfalso. apply Hstep. rewrite slicePoint_R, Ex, Ey, Ez.
    destruct (origin g) as [[ox oy] oz]. cbn [fst snd INR].
    f_equal; [f_equal|]; ring. }
  destruct (INR_archimed (vx * vx + vy * vy + vz * vz)
              (2 * (vx * (t.1.1 - (origin g).1.1)
                    + vy * (t.1.2 - (origin g).1.2)
                    + vz * (t.2 - (origin g).2))) Ha) as [N HN].
  exists (S (k0 + N)). split; [lia|].
  apply sliceDistance_lt_sqr. rewrite !sliceDistance_sqr, S_INR, plus_INR.
  pose proof (pos_INR k0). pose proof (pos_INR N).
  revert Ha HN H H0.
  generalize (INR k0) (INR N) ((origin g).1.1) ((origin g).1.2) ((origin g).2)
             vx vy vz (t.1.1) (t.1.2) (t.2).
  intros x n ox oy oz a b c tx ty tz Ha HN Hx Hn.
  assert (E : (tx - (ox + (x + n + 1) * a)) * (tx - (ox + (x + n + 1) * a))
              + (ty - (oy + (x + n + 1) * b)) * (ty - (oy + (x + n + 1) * b))
              + (tz - (oz + (x + n + 1) * c)) * (tz - (oz + (x + n + 1) * c))
              - ((tx - (ox + x * a)) * (tx - (ox + x * a))
                 + (ty - (oy + x * b)) * (ty - (oy + x * b))
                 + (tz - (oz + x * c)) * (tz - (oz + x * c)))
              = (n + 1) * ((a * a + b * b + c * c) * (2 * x + n + 1)
                           - 2 * (a * (tx - ox) + b * (ty - oy)
                                  + c * (tz - oz)))) by ring.
  assert (0 < (n + 1) * ((a * a + b * b + c * c) * (2 * x + n + 1)
                           - 2 * (a * (tx - ox) + b * (ty - oy)
                                  + c * (tz - oz)))); [|lra].
  apply Rmult_lt_0_compat; [lra|]. nra.
Qed.

End StepsR.

(** Over the reals: between two consecutive real positions, when the
    slice step is a displacement (the point of index 1 is not the
    origin), the loop that adds the intermediate positions ends, and it
    ends in one of two ways: it returns, and then the distance to the
    next real position has strictly decreased at each of its steps; or
    it fails with IntermediatePositionDivergence.  The guard compares
    with the distance before the first step, so the failure may come
    some steps after the one that did not decrease the distance. *)
Lemma steps_decrease_or_divergence_R (g : Geometry R)
    (frameOrigin : Pos R) (k0 : nat) (posPats : list (Pos R)) :
  slicePoint g 1 <> origin g ->
  exists fuel0, forall fuel, (fuel0 <= fuel)%nat ->
    let d := sliceDistance g frameOrigin in
    let run :=
      addIntermediatePosPats fuel g frameOrigin (d k0) k0 (slicePoint g k0)
                             (d k0) posPats in
    ((exists k_end,
        run = Ok (k_end, posPats ++ (slicePoint g <$> seq k0 (k_end - k0)))
        /\ forall k, (k0 <= k < k_end)%nat -> (d (S k) < d k)%R)
     \/ run = Throw IntermediatePositionDivergence)
    /\ (forall k,
          (k0 <= k)%nat ->
          (forall j, (k0 <= j <= k)%nat -> isNotSmall (d j) = true) ->
          (d k <= d (S k))%R ->
          run = Throw IntermediatePositionDivergence)
    /\ (run = Throw IntermediatePositionDivergence ->
        forall sliceIndex framePosPats,
          k0 = S sliceIndex ->
          addMissingPosPats fuel g (frameOrigin :: framePosPats) sliceIndex
                            posPats
          = Throw IntermediatePositionDivergence).
Proof.
  intros Hstep.
  destruct (sliceDistance_unbounded g frameOrigin k0 Hstep) as (K & HK & HdK).
  exists (K - k0)%nat. intros fuel Hfuel d run.
  assert (Hmain :
    (exists k_end,
        run = Ok (k_end, posPats ++ (slicePoint g <$> seq k0 (k_end - k0)))
        /\ (k0 <= k_end)%nat
        /\ isNotSmall (d k_end) = false
        /\ forall k, (k0 <= k < k_end)%nat -> (d (S k) < d k)%R)
    \/ run = Throw IntermediatePositionDivergence).
  { destruct run as [[k_end posPats']|e|] eqn:Hrun.
    - left. exists k_end.
      destruct (addIntermediatePosPats_Ok _ _ _ _ _ _ _ _ Hrun)
        as (Hle & Hend & Hbig & _ & ->).
      split; [reflexivity|]. split; [exact Hle|]. split; [exact Hend|].
      intros k Hk. destruct (Rlt_dec (d (S k)) (d k)) as [Hlt|Hge];
        [exact Hlt|exfalso].
      assert (Hup : (d k <= d (S k))%R) by lra.
      pose proof (sliceDistance_ge_from g frameOrigin k Hup (k_end - k))
        as Hfar.
      replace (k + (k_end - k))%nat with k_end in Hfar by lia.
      apply isNotSmall_R_false in Hend.
      pose proof (proj1 (isNotSmall_R _) (Hbig k Hk)) as Hbigk.
      subst d. cbv beta in *. lra.
    - right. f_equal.
      exact (addIntermediatePosPats_Throw _ _ _ _ _ _ _ _ _ Hrun).
    - exfalso.
      refine (addIntermediatePosPats_ends g frameOrigin (d k0) K _
                (K - k0) fuel k0 posPats _ Hfuel _ Hrun).
      + apply Rltb_true. exact HdK.
      + lia.
      + intros. lia. }
  split; [|split].
  - destruct Hmain as [(k_end & Hrun & _ & _ & Hdec)|Hthrow];
      [left; exists k_end; auto|right; exact Hthrow].
  - intros k Hk Hpath Hup.
    destruct Hmain as [(k_end & _ & Hle0 & Hend & Hdec)|Hthrow];
      [|exact Hthrow].
    exfalso. destruct (le_lt_dec k_end k) as [Hle|Hlt].
    + rewrite (Hpath k_end) in Hend by lia. discriminate.
    + specialize (Hdec k ltac:(lia)). lra.
  - intros Hthrow sliceIndex framePosPats ->.
    cbn [addMissingPosPats]. fold (slicePoint g (S sliceIndex)).
    fold (sliceDistance g frameOrigin (S sliceIndex)).
    fold d. fold run. rewrite Hthrow. reflexivity.
Qed.

(** The positions (0,0,0), (0,0,3) and (0,0,11) with slices 3 apart:
    towards (0,0,11) the distances from index 2 on are 5, 2, 1, 4, so
    that the step from index 4 does not decrease the distance. *)
Lemma steps_decrease_or_divergence_R_step3 :
  slicePoint geometry_step3_R 1 <> origin geometry_step3_R
  /\ exists fuel0, forall fuel, (fuel0 <= fuel)%nat ->
       addIntermediatePosPats fuel geometry_step3_R (0, 0, 11)%R
         (sliceDistance geometry_step3_R (0, 0, 11)%R 2) 2
         (slicePoint geometry_step3_R 2)
         (sliceDistance geometry_step3_R (0, 0, 11)%R 2)
         [(0, 0, 0)%R; (0, 0, 3)%R]
       = Throw IntermediatePositionDivergence.
Proof.
  assert (Hstep : slicePoint geometry_step3_R 1 <> origin geometry_step3_R).
  { rewrite slicePoint_R. unfold geometry_step3_R.
    cbn [origin geometrySpacing orientation fst snd m02 m12 m22 INR].
    intros [= H]. lra. }
  split; [exact Hstep|].
  destruct (steps_decrease_or_divergence_R geometry_step3_R (0, 0, 11)%R 2
              [(0, 0, 0)%R; (0, 0, 3)%R] Hstep) as [fuel0 Hrun].
  exists fuel0. intros fuel Hfuel.
  apply (proj1 (proj2 (Hrun fuel Hfuel))) with (k := 4%nat); [lia| |].
  - intros j Hj. apply isNotSmall_R.
    pose proof (sliceDistance_nonneg geometry_step3_R (0, 0, 11)%R j) as Hpos.
    pose proof (sliceDistance_sqr geometry_step3_R (0, 0, 11)%R j) as Hsq.
    assert (Hcases : j = 2%nat \/ j = 3%nat \/ j = 4%nat) by lia.
    destruct Hcases as [->|[->| ->]];
      match goal with
      | |- (_ < ?dist)%R => set (x := dist) in *; clearbody x
      end;
      unfold geometry_step3_R in Hsq;
      cbn [origin geometrySpacing orientation fst snd m02 m12 m22 INR] in Hsq;
      clear - Hpos Hsq; nra.
  - apply sliceDistance_le_sqr. rewrite !sliceDistance_sqr.
    unfold geometry_step3_R.
    cbn [origin geometrySpacing orientation fst snd m02 m12 m22 INR]. lra.
Defined.

(** ** More iterations allowed *)

Section MoreFuel.
Context {A : Type} {NA : Number A}.





End MoreFuel.



(** * Further properties *)

(** ** The algebra of [Matrix33], over the reals *)

Ltac matrix_R :=
  unfold multiply, multiplyArray3D, matrix_of_list, getIdentityMat33,
    get, values;
  cbn [flat_map map fold_left app nth Nat.mul Nat.add
       m00 m01 m02 m10 m11 m12 m20 m21 m22]; num_R.

(** [getInverse] of a real matrix, written out. *)
Lemma getInverse_R_Some (m inverse : Matrix33 R) :
  getInverse m = Some inverse ->
  determinant m <> 0%R
  /\ multiply m inverse = getIdentityMat33
  /\ multiply inverse m = getIdentityMat33.
Proof.
  destruct m as [a b c d e f g h i].
  unfold determinant, getInverse, getMatrixInverse, get, values.
  cbn [nth Nat.mul Nat.add m00 m01 m02 m10 m11 m12 m20 m21 m22]. num_R.
  destruct (Reqb _ 0) eqn:Hdet; [discriminate|].
  intros [= <-].
  assert (Hne : (a * (e * i - f * h) + b * (f * g - d * i)
                 + c * (d * h - e * g))%R <> 0%R).
  { intros E. apply Reqb_true in E. congruence. }
  split; [exact Hne|].
  split; matrix_R; f_equal; field; exact Hne.
Qed.

(** X1: over the reals, the inverse that [getInverse] returns is also a
    left inverse, and inverting it gives the matrix back. *)
Theorem X1_getInverse_involutive (m inverse : Matrix33 R) :
  getInverse m = Some inverse ->
  multiply inverse m = getIdentityMat33
  /\ getInverse inverse = Some m.
Proof.
  intros Hinv. destruct (getInverse_R_Some m inverse Hinv) as (Hne & _ & Hl).
  split; [exact Hl|].
  revert Hinv Hne. destruct m as [a b c d e f g h i].
  unfold determinant, getInverse, getMatrixInverse, get, values.
  cbn [nth Nat.mul Nat.add m00 m01 m02 m10 m11 m12 m20 m21 m22]. num_R.
  destruct (Reqb _ 0) eqn:Hdet; [discriminate|].
  intros [= <-] Hne.
  unfold matrix_of_list.
  cbn [nth Nat.mul Nat.add m00 m01 m02 m10 m11 m12 m20 m21 m22].
  set (D := (a * (e * i - f * h) + b * (f * g - d * i)
             + c * (d * h - e * g))%R) in *.
  match goal with
  | |- (if Reqb ?x 0 then _ else _) = _ =>
    assert (Hd : x = (/ D)%R) by (unfold D in *; field; exact Hne)
  end.
  rewrite Hd. rewrite Reqb_false by (apply Rinv_neq_0_compat; exact Hne).
  f_equal. f_equal; unfold D in *; field; exact Hne.
Qed.

Lemma X1_getInverse_involutive_witness :
  exists inverse,
    getInverse matrix_2130_R = Some inverse
    /\ multiply inverse matrix_2130_R = getIdentityMat33
    /\ getInverse inverse = Some matrix_2130_R.
Proof.
  assert (H : determinant matrix_2130_R <> 0%R).
  { unfold determinant, matrix_2130_R, get, values.
    cbn [nth Nat.mul Nat.add m00 m01 m02 m10 m11 m12 m20 m21 m22]. num_R. lra. }
  destruct (getInverse_R_exact matrix_2130_R H) as (inverse & Hinv & _).
  exists inverse. split; [exact Hinv|].
  exact (X1_getInverse_involutive matrix_2130_R inverse Hinv).
Defined.

(** X2: over the reals, [multiplyArray3D] by the inverse undoes
    [multiplyArray3D] by the matrix, and the other way round: a position
    taken to the frame of the orientation and back is the position. *)
Theorem X2_multiplyArray3D_inverse (m inverse : Matrix33 R)
    (array3D : R * R * R) :
  getInverse m = Some inverse ->
  multiplyArray3D inverse (multiplyArray3D m array3D) = array3D
  /\ multiplyArray3D m (multiplyArray3D inverse array3D) = array3D.
Proof.
  destruct array3D as [[x y] z].
  destruct m as [a b c d e f g h i].
  unfold getInverse, getMatrixInverse, get, values.
  cbn [nth Nat.mul Nat.add m00 m01 m02 m10 m11 m12 m20 m21 m22]. num_R.
  destruct (Reqb _ 0) eqn:Hdet; [discriminate|].
  intros [= <-].
  assert (Hne : (a * (e * i - f * h) + b * (f * g - d * i)
                 + c * (d * h - e * g))%R <> 0%R).
  { intros E. apply Reqb_true in E. congruence. }
  split; matrix_R; (f_equal; [f_equal|]); field; exact Hne.
Qed.

Lemma X2_multiplyArray3D_inverse_witness :
  exists inverse,
    getInverse matrix_2130_R = Some inverse
    /\ multiplyArray3D inverse (multiplyArray3D matrix_2130_R (1, 2, 3)%R)
       = (1, 2, 3)%R
    /\ multiplyArray3D matrix_2130_R (multiplyArray3D inverse (1, 2, 3)%R)
       = (1, 2, 3)%R.
Proof.
  assert (H : determinant matrix_2130_R <> 0%R).
  { unfold determinant, matrix_2130_R, get, values.
    cbn [nth Nat.mul Nat.add m00 m01 m02 m10 m11 m12 m20 m21 m22]. num_R. lra. }
  destruct (getInverse_R_exact matrix_2130_R H) as (inverse & Hinv & _).
  exists inverse. split; [exact Hinv|].
  exact (X2_multiplyArray3D_inverse matrix_2130_R inverse (1, 2, 3)%R Hinv).
Defined.

(** X3: over the reals, [multiply] is associative, the identity
    matrix is neutral on both sides, and [multiplyArray3D] by a product
    is [multiplyArray3D] by its factors, the right one first. *)
Theorem X3_multiply_laws (a b c : Matrix33 R) (array3D : R * R * R) :
  multiply (multiply a b) c = multiply a (multiply b c)
  /\ multiply a getIdentityMat33 = a
  /\ multiply getIdentityMat33 a = a
  /\ multiplyArray3D (multiply a b) array3D
     = multiplyArray3D a (multiplyArray3D b array3D).
Proof.
  destruct array3D as [[x y] z].
  destruct a as [a0 a1 a2 a3 a4 a5 a6 a7 a8].
  destruct b as [b0 b1 b2 b3 b4 b5 b6 b7 b8].
  destruct c as [c0 c1 c2 c3 c4 c5 c6 c7 c8].
  repeat split; matrix_R; try (f_equal; ring);
    (f_equal; [f_equal|]); ring.
Qed.

(** ** The largest magnitude of a row or of a column, over the reals *)

(** The first index of the largest of three reals. *)
Lemma indexOf_Math_max_R (a b c : R) :
  let M := Math_max_apply (a, b, c) in
  (a <= M /\ b <= M /\ c <= M)%R
  /\ ((a = M /\ indexOf [a; b; c] M = 0%Z)
      \/ ((a < M)%R /\ b = M /\ indexOf [a; b; c] M = 1%Z)
      \/ ((a < M)%R /\ (b < M)%R /\ c = M /\ indexOf [a; b; c] M = 2%Z)).
Proof.
  unfold Math_max_apply, Math_max, MathMax_R, indexOf, indexOf_from. num_R.
  set (M := Rmax (Rmax a b) c).
  assert (Ha : (a <= M)%R).
  { unfold M. eapply Rle_trans; [apply (Rmax_l a b)|apply Rmax_l]. }
  assert (Hb : (b <= M)%R).
  { unfold M. eapply Rle_trans; [apply (Rmax_r a b)|apply Rmax_l]. }
  assert (Hc : (c <= M)%R) by apply Rmax_r.
  assert (Hone : a = M \/ b = M \/ c = M).
  { unfold M, Rmax. repeat destruct (Rle_dec _ _); auto. }
  cbv zeta. split; [auto|].
  destruct (Req_dec_T a M) as [Ea|Na].
  { left. rewrite Reqb_true by exact Ea. auto. }
  rewrite (Reqb_false a M) by exact Na. right.
  destruct (Req_dec_T b M) as [Eb|Nb].
  { left. rewrite Reqb_true by exact Eb. repeat split; auto; lra. }
  rewrite (Reqb_false b M) by exact Nb. right.
  assert (Ec : c = M) by tauto.
  rewrite Reqb_true by exact Ec. repeat split; auto; lra.
Qed.

Lemma getZ_get {A} {NA : Number A} (m : Matrix33 A) (row col : nat) :
  (row < 3)%nat -> (col < 3)%nat ->
  getZ m (Z.of_nat row) (Z.of_nat col) = Some (get m row col).
Proof.
  intros Hr Hc. destruct m as [a b c d e f g h i].
  destruct row as [|[|[|row]]]; try lia;
    destruct col as [|[|[|col]]]; try lia; reflexivity.
Qed.

(** The index and the value that [getRowAbsMax] returns, over the
    reals. *)
Lemma getRowAbsMax_R (m : Matrix33 R) (row : nat) :
  (row < 3)%nat ->
  exists i : nat,
    (i < 3)%nat
    /\ maxIndex (getRowAbsMax m row) = Z.of_nat i
    /\ maxValue (getRowAbsMax m row) = Some (get m row i)
    /\ (forall j, (j < 3)%nat ->
          (Rabs (get m row j) <= Rabs (get m row i))%R)
    /\ (forall j, (j < i)%nat ->
          (Rabs (get m row j) < Rabs (get m row i))%R).
Proof.
  intros Hrow. unfold getRowAbsMax. cbn [maxIndex maxValue]. num_R.
  destruct (indexOf_Math_max_R (Rabs (get m row 0)) (Rabs (get m row 1))
              (Rabs (get m row 2)))
    as ((Ha & Hb & Hc) & [(E & ->)|[(L & E & ->)|(L1 & L2 & E & ->)]]).
  - exists 0%nat. split; [lia|]. split; [reflexivity|].
    split; [apply (getZ_get m row 0); lia|]. rewrite E.
    split; [|intros; lia].
    intros j Hj. destruct j as [|[|[|j]]]; try lia; assumption.
  - exists 1%nat. split; [lia|]. split; [reflexivity|].
    split; [apply (getZ_get m row 1); lia|]. rewrite E.
    split; intros j Hj; destruct j as [|[|[|j]]]; try lia; assumption.
  - exists 2%nat. split; [lia|]. split; [reflexivity|].
    split; [apply (getZ_get m row 2); lia|]. rewrite E.
    split; intros j Hj; destruct j as [|[|[|j]]]; try lia; assumption.
Qed.

(** X4: over the reals, [getRowAbsMax] of a row returns the first
    index at which the magnitude is the largest of the row, with the
    entry at that index (signed) for value. *)
Theorem X4_getRowAbsMax_first_largest (m : Matrix33 R) (row : nat) :
  (row < 3)%nat ->
  exists i : nat,
    (i < 3)%nat
    /\ maxIndex (getRowAbsMax m row) = Z.of_nat i
    /\ maxValue (getRowAbsMax m row) = Some (get m row i)
    /\ (forall j, (j < 3)%nat ->
          (Rabs (get m row j) <= Rabs (get m row i))%R)
    /\ (forall j, (j < i)%nat ->
          (Rabs (get m row j) < Rabs (get m row i))%R).
Proof. exact (getRowAbsMax_R m row). Qed.

Lemma X4_getRowAbsMax_first_largest_witness :
  exists i : nat,
    (i < 3)%nat
    /\ maxIndex (getRowAbsMax matrix_2130_R 1) = Z.of_nat i
    /\ maxValue (getRowAbsMax matrix_2130_R 1) = Some (get matrix_2130_R 1 i)
    /\ (forall j, (j < 3)%nat ->
          (Rabs (get matrix_2130_R 1 j) <= Rabs (get matrix_2130_R 1 i))%R)
    /\ (forall j, (j < i)%nat ->
          (Rabs (get matrix_2130_R 1 j) < Rabs (get matrix_2130_R 1 i))%R).
Proof. apply (X4_getRowAbsMax_first_largest matrix_2130_R 1). lia. Defined.

(** X5: over the reals, [getColAbsMax] of a column returns the
    first index at which the magnitude is the largest of the column,
    with the entry at that index for value; for the third column that
    index is [getThirdColMajorDirection]. *)
Theorem X5_getColAbsMax_first_largest (m : Matrix33 R) (col : nat) :
  (col < 3)%nat ->
  exists i : nat,
    (i < 3)%nat
    /\ maxIndex (getColAbsMax m col) = Z.of_nat i
    /\ maxValue (getColAbsMax m col) = Some (get m i col)
    /\ (forall j, (j < 3)%nat ->
          (Rabs (get m j col) <= Rabs (get m i col))%R)
    /\ (forall j, (j < i)%nat ->
          (Rabs (get m j col) < Rabs (get m i col))%R)
    /\ (col = 2%nat -> getThirdColMajorDirection m = Z.of_nat i).
Proof.
  intros Hcol. unfold getThirdColMajorDirection, getColAbsMax.
  cbn [maxIndex maxValue]. num_R.
  destruct (indexOf_Math_max_R (Rabs (get m 0 col)) (Rabs (get m 1 col))
              (Rabs (get m 2 col)))
    as ((Ha & Hb & Hc) & [(E & Hi)|[(L & E & Hi)|(L1 & L2 & E & Hi)]]).
  - exists 0%nat. split; [lia|]. rewrite Hi. split; [reflexivity|].
    split; [apply (getZ_get m 0 col); lia|]. rewrite E.
    split; [|split; [intros; lia|]].
    + intros j Hj. destruct j as [|[|[|j]]]; try lia; assumption.
    + intros ->. exact Hi.
  - exists 1%nat. split; [lia|]. rewrite Hi. split; [reflexivity|].
    split; [apply (getZ_get m 1 col); lia|]. rewrite E.
    split; [|split].
    + intros j Hj. destruct j as [|[|[|j]]]; try lia; assumption.
    + intros j Hj. destruct j as [|[|[|j]]]; try lia; assumption.
    + intros ->. exact Hi.
  - exists 2%nat. split; [lia|]. rewrite Hi. split; [reflexivity|].
    split; [apply (getZ_get m 2 col); lia|]. rewrite E.
    split; [|split].
    + intros j Hj. destruct j as [|[|[|j]]]; try lia; assumption.
    + intros j Hj. destruct j as [|[|[|j]]]; try lia; assumption.
    + intros ->. exact Hi.
Qed.

Lemma X5_getColAbsMax_first_largest_witness :
  exists i : nat,
    (i < 3)%nat
    /\ maxIndex (getColAbsMax matrix_2130_R 2) = Z.of_nat i
    /\ maxValue (getColAbsMax matrix_2130_R 2) = Some (get matrix_2130_R i 2)
    /\ (forall j, (j < 3)%nat ->
          (Rabs (get matrix_2130_R j 2) <= Rabs (get matrix_2130_R i 2))%R)
    /\ (forall j, (j < i)%nat ->
          (Rabs (get matrix_2130_R j 2) < Rabs (get matrix_2130_R i 2))%R)
    /\ (2%nat = 2%nat -> getThirdColMajorDirection matrix_2130_R = Z.of_nat i).
Proof. apply (X5_getColAbsMax_first_largest matrix_2130_R 2). lia. Defined.

(** ** [asOneAndZeros], over the reals *)

Lemma asOneAndZeros_get {A} {NA : Number A} {MA : MathMax A}
    (m : Matrix33 A) (row col : nat) :
  (row < 3)%nat -> (col < 3)%nat ->
  get (asOneAndZeros m) row col
  = if (Z.of_nat col =? maxIndex (getRowAbsMax m row))%Z
    then num_mul num_one
           (if match maxValue (getRowAbsMax m row) with
               | Some v => num_lt num_zero v
               | None => false
               end
            then num_one else num_sub num_zero num_one)
    else num_zero.
Proof.
  intros Hr Hc.
  destruct row as [|[|[|row]]]; try lia;
    destruct col as [|[|[|col]]]; try lia; reflexivity.
Qed.

Lemma Matrix33_ext {A} {NA : Number A} (m m' : Matrix33 A) :
  (forall row col, (row < 3)%nat -> (col < 3)%nat ->
     get m row col = get m' row col) ->
  m = m'.
Proof.
  intros H. destruct m as [a b c d e f g h i].
  destruct m' as [a' b' c' d' e' f' g' h' i'].
  pose proof (H 0 0)%nat as H00. pose proof (H 0 1)%nat as H01.
  pose proof (H 0 2)%nat as H02. pose proof (H 1 0)%nat as H10.
  pose proof (H 1 1)%nat as H11. pose proof (H 1 2)%nat as H12.
  pose proof (H 2 0)%nat as H20. pose proof (H 2 1)%nat as H21.
  pose proof (H 2 2)%nat as H22.
  unfold get, values in *.
  cbn [nth Nat.mul Nat.add] in *.
  f_equal; auto with lia.
Qed.

(** A row of [asOneAndZeros], over the reals. *)
Lemma asOneAndZeros_row_R (m : Matrix33 R) (row : nat) :
  (row < 3)%nat ->
  exists i : nat,
    (i < 3)%nat
    /\ maxIndex (getRowAbsMax m row) = Z.of_nat i
    /\ ((0 < get m row i)%R -> get (asOneAndZeros m) row i = 1%R)
    /\ ((get m row i <= 0)%R -> get (asOneAndZeros m) row i = (-1)%R)
    /\ (forall j, (j < 3)%nat -> j <> i ->
          get (asOneAndZeros m) row j = 0%R).
Proof.
  intros Hrow.
  destruct (getRowAbsMax_R m row Hrow)
    as (i & Hi & Hidx & Hval & _).
  exists i. split; [exact Hi|]. split; [exact Hidx|].
  split; [|split].
  - intros Hpos. rewrite asOneAndZeros_get by lia.
    rewrite Hidx, Hval, Z.eqb_refl. num_R.
    rewrite Rltb_true by exact Hpos. lra.
  - intros Hneg. rewrite asOneAndZeros_get by lia.
    rewrite Hidx, Hval, Z.eqb_refl. num_R.
    rewrite Rltb_false by exact Hneg. lra.
  - intros j Hj Hne. rewrite asOneAndZeros_get by lia.
    rewrite Hidx. destruct (Z.eqb_spec (Z.of_nat j) (Z.of_nat i)); [lia|].
    reflexivity.
Qed.

(** X6: over the reals, each row of [asOneAndZeros] holds one
    non-zero entry, at the first index of the largest magnitude of the
    row of the matrix: 1 when the entry of the matrix there is positive
    and -1 otherwise, so that a row of zeros gives (-1, 0, 0). *)
Theorem X6_asOneAndZeros_rows (m : Matrix33 R) (row : nat) :
  (row < 3)%nat ->
  exists i : nat,
    (i < 3)%nat
    /\ maxIndex (getRowAbsMax m row) = Z.of_nat i
    /\ ((0 < get m row i)%R -> get (asOneAndZeros m) row i = 1%R)
    /\ ((get m row i <= 0)%R -> get (asOneAndZeros m) row i = (-1)%R)
    /\ (forall j, (j < 3)%nat -> j <> i ->
          get (asOneAndZeros m) row j = 0%R)
    /\ ((forall j, (j < 3)%nat -> get m row j = 0%R) ->
        i = 0%nat /\ get (asOneAndZeros m) row 0 = (-1)%R).
Proof.
  intros Hrow.
  destruct (asOneAndZeros_row_R m row Hrow)
    as (i & Hi & Hidx & Hpos & Hneg & Hzero).
  exists i. repeat (split; [assumption|]).
  intros Hall.
  destruct (getRowAbsMax_R m row Hrow) as (i' & Hi' & Hidx' & _ & _ & Hfirst).
  assert (i' = i) by lia. subst i'.
  assert (i = 0%nat).
  { destruct i as [|i]; [reflexivity|exfalso].
    specialize (Hfirst 0%nat ltac:(lia)).
    rewrite (Hall 0%nat), (Hall (S i)) in Hfirst by lia. lra. }
  subst i. split; [reflexivity|]. apply Hneg. rewrite Hall by lia. lra.
Qed.

Lemma X6_asOneAndZeros_rows_witness :
  exists i : nat,
    (i < 3)%nat
    /\ maxIndex (getRowAbsMax matrix_2130_R 1) = Z.of_nat i
    /\ ((0 < get matrix_2130_R 1 i)%R
        -> get (asOneAndZeros matrix_2130_R) 1 i = 1%R)
    /\ ((get matrix_2130_R 1 i <= 0)%R
        -> get (asOneAndZeros matrix_2130_R) 1 i = (-1)%R)
    /\ (forall j, (j < 3)%nat -> j <> i ->
          get (asOneAndZeros matrix_2130_R) 1 j = 0%R)
    /\ ((forall j, (j < 3)%nat -> get matrix_2130_R 1 j = 0%R) ->
        i = 0%nat /\ get (asOneAndZeros matrix_2130_R) 1 0 = (-1)%R).
Proof. apply (X6_asOneAndZeros_rows matrix_2130_R 1). lia. Defined.

(** X7: over the reals, [asOneAndZeros] leaves its own results
    unchanged. *)
Theorem X7_asOneAndZeros_idempotent (m : Matrix33 R) :
  asOneAndZeros (asOneAndZeros m) = asOneAndZeros m.
Proof.
  apply Matrix33_ext. intros row col Hrow Hcol.
  destruct (asOneAndZeros_row_R m row Hrow)
    as (i & Hi & _ & Hpos & Hneg & Hzero).
  set (m' := asOneAndZeros m) in *.
  destruct (getRowAbsMax_R m' row Hrow)
    as (i' & Hi' & _ & _ & Hmax & _).
  destruct (asOneAndZeros_row_R m' row Hrow)
    as (i'' & Hi'' & Hidx'' & Hpos' & Hneg' & Hzero').
  destruct (getRowAbsMax_R m' row Hrow)
    as (i3 & _ & Hidx3 & _ & Hmax3 & _).
  assert (i3 = i'') by lia. subst i3.
  assert (Hone : Rabs (get m' row i) = 1%R).
  { destruct (Rlt_dec 0 (get m row i)) as [P|N].
    - rewrite (Hpos P). apply Rabs_pos_eq. lra.
    - rewrite (Hneg ltac:(lra)). rewrite Rabs_left; lra. }
  assert (i'' = i).
  { destruct (decide (i'' = i)) as [E|N]; [exact E|exfalso].
    specialize (Hmax3 i Hi). rewrite Hone in Hmax3.
    rewrite (Hzero i'') in Hmax3 by lia. rewrite Rabs_R0 in Hmax3. lra. }
  subst i''.
  destruct (decide (col = i)) as [->|Hne].
  - destruct (Rlt_dec 0 (get m row i)) as [P|N].
    + rewrite (Hpos P). apply Hpos'. rewrite (Hpos P). lra.
    + rewrite (Hneg ltac:(lra)). apply Hneg'. rewrite (Hneg ltac:(lra)). lra.
  - rewrite (Hzero col) by lia. apply Hzero'; lia.
Qed.

(** ** Not-a-number entries, in binary64 *)

Lemma float_is_nan_spec (x : float) :
  PrimFloat.is_nan x = true -> Prim2SF x = S754_nan.
Proof.
  unfold PrimFloat.is_nan. rewrite FloatAxioms.eqb_spec.
  destruct (Prim2SF x) as [s|s| |s m e]; try reflexivity;
    unfold SFeqb, SFcompare.
  - discriminate.
  - destruct s; discriminate.
  - rewrite Z.compare_refl, Pos.compare_cont_refl.
    destruct s; discriminate.
Qed.

Lemma float_abs_nan (x : float) :
  PrimFloat.is_nan x = true -> PrimFloat.is_nan (PrimFloat.abs x) = true.
Proof.
  intros H. apply float_is_nan_spec in H.
  unfold PrimFloat.is_nan.
  rewrite FloatAxioms.eqb_spec, FloatAxioms.abs_spec, H. reflexivity.
Qed.

Lemma float_eqb_nan_r (x y : float) :
  PrimFloat.is_nan y = true -> PrimFloat.eqb x y = false.
Proof.
  intros H. apply float_is_nan_spec in H. rewrite FloatAxioms.eqb_spec, H.
  unfold SFeqb, SFcompare. destruct (Prim2SF x) as [s|s| |s m e]; reflexivity.
Qed.

Lemma float_ltb_nan_l (x y : float) :
  PrimFloat.is_nan x = true -> PrimFloat.ltb x y = false.
Proof.
  intros H. apply float_is_nan_spec in H.
  rewrite FloatAxioms.ltb_spec, H. reflexivity.
Qed.

Lemma float_sub_nan_l (x y : float) :
  PrimFloat.is_nan x = true -> PrimFloat.is_nan (PrimFloat.sub x y) = true.
Proof.
  intros H. apply float_is_nan_spec in H.
  unfold PrimFloat.is_nan.
  rewrite FloatAxioms.eqb_spec, FloatAxioms.sub_spec, H. reflexivity.
Qed.

Lemma float_sub_nan_r (x y : float) :
  PrimFloat.is_nan y = true -> PrimFloat.is_nan (PrimFloat.sub x y) = true.
Proof.
  intros H. apply float_is_nan_spec in H.
  unfold PrimFloat.is_nan.
  rewrite FloatAxioms.eqb_spec, FloatAxioms.sub_spec, H.
  destruct (Prim2SF x) as [s|s| |s m e]; reflexivity.
Qed.

Lemma Math_max_apply_nan (v0 v1 v2 : float) :
  PrimFloat.is_nan v0 || PrimFloat.is_nan v1 || PrimFloat.is_nan v2 = true ->
  Math_max_apply (v0, v1, v2) = PrimFloat.nan.
Proof.
  assert (Hl : forall a b, PrimFloat.is_nan a = true ->
                           float_max a b = PrimFloat.nan).
  { intros a b H. unfold float_max. now rewrite H. }
  assert (Hr : forall a b, PrimFloat.is_nan b = true ->
                           float_max a b = PrimFloat.nan).
  { intros a b H. unfold float_max. now rewrite H, orb_true_r. }
  unfold Math_max_apply, Math_max, MathMax_float.
  destruct (PrimFloat.is_nan v0) eqn:H0;
    [intros _; now rewrite (Hl v0 v1 H0), Hl|].
  destruct (PrimFloat.is_nan v1) eqn:H1;
    [intros _; now rewrite (Hr v0 v1 H1), Hl|].
  destruct (PrimFloat.is_nan v2) eqn:H2; [|discriminate].
  intros _. now rewrite Hr.
Qed.

(** X8: in binary64, a row of the matrix that holds a NaN has no
    largest magnitude ([getRowAbsMax] gives the index -1), and the row of
    [asOneAndZeros] is all zeros: it has no 1 or -1. *)
Theorem X8_asOneAndZeros_NaN_row (m : Matrix33 float) (row j col : nat) :
  (row < 3)%nat -> (j < 3)%nat -> (col < 3)%nat ->
  PrimFloat.is_nan (get m row j) = true ->
  maxIndex (getRowAbsMax m row) = (-1)%Z
  /\ get (asOneAndZeros m) row col = 0%float.
Proof.
  intros Hrow Hj Hcol Hnan.
  assert (Hidx : maxIndex (getRowAbsMax m row) = (-1)%Z).
  { unfold getRowAbsMax. cbn [maxIndex].
    rewrite Math_max_apply_nan.
    - unfold indexOf, indexOf_from.
      cbn [num_eq Number_float].
      rewrite !float_eqb_nan_r by reflexivity. reflexivity.
    - cbn [num_abs Number_float].
      destruct j as [|[|[|j]]]; try lia;
        rewrite (float_abs_nan _ Hnan);
        rewrite ?orb_true_r; reflexivity. }
  split; [exact Hidx|].
  rewrite asOneAndZeros_get by lia. rewrite Hidx.
  destruct col as [|[|[|col]]]; try lia; reflexivity.
Qed.

Lemma X8_asOneAndZeros_NaN_row_witness :
  maxIndex (getRowAbsMax matrix_with_NaN 1) = (-1)%Z
  /\ get (asOneAndZeros matrix_with_NaN) 1 2 = 0%float.
Proof.
  apply (X8_asOneAndZeros_NaN_row matrix_with_NaN 1 1 2); try lia.
  reflexivity.
Defined.

(** X9: in binary64, a matrix that holds a NaN is [equals] to no
    matrix, whatever the tolerance: not to itself, and it is no identity
    for [isIdentityMat33]. *)
Theorem X9_equals_NaN (m rhs : Matrix33 float) (p : option float)
    (i j : nat) :
  (i < 3)%nat -> (j < 3)%nat ->
  PrimFloat.is_nan (get m i j) = true ->
  equals m rhs p = false
  /\ equals m m p = false
  /\ isIdentityMat33 m = false.
Proof.
  intros Hi Hj Hnan.
  assert (H : forall rhs' p', equals m rhs' p' = false).
  { intros rhs' p'. apply not_true_iff_false. intros Heq.
    unfold equals in Heq.
    rewrite forallb_forall in Heq.
    assert (Hin : forall k, (k < 3)%nat -> In k [0; 1; 2]%nat).
    { intros k Hk. destruct k as [|[|[|k]]]; cbn; auto; lia. }
    specialize (Heq i (Hin i Hi)). rewrite forallb_forall in Heq.
    specialize (Heq j (Hin j Hj)).
    unfold isSimilar in Heq. cbn [num_lt num_abs num_sub Number_float] in Heq.
    rewrite float_ltb_nan_l in Heq; [discriminate|].
    apply float_abs_nan, float_sub_nan_l, Hnan. }
  split; [apply H|]. split; [apply H|]. apply H.
Qed.

Lemma X9_equals_NaN_witness :
  equals matrix_with_NaN getIdentityMat33 None = false
  /\ equals matrix_with_NaN matrix_with_NaN None = false
  /\ isIdentityMat33 matrix_with_NaN = false.
Proof.
  apply (X9_equals_NaN matrix_with_NaN getIdentityMat33 None 1 1); try lia.
  reflexivity.
Defined.

(** ** The named orientations *)

(** X10: [getMatrixFromName] returns a matrix for the names 'axial',
    'coronal' and 'sagittal' and for no other name; in binary64 each of
    the three matrices is its own [asOneAndZeros], and their third
    column major directions are 2, 1 and 0, their orientation codes LPS,
    LIP and PIR. *)
Theorem X10_getMatrixFromName_table :
  (forall name : string,
     @getMatrixFromName float _ name = None
     <-> name <> "axial" /\ name <> "coronal" /\ name <> "sagittal")
  /\ Forall (fun '(name, direction, code) =>
               exists m : Matrix33 float,
                 getMatrixFromName name = Some m
                 /\ asOneAndZeros m = m
                 /\ getThirdColMajorDirection m = direction
                 /\ getOrientationStringLPS m = code)
            [("axial", 2%Z, "LPS"); ("coronal", 1%Z, "LIP");
             ("sagittal", 0%Z, "PIR")].
Proof.
  split.
  - intros name. unfold getMatrixFromName, Orientation_Axial,
      Orientation_Coronal, Orientation_Sagittal.
    destruct (String.eqb_spec name "axial") as [->|Ha];
      [split; [discriminate|intros (H & _); congruence]|].
    destruct (String.eqb_spec name "coronal") as [->|Hc];
      [split; [discriminate|intros (_ & H & _); congruence]|].
    destruct (String.eqb_spec name "sagittal") as [->|Hs];
      [split; [discriminate|intros (_ & _ & H); congruence]|].
    tauto.
  - repeat (constructor;
            [eexists; repeat split; vm_compute; reflexivity|]).
    constructor.
Qed.

(** ** The stages of [create] *)

Section CreateStages.
Context {A : Type} {NA : Number A}.

Lemma create_Ok_inv fuel (dataElements : SegElements A) pixelBuffer image :
  create fuel dataElements pixelBuffer = Ok image ->
  exists parsed posPats geometry uids buffer,
    readElements dataElements pixelBuffer = Ok parsed
    /\ reconcile fuel parsed = Ok (posPats, geometry, uids)
    /\ mergeFrameBuffers parsed posPats pixelBuffer = Ok buffer
    /\ makeImage dataElements parsed posPats geometry uids
                 (kind pixelBuffer) buffer = Ok image.
Proof.
  unfold create.
  destruct (readElements dataElements pixelBuffer) as [parsed| |] eqn:Hr;
    cbn [mbind Completion_bind]; try discriminate.
  destruct (reconcile fuel parsed) as [[[posPats geometry] uids]| |] eqn:Hc;
    cbn [mbind Completion_bind]; try discriminate.
  destruct (mergeFrameBuffers parsed posPats pixelBuffer) as [buffer| |]
    eqn:Hm;
    cbn [mbind Completion_bind]; try discriminate.
  intros H. exists parsed, posPats, geometry, uids, buffer. repeat split; auto.
Qed.

(** What [create] has established when the elements are read. *)
Lemma readElements_Ok_inv (dataElements : SegElements A) pixelBuffer parsed :
  readElements dataElements pixelBuffer = Ok parsed ->
  checkTags (rootElements dataElements) RequiredDicomSegTags = Ok tt
  /\ parsedSize parsed
     = ((image2DSize dataElements).1, (image2DSize dataElements).2, 1%nat)
  /\ sliceSize parsed
     = ((image2DSize dataElements).1 * (image2DSize dataElements).2)%nat
  /\ sliceSize parsed <> 0%nat
  /\ (length (frameInfos parsed) * sliceSize parsed)%nat
     = length (samples pixelBuffer)
  /\ getDimensionOrganization (dimensionOrganizationSequence dataElements)
       (dimensionIndexSequence dataElements) = Ok (dimension parsed)
  /\ segmentSequence dataElements = Some (segments parsed)
  /\ storeAsRGB parsed
     = existsb (fun segment =>
                  bool_decide (is_Some (displayRGBValue segment)))
               (segments parsed)
  /\ readSharedGroups (sharedFunctionalGroupsSequence dataElements)
     = Ok (sharedSpacing parsed, sharedOrientation parsed)
  /\ perFrameFunctionalGroupsSequence dataElements
     = Some (frameInfos parsed).
Proof.
  unfold readElements.
  destruct (checkTags _ _) as [[]| |]; cbn [mbind Completion_bind];
    try discriminate.
  set (frames := match rootElements dataElements !! "00280008" with
                 | Some framesElem => parseInt (head (value framesElem))
                 | None => Some 1%Z
                 end).
  destruct (frames_equal _ _ _) eqn:Hframes; cbn [negb]; [|discriminate].
  destruct (getDimensionOrganization _ _) as [dim| |];
    cbn [mbind Completion_bind]; try discriminate.
  destruct (segmentSequence dataElements) as [segs|]; [|discriminate].
  destruct (readSharedGroups _) as [[sp o]| |];
    cbn [mbind Completion_bind]; try discriminate.
  destruct (perFrameFunctionalGroupsSequence dataElements) as [fis|];
    [|discriminate].
  destruct (bool_decide _) eqn:Hlen; cbn [negb]; [|discriminate].
  intros [= <-]. cbn [parsedSize sliceSize frameInfos dimension segments
                      storeAsRGB sharedSpacing sharedOrientation].
  apply bool_decide_eq_true in Hlen. rewrite Hlen in Hframes.
  unfold frames_equal in Hframes.
  apply andb_true_iff in Hframes as [Hnz Hprod].
  apply negb_true_iff, Nat.eqb_neq in Hnz. apply Z.eqb_eq in Hprod.
  repeat split; auto; lia.
Qed.


(** What [create] has established when the slices are laid out. *)
Lemma reconcile_Ok_inv fuel (parsed : Parsed A) posPats geometry uids :
  reconcile fuel parsed = Ok (posPats, geometry, uids) ->
  exists framePosPats o sp sorted p0 rest newSpacing,
    checkFrameInfos (frameInfos parsed) []
                    (sharedOrientation parsed) (sharedSpacing parsed)
    = Ok (framePosPats, Some o, Some sp)
    /\ sortPosPats (orientationMatrixOf o) framePosPats = Ok sorted
    /\ sorted = p0 :: rest
    /\ addMissingPosPats fuel
         (mkGeometry p0 (parsedSize parsed) newSpacing
                     (orientationMatrixOf o) [p0])
         rest 0 [p0] = Ok posPats
    /\ geometry
       = mkGeometry p0
           ((parsedSize parsed).1.1, (parsedSize parsed).1.2, length posPats)
           newSpacing (orientationMatrixOf o) posPats
    /\ uids = (fun m : nat => pretty m) <$> seq 0 (length posPats).
Proof.
  unfold reconcile.
  destruct (checkFrameInfos _ _ _ _) as [[[framePosPats o] sp]| |];
    cbn [mbind Completion_bind]; try discriminate.
  destruct sp as [sp|]; [|discriminate].
  destruct o as [o|]; [|discriminate].
  destruct (sortPosPats _ _) as [sorted| |] eqn:Hsort;
    cbn [mbind Completion_bind]; try discriminate.
  destruct (getSliceGeometrySpacing _ _) as [inferred| |];
    cbn [mbind Completion_bind]; try discriminate.
  destruct sorted as [|p0 rest]; [discriminate|].
  match goal with
  | |- context [mkGeometry p0 (parsedSize parsed) ?s _ _] =>
    set (newSpacing := s)
  end.
  destruct (addMissingPosPats _ _ _ _ _) as [posPats'| |] eqn:Hadd;
    cbn [mbind Completion_bind]; try discriminate.
  intros [= <- <- <-].
  exists framePosPats, o, sp, (p0 :: rest), p0, rest, newSpacing.
  repeat split; auto.
Qed.

Lemma mergeFrames_length (parsed : Parsed A) posPats pixelBuffer f
    frameInfos (buffer buffer' : list Z) :
  mergeFrames parsed posPats pixelBuffer f frameInfos buffer = Ok buffer' ->
  length buffer' = length buffer.
Proof.
  revert f buffer. induction frameInfos as [|frameInfo frameInfos IH];
    intros f buffer; cbn [mergeFrames].
  - now intros [= <-].
  - destruct (mergeFrame parsed posPats pixelBuffer f frameInfo buffer)
      as [buffer1| |] eqn:Hm; cbn [mbind Completion_bind]; try discriminate.
    intros Hrest. rewrite (IH _ _ Hrest).
    unfold mergeFrame in Hm.
    exact (proj1 (mergeSamples_lookup _ _ _ _ _ _ _ _ 0%nat Hm)).
Qed.

Lemma mergeFrameBuffers_length (parsed : Parsed A) posPats pixelBuffer
    buffer :
  mergeFrameBuffers parsed posPats pixelBuffer = Ok buffer ->
  length buffer
  = ((if storeAsRGB parsed then 3 else 1) * sliceSize parsed
     * length posPats)%nat.
Proof.
  unfold mergeFrameBuffers. intros H.
  rewrite (mergeFrames_length _ _ _ _ _ _ _ H). apply length_replicate.
Qed.

Lemma makeImage_Ok_inv (dataElements : SegElements A) parsed posPats
    g ids k buf image :
  makeImage dataElements parsed posPats g ids k buf = Ok image ->
  geometry image = g
  /\ buffer image = buf
  /\ bufferKind image = k
  /\ uids image = ids
  /\ photometricInterpretation image
     = (if storeAsRGB parsed then Some "RGB" else None)
  /\ numberOfFiles (meta image) = length posPats
  /\ customFrameInfos (meta image) = frameInfos parsed
  /\ customSegments (meta image) = segments parsed
  /\ DimensionOrganizationSequence (meta image)
     = organizations (dimension parsed)
  /\ DimensionIndexSequence (meta image) = indices (dimension parsed).
Proof.
  unfold makeImage.
  destruct (rootElements dataElements !! "00080018"); [|discriminate].
  intros H.
  match type of H with
  | Ok ?x = Ok _ => assert (E : x = image) by congruence
  end.
  rewrite <- E.
  cbn [geometry buffer bufferKind uids photometricInterpretation meta
       numberOfFiles customFrameInfos customSegments
       DimensionOrganizationSequence DimensionIndexSequence].
  repeat split; reflexivity.
Qed.

End CreateStages.

(** X11: every image that [create] returns is consistent in its
    sizes: with rows x columns the size of a frame (not zero) and n the
    number of slices, the input buffer holds rows x columns samples per
    frame, the output buffer has the element type of the input and n
    times rows x columns voxels (of three channels in RGB mode), and the
    geometry has n origins and n for third size, and the slice
    identifiers are the numbers 0 to n - 1. *)
Theorem X11_create_sizes {A : Type} {NA : Number A} (fuel : nat)
    (dataElements : SegElements A) (pixelBuffer : PixelBuffer)
    (image : Image A) :
  create fuel dataElements pixelBuffer = Ok image ->
  let rows := (image2DSize dataElements).1 in
  let columns := (image2DSize dataElements).2 in
  let n := numberOfFiles (meta image) in
  let channels :=
    match photometricInterpretation image with
    | Some _ => 3%nat
    | None => 1%nat
    end in
  (rows * columns)%nat <> 0%nat
  /\ length (samples pixelBuffer)
     = (length (customFrameInfos (meta image)) * (rows * columns))%nat
  /\ bufferKind image = kind pixelBuffer
  /\ length (buffer image) = (channels * (rows * columns) * n)%nat
  /\ geometrySize (geometry image) = (rows, columns, n)
  /\ length (origins (geometry image)) = n
  /\ uids image = (fun m : nat => pretty m) <$> seq 0 n.
Proof.
  intros Hrun.
  destruct (create_Ok_inv _ _ _ _ Hrun)
    as (parsed & posPats & g & ids & buf & Hread & Hrec & Hmerge & Himg).
  destruct (readElements_Ok_inv _ _ _ Hread)
    as (_ & Hsize & Hslice & Hnz & Hlen & _).
  destruct (reconcile_Ok_inv _ _ _ _ _ Hrec)
    as (fps & o & sp & sorted & p0 & rest & ns & _ & _ & _ & _ & -> & ->).
  pose proof (mergeFrameBuffers_length _ _ _ _ Hmerge) as Hbuf.
  destruct (makeImage_Ok_inv _ _ _ _ _ _ _ _ Himg)
    as (-> & -> & -> & -> & -> & -> & -> & _).
  cbn zeta. cbn [geometrySize origins]. rewrite Hsize. cbn [fst snd].
  rewrite <- Hslice.
  repeat split; auto; try lia.
  rewrite Hbuf. destruct (storeAsRGB parsed); reflexivity.
Qed.

Lemma X11_create_sizes_witness :
  exists image,
    create 8 scenario_two_frames all_set = Ok image
    /\ (2 * 2)%nat <> 0%nat
    /\ length (samples all_set)
       = (length (customFrameInfos (meta image)) * (2 * 2))%nat
    /\ bufferKind image = Uint8
    /\ length (buffer image)
       = (match photometricInterpretation image with
          | Some _ => 3%nat
          | None => 1%nat
          end * (2 * 2) * numberOfFiles (meta image))%nat
    /\ geometrySize (geometry image) = (2, 2, numberOfFiles (meta image))%nat
    /\ length (origins (geometry image)) = numberOfFiles (meta image)
    /\ uids image
       = (fun m : nat => pretty m) <$> seq 0 (numberOfFiles (meta image)).
Proof.
  destruct (volume_of_Ok _ _ (create_scenario_two_frames 8))
    as (image & Hrun & _).
  exists image. split; [exact Hrun|].
  exact (X11_create_sizes 8 scenario_two_frames all_set image Hrun).
Defined.

(** ** The slice of a frame *)

Section FrameSlices.
Context {A : Type} {NA : Number A}.
Hypothesis json_refl : forall a : A, num_json_eq a a = true.

Lemma equalPosPat_refl (p : Pos A) : equalPosPat p p = true.
Proof.
  destruct p as [[x y] z]. unfold equalPosPat. now rewrite !json_refl.
Qed.

Lemma includesPosPat_spec (arr : list (Pos A)) (val : Pos A) :
  includesPosPat arr val = true
  <-> exists arrVal, arrVal ∈ arr /\ equalPosPat val arrVal = true.
Proof.
  unfold includesPosPat. rewrite existsb_exists.
  split; intros (x & Hin & Heq); exists x; split; auto;
    now apply list_elem_of_In.
Qed.

(** The loop "check frame infos" keeps the positions that it has and
    ends with a position for every frame. *)
Lemma checkFrameInfos_includes (frameInfos : list (FrameInfo A))
    framePosPats o s framePosPats' o' s' :
  checkFrameInfos frameInfos framePosPats o s = Ok (framePosPats', o', s') ->
  (forall p, p ∈ framePosPats -> p ∈ framePosPats')
  /\ (forall frameInfo, frameInfo ∈ frameInfos ->
        includesPosPat framePosPats' (imagePosPat frameInfo) = true).
Proof.
  revert framePosPats o s.
  induction frameInfos as [|frameInfo frameInfos IH]; intros ps o s.
  - cbn. intros [= <- <- <-]. split; [auto|]. intros fi Hin. inversion Hin.
  - cbn [checkFrameInfos].
    set (ps1 := if negb (includesPosPat ps (imagePosPat frameInfo))
                then ps ++ [imagePosPat frameInfo] else ps).
    assert (Hps1 : (forall p, p ∈ ps -> p ∈ ps1)
                   /\ includesPosPat ps1 (imagePosPat frameInfo) = true).
    { unfold ps1.
      destruct (includesPosPat ps (imagePosPat frameInfo)) eqn:Hinc;
        cbn [negb]; [auto|].
      split; [intros p Hp; apply elem_of_app; auto|].
      apply includesPosPat_spec. exists (imagePosPat frameInfo).
      split; [apply elem_of_app; right; apply list_elem_of_here|].
      apply equalPosPat_refl. }
    destruct Hps1 as [Hsub1 Hinc1].
    destruct (match imageOrientationPatient frameInfo with
              | Some _ => _ | None => _ end) as [o1| |];
      cbn [mbind Completion_bind]; try discriminate.
    destruct (match spacing frameInfo with
              | Some _ => _ | None => _ end) as [s1| |];
      cbn [mbind Completion_bind]; try discriminate.
    intros Hrest. destruct (IH _ _ _ Hrest) as [Hsub Hall].
    split; [auto|].
    intros fi Hin. apply elem_of_cons in Hin as [->|Hin]; [|auto].
    apply includesPosPat_spec in Hinc1 as (x & Hx & Heq).
    apply includesPosPat_spec. exists x. auto.
Qed.

Lemma sort_insert_Permutation compare (x : Pos A) l :
  sort_insert compare x l ≡ₚ x :: l.
Proof.
  induction l as [|y l IH]; [reflexivity|]. cbn [sort_insert].
  destruct (num_lt (compare x y) num_zero); [reflexivity|].
  rewrite IH. apply Permutation_swap.
Qed.

Lemma sort_Permutation compare (l : list (Pos A)) : sort compare l ≡ₚ l.
Proof.
  unfold sort.
  assert (H : forall acc,
    fold_left (fun sorted x => sort_insert compare x sorted) l acc
    ≡ₚ acc ++ l).
  { induction l as [|x l IH]; intros acc; cbn [fold_left].
    - now rewrite app_nil_r.
    - rewrite IH, sort_insert_Permutation. cbn [app].
      apply Permutation_middle. }
  apply (H []).
Qed.

Lemma sortPosPats_Permutation m (l sorted : list (Pos A)) :
  sortPosPats m l = Ok sorted -> sorted ≡ₚ l.
Proof.
  unfold sortPosPats.
  destruct l as [|x [|y l]]; try (intros [= <-]; reflexivity).
  destruct (getInverse m); [|discriminate].
  intros [= <-]. apply sort_Permutation.
Qed.

(** The gap filling keeps the positions of the frames. *)
Lemma addMissingPosPats_keeps fuel (g : Geometry A) rest k posPats posPats' :
  addMissingPosPats fuel g rest k posPats = Ok posPats' ->
  forall p, p ∈ posPats \/ p ∈ rest -> p ∈ posPats'.
Proof.
  revert k posPats. induction rest as [|q rest IH]; intros k posPats.
  - cbn. intros [= <-] p [Hp|Hp]; [exact Hp|inversion Hp].
  - cbn [addMissingPosPats].
    fold (slicePoint g (S k)). fold (sliceDistance g q (S k)).
    destruct (addIntermediatePosPats _ _ _ _ _ _ _ _)
      as [[k1 posPats1]| |] eqn:Hloop; cbn [mbind Completion_bind];
      try discriminate.
    destruct (addIntermediatePosPats_Ok _ _ _ _ _ _ _ _ Hloop)
      as (_ & _ & _ & _ & ->).
    intros Hrest p Hp. apply (IH _ _ Hrest).
    destruct Hp as [Hp|Hp].
    + left. rewrite !elem_of_app. auto.
    + apply elem_of_cons in Hp as [->|Hp]; [|auto].
      left. rewrite !elem_of_app. right. apply list_elem_of_here.
Qed.

Lemma findIndexPosPat_from_range (arr : list (Pos A)) val i :
  includesPosPat arr val = true ->
  (i <= findIndexPosPat_from i arr val < i + Z.of_nat (length arr))%Z.
Proof.
  revert i. induction arr as [|arrVal arr IH]; intros i; [discriminate|].
  unfold includesPosPat. cbn [existsb findIndexPosPat_from length].
  destruct (equalPosPat val arrVal); cbn [orb]; [lia|].
  intros H. specialize (IH (i + 1)%Z H). lia.
Qed.

(** Every frame has its position among the positions of the slices. *)
Lemma reconcile_includes fuel (parsed : Parsed A) posPats g ids :
  reconcile fuel parsed = Ok (posPats, g, ids) ->
  forall frameInfo, frameInfo ∈ frameInfos parsed ->
    includesPosPat posPats (imagePosPat frameInfo) = true.
Proof.
  intros Hrec frameInfo Hin.
  destruct (reconcile_Ok_inv _ _ _ _ _ Hrec)
    as (fps & o & sp & sorted & p0 & rest & ns & Hcheck & Hsort & -> & Hadd
        & _).
  destruct (checkFrameInfos_includes _ _ _ _ _ _ _ Hcheck) as [_ Hall].
  pose proof (Hall frameInfo Hin) as Hinc.
  apply includesPosPat_spec in Hinc as (x & Hx & Heq).
  apply includesPosPat_spec. exists x. split; [|exact Heq].
  apply (addMissingPosPats_keeps _ _ _ _ _ _ Hadd).
  rewrite <- (sortPosPats_Permutation _ _ _ Hsort) in Hx.
  apply elem_of_cons in Hx as [->|Hx]; [left; apply list_elem_of_here|auto].
Qed.

End FrameSlices.

Lemma float_json_eq_refl (a : float) : float_json_eq a a = true.
Proof.
  unfold float_json_eq, float_finite.
  destruct (PrimFloat.is_nan a) eqn:Hnan; cbn [orb negb andb]; [reflexivity|].
  destruct (PrimFloat.is_infinity a); cbn [negb andb]; [reflexivity|].
  unfold PrimFloat.is_nan in Hnan. now apply negb_false_iff in Hnan.
Qed.

(** X12: in every image that [create] returns, each frame has a
    slice: the index that the merge finds for the position of the frame
    among the positions of the slices is at least 0 and below the number
    of slices, so that no frame is left out and none is written outside
    the volume. *)
Theorem X12_frames_have_slices (fuel : nat) (dataElements : SegElements float)
    (pixelBuffer : PixelBuffer) (image : Image float) :
  create fuel dataElements pixelBuffer = Ok image ->
  forall frameInfo,
    frameInfo ∈ customFrameInfos (meta image) ->
    (0 <= findIndexPosPat (origins (geometry image)) (imagePosPat frameInfo)
     < Z.of_nat (numberOfFiles (meta image)))%Z.
Proof.
  intros Hrun frameInfo Hin.
  destruct (create_Ok_inv _ _ _ _ Hrun)
    as (parsed & posPats & g & ids & buf & Hread & Hrec & Hmerge & Himg).
  destruct (makeImage_Ok_inv _ _ _ _ _ _ _ _ Himg)
    as (Hg & _ & _ & _ & _ & Hn & Hfi & _).
  rewrite Hfi in Hin. rewrite Hg, Hn.
  pose proof (reconcile_includes (NA:=Number_float) float_json_eq_refl
                _ _ _ _ _ Hrec frameInfo Hin) as Hinc.
  destruct (reconcile_Ok_inv _ _ _ _ _ Hrec)
    as (fps & o & sp & sorted & p0 & rest & ns & _ & _ & _ & _ & Hgeo & _).
  rewrite Hgeo. cbn [origins].
  pose proof (findIndexPosPat_from_range posPats _ 0%Z Hinc) as H.
  unfold findIndexPosPat. lia.
Qed.

Lemma X12_frames_have_slices_witness :
  exists image,
    create 8 scenario_two_frames all_set = Ok image
    /\ forall frameInfo,
         frameInfo ∈ customFrameInfos (meta image) ->
         (0 <= findIndexPosPat (origins (geometry image))
                               (imagePosPat frameInfo)
          < Z.of_nat (numberOfFiles (meta image)))%Z.
Proof.
  destruct (volume_of_Ok _ _ (create_scenario_two_frames 8))
    as (image & Hrun & _).
  exists image. split; [exact Hrun|].
  exact (X12_frames_have_slices 8 scenario_two_frames all_set image Hrun).
Defined.

(** ** Magnitudes in binary64 *)

Lemma float_abs_abs (x : float) :
  PrimFloat.abs (PrimFloat.abs x) = PrimFloat.abs x.
Proof.
  apply FloatAxioms.Prim2SF_inj. rewrite !FloatAxioms.abs_spec.
  now destruct (Prim2SF x).
Qed.

(** X24: in binary64, [getAbs()] holds the magnitude of each entry of
    the matrix, and applied to its own result it returns that result. *)
Theorem X24_getAbs_idempotent (m : Matrix33 float) :
  (forall row col : nat, (row < 3)%nat -> (col < 3)%nat ->
     get (getAbs m) row col = PrimFloat.abs (get m row col))
  /\ getAbs (getAbs m) = getAbs m.
Proof.
  split.
  - intros row col Hrow Hcol.
    destruct row as [|[|[|row]]]; [| | |lia];
      (destruct col as [|[|[|col]]]; [| | |lia]); reflexivity.
  - destruct m. unfold getAbs, matrix_of_list, get. cbn.
    now rewrite !float_abs_abs.
Qed.

(** ** Positions that print alike *)

Lemma SFeqb_finite s1 m1 e1 s2 m2 e2 :
  SFeqb (S754_finite s1 m1 e1) (S754_finite s2 m2 e2) = true
  <-> (s1, m1, e1) = (s2, m2, e2).
Proof.
  unfold SFeqb, SFcompare. split.
  - destruct s1, s2; try discriminate;
      destruct (Z.compare_spec e1 e2) as [->| |]; try discriminate;
      change (Pos.compare_cont Eq m1 m2) with (Pos.compare m1 m2);
      destruct (Pos.compare_spec m1 m2) as [->| |]; try discriminate;
      reflexivity.
  - intros [= -> -> ->]. rewrite Z.compare_refl.
    change (Pos.compare_cont Eq m2 m2) with (Pos.compare m2 m2).
    rewrite Pos.compare_refl. now destruct s2.
Qed.

Lemma float_json_eq_shown (a b : float) :
  float_json_eq a b = true <-> json_shown a = json_shown b.
Proof.
  unfold float_json_eq, float_finite, json_shown,
    PrimFloat.is_nan, PrimFloat.is_infinity.
  rewrite !FloatAxioms.eqb_spec, !FloatAxioms.abs_spec.
  change (Prim2SF infinity) with (S754_infinity false).
  assert (Hself : forall s m e,
            SFeqb (S754_finite s m e) (S754_finite s m e) = true)
    by (intros; now apply SFeqb_finite).
  destruct (Prim2SF a) as [sa|sa| |sa ma ea];
    destruct (Prim2SF b) as [sb|sb| |sb mb eb];
    cbn [SFabs]; rewrite ?Hself;
    try (progress change (SFeqb (S754_finite false ma ea)
                                (S754_infinity false)) with false;
         progress change (SFeqb (S754_finite false mb eb)
                                (S754_infinity false)) with false;
         cbn [negb orb andb]; rewrite SFeqb_finite; split; congruence);
    try (destruct sa); try (destruct sb); cbn;
    split; (congruence || reflexivity).
Qed.

(** X25: in binary64, [equalPosPat] is an equivalence of
    positions: a position equals itself, the order of the two positions
    does not matter, and two positions that equal a third one are equal.
    A coordinate that is NaN or infinite equals every such coordinate,
    and -0 equals 0. *)
Theorem X25_equalPosPat_equivalence :
  (forall p : Pos float, equalPosPat p p = true)
  /\ (forall p q : Pos float, equalPosPat p q = equalPosPat q p)
  /\ (forall p q r : Pos float,
        equalPosPat p q = true -> equalPosPat q r = true ->
        equalPosPat p r = true)
  /\ equalPosPat (PrimFloat.nan, (-0)%float, neg_infinity)
                 (infinity, 0%float, PrimFloat.nan) = true.
Proof.
  assert (Hspec : forall p q : Pos float,
    equalPosPat p q = true
    <-> json_shown p.1.1 = json_shown q.1.1
        /\ json_shown p.1.2 = json_shown q.1.2
        /\ json_shown p.2 = json_shown q.2).
  { intros [[x1 y1] z1] [[x2 y2] z2]. cbn [equalPosPat fst snd].
    change (@num_json_eq float Number_float) with float_json_eq.
    rewrite !andb_true_iff, !float_json_eq_shown. tauto. }
  split; [|split; [|split]].
  - intros p. apply Hspec. auto.
  - intros p q. apply eq_true_iff_eq. rewrite !Hspec.
    split; intros (H1 & H2 & H3); auto.
  - intros p q r Hpq Hqr. apply Hspec in Hpq, Hqr. apply Hspec.
    destruct Hpq as (H1 & H2 & H3), Hqr as (H4 & H5 & H6).
    repeat split; congruence.
  - vm_compute. reflexivity.
Qed.

(** ** What the merge writes *)

Lemma typed_set_lookup_eq k (buffer : list Z) (offset : Z) v :
  (0 <= offset < Z.of_nat (length buffer))%Z ->
  typed_set k buffer offset v !! Z.to_nat offset = Some (to_element k v).
Proof.
  intros H. unfold typed_set.
  destruct (offset <? 0)%Z eqn:Hneg; [apply Z.ltb_lt in Hneg; lia|].
  apply list_lookup_insert_eq. lia.
Qed.

(** A write of the value that a cell holds leaves the cell as it is. *)
Lemma typed_set_keeps_value k (buffer : list Z) (offset : Z) v (i : nat) :
  buffer !! i = Some (to_element k v) ->
  typed_set k buffer offset v !! i = Some (to_element k v).
Proof.
  intros H. destruct (decide (Z.of_nat i = offset)) as [<-|Hne].
  - rewrite <- (Nat2Z.id i) at 1. apply typed_set_lookup_eq.
    apply lookup_lt_Some in H. lia.
  - now rewrite typed_set_lookup_ne.
Qed.

(** In scalar mode and with a segment, the loop over the samples of a
    frame ends normally; a cell that holds the display value keeps it,
    and the cell of every non-zero sample holds it in the end. *)
Lemma mergeSamples_scalar ls pixelBuffer segment frameOffset sliceOffset
    (buffer : list Z) :
  exists buffer',
    mergeSamples ls pixelBuffer false (Some segment) frameOffset sliceOffset
                 buffer = Ok buffer'
    /\ (forall i : nat,
          buffer !! i
          = Some (to_element (kind pixelBuffer) (displayValue segment)) ->
          buffer' !! i
          = Some (to_element (kind pixelBuffer) (displayValue segment)))
    /\ (forall l : nat,
          l ∈ ls ->
          sample_not_zero pixelBuffer (frameOffset + l) = true ->
          (0 <= sliceOffset + Z.of_nat l < Z.of_nat (length buffer))%Z ->
          buffer' !! Z.to_nat (sliceOffset + Z.of_nat l)
          = Some (to_element (kind pixelBuffer) (displayValue segment))).
Proof.
  revert buffer. induction ls as [|l0 ls IH]; intros buffer.
  - exists buffer. split; [reflexivity|]. split; [auto|].
    intros l Hl. inversion Hl.
  - cbn [mergeSamples].
    destruct (sample_not_zero pixelBuffer (frameOffset + l0)) eqn:Hnz.
    + cbn [writeSample mbind Completion_bind].
      set (buffer1 := typed_set (kind pixelBuffer) buffer
                        (1 * (sliceOffset + Z.of_nat l0))
                        (displayValue segment)).
      destruct (IH buffer1) as (buffer' & Hrun & Hkeep & Hset).
      exists buffer'. split; [exact Hrun|]. split.
      * intros i Hi. apply Hkeep. now apply typed_set_keeps_value.
      * intros l Hl Hlnz Hrange.
        assert (Hlen1 : length buffer1 = length buffer)
          by apply typed_set_length.
        apply elem_of_cons in Hl as [->|Hl].
        -- apply Hkeep. unfold buffer1.
           replace (1 * (sliceOffset + Z.of_nat l0))%Z
             with (sliceOffset + Z.of_nat l0)%Z by lia.
           now apply typed_set_lookup_eq.
        -- apply Hset; [exact Hl|exact Hlnz|]. now rewrite Hlen1.
    + destruct (IH buffer) as (buffer' & Hrun & Hkeep & Hset).
      exists buffer'. split; [exact Hrun|]. split; [exact Hkeep|].
      intros l Hl Hlnz Hrange.
      apply elem_of_cons in Hl as [->|Hl]; [congruence|].
      now apply Hset.
Qed.

(** The loop over the samples of a frame without a non-zero sample does
    nothing, whatever the segment and the slice. *)
Lemma mergeSamples_all_zero ls pixelBuffer rgb frameSegment frameOffset
    sliceOffset (buffer : list Z) :
  (forall l : nat, l ∈ ls ->
     sample_not_zero pixelBuffer (frameOffset + l) = false) ->
  mergeSamples ls pixelBuffer rgb frameSegment frameOffset sliceOffset buffer
  = Ok buffer.
Proof.
  induction ls as [|l0 ls IH]; intros Hz; [reflexivity|].
  cbn [mergeSamples]. rewrite (Hz l0) by apply list_elem_of_here.
  apply IH. intros l Hl. apply Hz. now apply list_elem_of_further.
Qed.

(** X13: a frame without a non-zero sample is merged without error
    and leaves the buffer as it is, whatever its segment number (known
    or not) and its position; a pixel buffer of zeros gives an output
    buffer of zeros. *)
Theorem X13_zero_frames_leave_buffer {A : Type} {NA : Number A}
    (parsed : Parsed A) (posPats : list (Pos A))
    (pixelBuffer : PixelBuffer) :
  (forall (f : nat) (frameInfo : FrameInfo A) (buffer : list Z),
     (forall l : nat, (l < sliceSize parsed)%nat ->
        sample_not_zero pixelBuffer (sliceSize parsed * f + l) = false) ->
     mergeFrame parsed posPats pixelBuffer f frameInfo buffer = Ok buffer)
  /\ ((forall i : nat,
         (i < length (frameInfos parsed) * sliceSize parsed)%nat ->
         sample_not_zero pixelBuffer i = false) ->
      mergeFrameBuffers parsed posPats pixelBuffer
      = Ok (replicate ((if storeAsRGB parsed then 3 else 1)
                       * sliceSize parsed * length posPats) 0%Z)).
Proof.
  assert (Hframe :
    forall (f : nat) (frameInfo : FrameInfo A) (buffer : list Z),
      (forall l : nat, (l < sliceSize parsed)%nat ->
         sample_not_zero pixelBuffer (sliceSize parsed * f + l) = false) ->
      mergeFrame parsed posPats pixelBuffer f frameInfo buffer = Ok buffer).
  { intros f frameInfo buffer Hz. unfold mergeFrame.
    apply mergeSamples_all_zero. intros l Hl. apply Hz.
    apply elem_of_seq in Hl. lia. }
  split; [exact Hframe|].
  intros Hz. unfold mergeFrameBuffers.
  generalize (replicate ((if storeAsRGB parsed then 3 else 1)
                         * sliceSize parsed * length posPats) 0%Z).
  assert (Hall : forall infos f buffer,
    (f + length infos <= length (frameInfos parsed))%nat ->
    mergeFrames parsed posPats pixelBuffer f infos buffer = Ok buffer).
  { induction infos as [|frameInfo infos IH]; intros f buffer Hf;
      [reflexivity|].
    cbn [mergeFrames length] in *.
    rewrite Hframe; [cbn [mbind Completion_bind]; apply IH; lia|].
    intros l Hl. apply Hz. nia. }
  intros buffer. apply (Hall (frameInfos parsed) 0%nat buffer). lia.
Qed.

Lemma X13_zero_frames_leave_buffer_witness :
  mergeFrameBuffers parsed_one_frame [(0, 0, 0)%float] none_set
  = Ok (replicate 4 0%Z).
Proof.
  apply (proj2 (X13_zero_frames_leave_buffer parsed_one_frame
                  [(0, 0, 0)%float] none_set)).
  intros i Hi. cbn in Hi.
  destruct i as [|[|[|[|i]]]]; [reflexivity..|lia].
Defined.

(** In RGB mode and with a segment that has a colour, the loop over the
    samples of a frame ends normally; a cell that holds the channel of
    its index keeps it, and the three cells of every non-zero sample
    hold the three channels in the end. *)
Lemma mergeSamples_colour ls pixelBuffer segment rgb frameOffset sliceOffset
    (buffer : list Z) :
  displayRGBValue segment = Some rgb ->
  exists buffer',
    mergeSamples ls pixelBuffer true (Some segment) frameOffset sliceOffset
                 buffer = Ok buffer'
    /\ (forall i : nat,
          buffer !! i
          = Some (to_element (kind pixelBuffer)
                             (Some (channel rgb (Z.of_nat i mod 3)))) ->
          buffer' !! i
          = Some (to_element (kind pixelBuffer)
                             (Some (channel rgb (Z.of_nat i mod 3)))))
    /\ (forall (l : nat) (c : Z),
          l ∈ ls ->
          sample_not_zero pixelBuffer (frameOffset + l) = true ->
          (0 <= sliceOffset + Z.of_nat l)%Z ->
          (3 * (sliceOffset + Z.of_nat l) + 2 < Z.of_nat (length buffer))%Z ->
          (0 <= c < 3)%Z ->
          buffer' !! Z.to_nat (3 * (sliceOffset + Z.of_nat l) + c)
          = Some (to_element (kind pixelBuffer) (Some (channel rgb c)))).
Proof.
  intros Hrgb. destruct rgb as [[r g] b].
  assert (Hwrite : forall (buffer : list Z) (offset c : Z) (i : nat),
    (0 <= c < 3)%Z -> (offset mod 3 = 0)%Z ->
    buffer !! i
    = Some (to_element (kind pixelBuffer)
                       (Some (channel (r, g, b) (Z.of_nat i mod 3)))) ->
    typed_set (kind pixelBuffer) buffer (offset + c)
              (Some (channel (r, g, b) c)) !! i
    = Some (to_element (kind pixelBuffer)
                       (Some (channel (r, g, b) (Z.of_nat i mod 3))))).
  { intros buf offset c i Hc Hoff Hi.
    destruct (decide (Z.of_nat i = offset + c)%Z) as [Heq|Hne].
    - assert (Hmod : (Z.of_nat i mod 3 = c)%Z).
      { rewrite Heq. rewrite Z.add_mod by lia. rewrite Hoff.
        rewrite Z.add_0_l, Z.mod_mod by lia. apply Z.mod_small. lia. }
      rewrite Hmod in *. now apply typed_set_keeps_value.
    - now rewrite typed_set_lookup_ne. }
  assert (Hthree : forall z : Z, ((3 * z) mod 3 = 0)%Z).
  { intros z. rewrite Z.mul_comm. apply Z.mod_mul. lia. }
  revert buffer. induction ls as [|l0 ls IH]; intros buffer.
  - exists buffer. split; [reflexivity|]. split; [auto|].
    intros l c Hl. inversion Hl.
  - cbn [mergeSamples].
    destruct (sample_not_zero pixelBuffer (frameOffset + l0)) eqn:Hnz.
    + cbn [writeSample]. rewrite Hrgb. cbn [mbind Completion_bind].
      set (offset := (3 * (sliceOffset + Z.of_nat l0))%Z).
      set (buffer1 := typed_set (kind pixelBuffer) buffer offset (Some r)).
      set (buffer2 := typed_set (kind pixelBuffer) buffer1 (offset + 1)
                                (Some g)).
      set (buffer3 := typed_set (kind pixelBuffer) buffer2 (offset + 2)
                                (Some b)).
      assert (Hlen1 : length buffer1 = length buffer)
        by apply typed_set_length.
      assert (Hlen2 : length buffer2 = length buffer)
        by (unfold buffer2; now rewrite typed_set_length).
      assert (Hlen3 : length buffer3 = length buffer)
        by (unfold buffer3; now rewrite typed_set_length).
      assert (Hkeep3 : forall i : nat,
        buffer !! i
        = Some (to_element (kind pixelBuffer)
                           (Some (channel (r, g, b) (Z.of_nat i mod 3)))) ->
        buffer3 !! i
        = Some (to_element (kind pixelBuffer)
                           (Some (channel (r, g, b) (Z.of_nat i mod 3))))).
      { intros i Hi. unfold buffer3, buffer2, buffer1.
        apply (Hwrite _ offset 2%Z i); [lia|apply Hthree|].
        apply (Hwrite _ offset 1%Z i); [lia|apply Hthree|].
        rewrite <- (Z.add_0_r offset).
        apply (Hwrite _ offset 0%Z i); [lia|apply Hthree|exact Hi]. }
      destruct (IH buffer3) as (buffer' & Hrun & Hkeep & Hset).
      exists buffer'. split; [exact Hrun|]. split.
      * intros i Hi. apply Hkeep, Hkeep3, Hi.
      * intros l c Hl Hlnz Hlo Hhi Hc.
        apply elem_of_cons in Hl as [->|Hl];
          [|apply Hset; auto; now rewrite Hlen3].
        fold offset in Hhi |- *.
        assert (Hmod : (Z.of_nat (Z.to_nat (offset + c)) mod 3 = c)%Z).
        { rewrite Z2Nat.id by lia. rewrite Z.add_mod by lia.
          unfold offset at 1. rewrite Hthree.
          rewrite Z.add_0_l, Z.mod_mod by lia. apply Z.mod_small. lia. }
        rewrite <- Hmod at 2. apply Hkeep. rewrite Hmod.
        assert (Hcases : (c = 0 \/ c = 1 \/ c = 2)%Z) by lia.
        destruct Hcases as [ -> | [ -> | -> ] ].
        -- unfold buffer3, buffer2.
           rewrite !typed_set_lookup_ne by (rewrite Z2Nat.id; lia).
           rewrite Z.add_0_r. apply typed_set_lookup_eq. lia.
        -- unfold buffer3.
           rewrite typed_set_lookup_ne by (rewrite Z2Nat.id; lia).
           apply typed_set_lookup_eq. lia.
        -- apply typed_set_lookup_eq. lia.
    + destruct (IH buffer) as (buffer' & Hrun & Hkeep & Hset).
      exists buffer'. split; [exact Hrun|]. split; [exact Hkeep|].
      intros l c Hl Hlnz Hlo Hhi Hc.
      apply elem_of_cons in Hl as [->|Hl]; [congruence|].
      now apply Hset.
Qed.

(** In RGB mode a non-zero sample of a frame whose segment has no colour
    ends the loop with a TypeError. *)
Lemma mergeSamples_no_colour ls pixelBuffer segment frameOffset sliceOffset
    buffer (l : nat) :
  displayRGBValue segment = None ->
  l ∈ ls ->
  sample_not_zero pixelBuffer (frameOffset + l) = true ->
  mergeSamples ls pixelBuffer true (Some segment) frameOffset sliceOffset
               buffer
  = Throw (TypeError "displayRGBValue").
Proof.
  intros Hrgb. induction ls as [|l' ls IH]; intros Hin Hnz.
  - inversion Hin.
  - cbn [mergeSamples].
    destruct (sample_not_zero pixelBuffer (frameOffset + l')) eqn:Hnz'.
    + cbn [writeSample]. now rewrite Hrgb.
    + apply IH; [|exact Hnz].
      apply elem_of_cons in Hin as [->|Hin]; [congruence|exact Hin].
Qed.

Section LastFrame.
Context (fuel : nat) (dataElements : SegElements float)
        (pixelBuffer : PixelBuffer) (image : Image float)
        (segmentItems : list Segment) (pre : list (FrameInfo float))
        (frameInfo : FrameInfo float).
Hypothesis Hrun : create fuel dataElements pixelBuffer = Ok image.
Hypothesis Hsegs : segmentSequence dataElements = Some segmentItems.
Hypothesis Hframes :
  perFrameFunctionalGroupsSequence dataElements = Some (pre ++ [frameInfo]).

(** The stages of a run of [create] that returns, at the last frame. *)
Lemma create_last_frame :
  exists (parsed : Parsed float) posPats buffer1,
    sliceSize parsed
    = ((image2DSize dataElements).1 * (image2DSize dataElements).2)%nat
    /\ segments parsed = segmentItems
    /\ storeAsRGB parsed
       = existsb (fun segment =>
                    bool_decide (is_Some (displayRGBValue segment)))
                 segmentItems
    /\ origins (geometry image) = posPats
    /\ bufferKind image = kind pixelBuffer
    /\ (0 <= findIndexPosPat posPats (imagePosPat frameInfo)
        < Z.of_nat (length posPats))%Z
    /\ length buffer1
       = ((if storeAsRGB parsed then 3 else 1) * sliceSize parsed
          * length posPats)%nat
    /\ mergeFrame parsed posPats pixelBuffer (length pre) frameInfo buffer1
       = Ok (buffer image).
Proof.
  destruct (create_Ok_inv _ _ _ _ Hrun)
    as (parsed & posPats & g & ids & buf & Hread & Hrec & Hmerge & Himg).
  destruct (readElements_Ok_inv _ _ _ Hread)
    as (_ & _ & Hslice & _ & _ & _ & Hsegs' & Hrgb & _ & Hframes').
  assert (Hfi : frameInfos parsed = pre ++ [frameInfo]) by congruence.
  assert (Hsg : segments parsed = segmentItems) by congruence.
  assert (Hindex :
    (0 <= findIndexPosPat posPats (imagePosPat frameInfo)
     < Z.of_nat (length posPats))%Z).
  { assert (Hin : frameInfo ∈ frameInfos parsed).
    { rewrite Hfi. apply elem_of_app. right. apply list_elem_of_here. }
    pose proof (reconcile_includes (NA:=Number_float) float_json_eq_refl
                  _ _ _ _ _ Hrec frameInfo Hin) as Hinc.
    pose proof (findIndexPosPat_from_range posPats _ 0%Z Hinc) as H.
    unfold findIndexPosPat. lia. }
  destruct (reconcile_Ok_inv _ _ _ _ _ Hrec)
    as (fps & o & sp & sorted & p0 & rest & ns & _ & _ & _ & _ & Hgeo & _).
  destruct (makeImage_Ok_inv _ _ _ _ _ _ _ _ Himg)
    as (Hg & Hb & Hk & _).
  unfold mergeFrameBuffers in Hmerge.
  rewrite Hfi, mergeFrames_app in Hmerge.
  destruct (mergeFrames parsed posPats pixelBuffer 0 pre _)
    as [buffer1| |] eqn:Hpre; cbn [mbind Completion_bind] in Hmerge;
    try discriminate.
  apply mergeFrames_length in Hpre. rewrite length_replicate in Hpre.
  cbn [mergeFrames Nat.add] in Hmerge.
  exists parsed, posPats, buffer1.
  rewrite Hg, Hb, Hk, Hgeo, <- Hsg. cbn [origins].
  repeat split; auto; try lia.
  destruct (mergeFrame parsed posPats pixelBuffer (length pre) frameInfo
                       buffer1); cbn [mbind Completion_bind] in Hmerge;
    congruence.
Qed.

End LastFrame.

(** X14: in scalar mode (no segment has a colour), every non-zero
    sample of the last frame shows in the volume that [create] returns:
    the segment of the frame is one of the segment sequence, and the
    voxel of the sample, in the slice found for the position of the
    frame, holds the display value of that segment as the element type
    of the buffer stores it. *)
Theorem X14_last_frame_written (fuel : nat) (dataElements : SegElements float)
    (pixelBuffer : PixelBuffer) (image : Image float)
    (segmentItems : list Segment) (pre : list (FrameInfo float))
    (frameInfo : FrameInfo float) (l : nat) :
  create fuel dataElements pixelBuffer = Ok image ->
  segmentSequence dataElements = Some segmentItems ->
  (forall segment, segment ∈ segmentItems ->
     displayRGBValue segment = None) ->
  perFrameFunctionalGroupsSequence dataElements
  = Some (pre ++ [frameInfo]) ->
  (l < (image2DSize dataElements).1 * (image2DSize dataElements).2)%nat ->
  sample_not_zero pixelBuffer
    ((image2DSize dataElements).1 * (image2DSize dataElements).2
     * length pre + l) = true ->
  exists segment,
    List.find (fun item => (number item =? refSegmentNumber frameInfo)%Z)
              segmentItems = Some segment
    /\ buffer image
       !! Z.to_nat
            (Z.of_nat ((image2DSize dataElements).1
                       * (image2DSize dataElements).2)
             * findIndexPosPat (origins (geometry image))
                               (imagePosPat frameInfo)
             + Z.of_nat l)
       = Some (to_element (bufferKind image) (displayValue segment)).
Proof.
  intros Hrun Hsegs Hgrey Hframes Hl Hnz.
  destruct (create_last_frame _ _ _ _ _ _ _ Hrun Hsegs Hframes)
    as (parsed & posPats & buffer1 & Hslice & Hsg & Hrgb & -> & -> & Hindex
        & Hlen & Hmerge).
  rewrite <- Hslice in *.
  assert (Hmode : storeAsRGB parsed = false).
  { rewrite Hrgb. apply not_true_is_false. intros Hex.
    apply existsb_exists in Hex as (segment & Hin & Hsome).
    apply bool_decide_eq_true in Hsome. apply list_elem_of_In in Hin.
    rewrite (Hgrey segment Hin) in Hsome. now destruct Hsome. }
  unfold mergeFrame in Hmerge. rewrite Hsg, Hmode in Hmerge.
  rewrite Hmode in Hlen.
  destruct (List.find _ segmentItems) as [segment|] eqn:Hfind.
  - exists segment. split; [reflexivity|].
    destruct (mergeSamples_scalar (seq 0 (sliceSize parsed)) pixelBuffer
                segment (sliceSize parsed * length pre)
                (Z.of_nat (sliceSize parsed)
                 * findIndexPosPat posPats (imagePosPat frameInfo))
                buffer1) as (buffer' & Hsamples & _ & Hset).
    assert (buffer' = buffer image) as -> by congruence.
    apply Hset; [apply elem_of_seq; lia|exact Hnz|].
    rewrite Hlen. nia.
  - rewrite (mergeSamples_unknown_segment _ _ _ _ _ _ l) in Hmerge;
      [discriminate|apply elem_of_seq; lia|exact Hnz].
Qed.

Lemma X14_last_frame_written_witness :
  exists image,
    create 8 scenario_two_frames all_set = Ok image
    /\ exists segment,
         List.find (fun item => (number item =? 1)%Z)
                   [mkSegment 1 (Some 5%Z) None] = Some segment
         /\ buffer image
            !! Z.to_nat
                 (Z.of_nat (2 * 2)
                  * findIndexPosPat (origins (geometry image))
                                    (0, 0, 4)%float
                  + Z.of_nat 3)
            = Some (to_element (bufferKind image) (displayValue segment)).
Proof.
  destruct (volume_of_Ok _ _ (create_scenario_two_frames 8))
    as (image & Hrun & _).
  exists image. split; [exact Hrun|].
  refine (X14_last_frame_written 8 scenario_two_frames all_set image
            [mkSegment 1 (Some 5%Z) None]
            [mkFrameInfo 1 (0, 0, 0)%float None None]
            (mkFrameInfo 1 (0, 0, 4)%float None None) 3 Hrun _ _ _ _ _).
  - reflexivity.
  - intros segment Hin. apply list_elem_of_singleton in Hin. now subst.
  - reflexivity.
  - vm_compute. lia.
  - reflexivity.
Defined.


Lemma create_scenario_colour fuel :
  volume_of (create fuel scenario_colour all_set)
  = Ok (geometry_two_frames,
        mjoin (replicate 8 [255; 128; 0]%Z), 2%nat).
Proof. destruct fuel; vm_compute; reflexivity. Qed.

(** X15: in RGB mode (a segment has a colour), every non-zero
    sample of the last frame shows in the volume that [create] returns:
    the segment of the frame is one of the segment sequence and has a
    colour, and the three cells of the voxel of the sample hold the
    three channels of that colour, as the element type of the buffer
    stores them. *)
Theorem X15_last_frame_coloured (fuel : nat) (dataElements : SegElements float)
    (pixelBuffer : PixelBuffer) (image : Image float)
    (segmentItems : list Segment) (coloured : Segment)
    (pre : list (FrameInfo float)) (frameInfo : FrameInfo float)
    (l : nat) (c : Z) :
  create fuel dataElements pixelBuffer = Ok image ->
  segmentSequence dataElements = Some segmentItems ->
  coloured ∈ segmentItems ->
  is_Some (displayRGBValue coloured) ->
  perFrameFunctionalGroupsSequence dataElements
  = Some (pre ++ [frameInfo]) ->
  (l < (image2DSize dataElements).1 * (image2DSize dataElements).2)%nat ->
  sample_not_zero pixelBuffer
    ((image2DSize dataElements).1 * (image2DSize dataElements).2
     * length pre + l) = true ->
  (0 <= c < 3)%Z ->
  exists segment rgb,
    List.find (fun item => (number item =? refSegmentNumber frameInfo)%Z)
              segmentItems = Some segment
    /\ displayRGBValue segment = Some rgb
    /\ buffer image
       !! Z.to_nat
            (3 * (Z.of_nat ((image2DSize dataElements).1
                            * (image2DSize dataElements).2)
                  * findIndexPosPat (origins (geometry image))
                                    (imagePosPat frameInfo)
                  + Z.of_nat l) + c)
       = Some (to_element (bufferKind image) (Some (channel rgb c))).
Proof.
  intros Hrun Hsegs Hin Hcol Hframes Hl Hnz Hc.
  destruct (create_last_frame _ _ _ _ _ _ _ Hrun Hsegs Hframes)
    as (parsed & posPats & buffer1 & Hslice & Hsg & Hrgb & -> & -> & Hindex
        & Hlen & Hmerge).
  rewrite <- Hslice in *.
  assert (Hmode : storeAsRGB parsed = true).
  { rewrite Hrgb. apply existsb_exists. exists coloured.
    split; [now apply list_elem_of_In|now apply bool_decide_eq_true]. }
  unfold mergeFrame in Hmerge. rewrite Hsg, Hmode in Hmerge.
  rewrite Hmode in Hlen.
  destruct (List.find _ segmentItems) as [segment|] eqn:Hfind.
  - destruct (displayRGBValue segment) as [rgb|] eqn:Hsegment.
    + exists segment, rgb. split; [reflexivity|]. split; [exact Hsegment|].
      destruct (mergeSamples_colour (seq 0 (sliceSize parsed)) pixelBuffer
                  segment rgb (sliceSize parsed * length pre)
                  (Z.of_nat (sliceSize parsed)
                   * findIndexPosPat posPats (imagePosPat frameInfo))
                  buffer1 Hsegment) as (buffer' & Hsamples & _ & Hset).
      assert (buffer' = buffer image) as -> by congruence.
      apply Hset; [apply elem_of_seq; lia|exact Hnz|nia| |exact Hc].
      rewrite Hlen. nia.
    + rewrite (mergeSamples_no_colour _ _ _ _ _ _ l Hsegment) in Hmerge;
        [discriminate|apply elem_of_seq; lia|exact Hnz].
  - rewrite (mergeSamples_unknown_segment _ _ _ _ _ _ l) in Hmerge;
      [discriminate|apply elem_of_seq; lia|exact Hnz].
Qed.

Lemma X15_last_frame_coloured_witness :
  exists image,
    create 8 scenario_colour all_set = Ok image
    /\ exists segment rgb,
         List.find (fun item => (number item =? 1)%Z)
                   [mkSegment 1 None (Some (255, 128, 0)%Z)] = Some segment
         /\ displayRGBValue segment = Some rgb
         /\ buffer image
            !! Z.to_nat
                 (3 * (Z.of_nat (2 * 2)
                       * findIndexPosPat (origins (geometry image))
                                         (0, 0, 4)%float
                       + Z.of_nat 3) + 1)
            = Some (to_element (bufferKind image) (Some (channel rgb 1))).
Proof.
  destruct (volume_of_Ok _ _ (create_scenario_colour 8))
    as (image & Hrun & _).
  exists image. split; [exact Hrun|].
  refine (X15_last_frame_coloured 8 scenario_colour all_set image
            [mkSegment 1 None (Some (255, 128, 0)%Z)]
            (mkSegment 1 None (Some (255, 128, 0)%Z))
            [mkFrameInfo 1 (0, 0, 0)%float None None]
            (mkFrameInfo 1 (0, 0, 4)%float None None) 3 1 Hrun _ _ _ _ _ _ _).
  - reflexivity.
  - apply list_elem_of_here.
  - cbn. eauto.
  - reflexivity.
  - vm_compute. lia.
  - reflexivity.
  - lia.
Defined.

(** X16: in RGB mode, a frame with a non-zero sample whose
    segment has a display value and no colour makes [create] fail with
    the TypeError of reading [displayRGBValue.r]: no error of the
    factory's own reports it. *)
Theorem X16_segment_without_colour_rejected {A : Type} {NA : Number A}
    (fuel : nat) (dataElements : SegElements A) (pixelBuffer : PixelBuffer)
    (parsed : Parsed A) (posPats : list (Pos A)) (g : Geometry A)
    (ids : list string) (pre post : list (FrameInfo A))
    (frameInfo : FrameInfo A) (segment : Segment) (buffer1 : list Z)
    (l : nat) :
  readElements dataElements pixelBuffer = Ok parsed ->
  reconcile fuel parsed = Ok (posPats, g, ids) ->
  frameInfos parsed = pre ++ frameInfo :: post ->
  mergeFrames parsed posPats pixelBuffer 0 pre
    (replicate ((if storeAsRGB parsed then 3 else 1)
                * sliceSize parsed * length posPats) 0%Z)
  = Ok buffer1 ->
  storeAsRGB parsed = true ->
  List.find (fun item => (number item =? refSegmentNumber frameInfo)%Z)
            (segments parsed) = Some segment ->
  displayRGBValue segment = None ->
  (l < sliceSize parsed)%nat ->
  sample_not_zero pixelBuffer (sliceSize parsed * length pre + l) = true ->
  create fuel dataElements pixelBuffer = Throw (TypeError "displayRGBValue").
Proof.
  intros Hread Hrec Hframes Hpre Hmode Hfind Hrgb Hl Hnz.
  unfold create. rewrite Hread. cbn [mbind Completion_bind].
  rewrite Hrec. cbn [mbind Completion_bind].
  unfold mergeFrameBuffers. rewrite Hframes, mergeFrames_app, Hpre.
  cbn [mbind Completion_bind mergeFrames]. unfold mergeFrame.
  rewrite Hfind, Nat.add_0_l, Hmode.
  rewrite (mergeSamples_no_colour _ _ _ _ _ _ l Hrgb);
    [reflexivity| |exact Hnz].
  apply elem_of_seq. lia.
Qed.

Lemma X16_segment_without_colour_rejected_witness :
  create 8 scenario_mixed_segments all_set
  = Throw (TypeError "displayRGBValue").
Proof.
  eapply (X16_segment_without_colour_rejected 8 _ _ _ _ _ _
            [] [mkFrameInfo 1 (0, 0, 4)%float None None]
            (mkFrameInfo 1 (0, 0, 0)%float None None)
            (mkSegment 1 (Some 5%Z) None) _ 0%nat).
  - vm_compute. reflexivity.
  - vm_compute. reflexivity.
  - reflexivity.
  - reflexivity.
  - reflexivity.
  - reflexivity.
  - reflexivity.
  - vm_compute. lia.
  - reflexivity.
Defined.

(** ** What a decodable object holds *)

Lemma strict_eq_eq (a b : JsScalar) : strict_eq a b = true -> a = b.
Proof.
  destruct a as [x|x], b as [y|y]; cbn [strict_eq]; try discriminate.
  - intros H. apply Z.eqb_eq in H. now subst.
  - intros H. apply String.eqb_eq in H. now subst.
Qed.

Lemma strict_eq_refl (a : JsScalar) : strict_eq a a = true.
Proof.
  destruct a as [x|x]; cbn [strict_eq];
    [apply Z.eqb_refl|apply String.eqb_refl].
Qed.

(** The test of the last index pointer, as an equality. *)
Lemma image_position_pointer {T : Type} (indexPointer : option JsScalar)
    (yes no : T) :
  match indexPointer with
  | Some (JStr "(0020,0032)") => yes
  | _ => no
  end
  = match indexPointer with
    | Some pointer =>
      if strict_eq pointer (JStr "(0020,0032)") then yes else no
    | None => no
    end.
Proof.
  destruct indexPointer as [[n|s]|]; [reflexivity| |reflexivity].
  cbn [strict_eq].
  destruct (String.eqb_spec s "(0020,0032)") as [->|Hne]; [reflexivity|].
  repeat (destruct s as [|[[] [] [] [] [] [] [] []] s]; try reflexivity).
  now contradict Hne.
Qed.

(** The loop over the items of the dimension index sequence ends
    normally exactly when every item has the organization [orgUID]; it
    then holds one index per item, and the pointer of the last item. *)
Lemma dimension_index_loop_Ok orgUID indexSq indices0 pointer0 indices
    indexPointer :
  dimension_index_loop orgUID indexSq indices0 pointer0
  = Ok (indices, indexPointer) <->
  Forall (fun item => itemIndexOrganizationUID item = orgUID) indexSq
  /\ indices
     = indices0
       ++ ((fun item => mkDimensionIndex orgUID (itemIndexPointer item)
                          (itemDescriptionLabel item)) <$> indexSq)
  /\ indexPointer
     = match last indexSq with
       | Some item => Some (itemIndexPointer item)
       | None => pointer0
       end.
Proof.
  revert indices0 pointer0.
  induction indexSq as [|item indexSq IH]; intros indices0 pointer0.
  - cbn [dimension_index_loop fmap list_fmap last]. rewrite app_nil_r.
    split.
    + intros [= <- <-]. auto.
    + intros (_ & -> & ->). reflexivity.
  - cbn [dimension_index_loop].
    destruct (strict_eq (itemIndexOrganizationUID item) orgUID) eqn:Horg;
      cbn [negb].
    + apply strict_eq_eq in Horg. rewrite IH, Forall_cons, Horg.
      cbn [fmap list_fmap]. rewrite <- app_assoc. cbn [app].
      assert (Hlast :
        match last (item :: indexSq) with
        | Some item0 => Some (itemIndexPointer item0)
        | None => pointer0
        end
        = match last indexSq with
          | Some item0 => Some (itemIndexPointer item0)
          | None => Some (itemIndexPointer item)
          end).
      { destruct indexSq as [|item1 indexSq1]; [reflexivity|].
        change (last (item :: item1 :: indexSq1))
          with (last (item1 :: indexSq1)).
        destruct (last (item1 :: indexSq1)) eqn:Hl; [reflexivity|].
        now apply last_None in Hl. }
      rewrite Hlast. tauto.
    + split; [discriminate|]. intros (Hall & _).
      apply Forall_cons in Hall as [Heq _]. rewrite Heq in Horg.
      now rewrite strict_eq_refl in Horg.
Qed.

(** What [getDimensionOrganization] accepts, and what it returns. *)
Lemma getDimensionOrganization_spec
    (orgSq : option (list OrganizationItem))
    (indexSqElem : option (list IndexItem)) (dimension : Dimension) :
  getDimensionOrganization orgSq indexSqElem = Ok dimension <->
  exists orgUID,
    orgSq = Some [mkOrganizationItem orgUID]
    /\ organizations dimension = [orgUID]
    /\ (indexSqElem = None /\ indices dimension = []
        \/ exists pointer label1 label2,
             indexSqElem
             = Some [mkIndexItem orgUID pointer label1;
                     mkIndexItem orgUID (JStr "(0020,0032)") label2]
             /\ indices dimension
                = [mkDimensionIndex orgUID pointer label1;
                   mkDimensionIndex orgUID (JStr "(0020,0032)") label2]).
Proof.
  unfold getDimensionOrganization. split.
  - destruct orgSq as [[|[orgUID] [|]]|]; try discriminate.
    cbn [itemOrganizationUID]. intros H. exists orgUID.
    split; [reflexivity|].
    destruct indexSqElem as [indexSq|].
    + destruct (length indexSq =? 2)%nat eqn:Hlen; cbn [negb] in H;
        [|discriminate].
      destruct (dimension_index_loop orgUID indexSq [] None)
        as [[inds indexPointer]| |] eqn:Hloop; try discriminate.
      rewrite image_position_pointer in H.
      destruct indexPointer as [lastPointer|]; [|discriminate].
      destruct (strict_eq lastPointer _) eqn:Hptr in H; [|discriminate].
      apply strict_eq_eq in Hptr. subst lastPointer.
      apply dimension_index_loop_Ok in Hloop as (Hall & -> & Hlast).
      apply Nat.eqb_eq in Hlen.
      destruct indexSq as [|[org1 pointer label1]
                             [|[org2 pointer2 label2] [|]]];
        try discriminate.
      cbn [last itemIndexPointer] in Hlast.
      assert (pointer2 = JStr "(0020,0032)") as -> by congruence.
      apply Forall_cons in Hall as [Hor1 Hall].
      apply Forall_cons in Hall as [Hor2 _].
      cbn [itemIndexOrganizationUID] in Hor1, Hor2. subst org1 org2.
      injection H as <-. cbn [organizations indices].
      split; [reflexivity|]. right. exists pointer, label1, label2.
      split; reflexivity.
    + injection H as <-. cbn [organizations indices]. auto.
  - intros (orgUID & -> & Horgs & Hindices).
    cbn [itemOrganizationUID]. destruct dimension as [orgs inds].
    cbn [organizations indices] in Horgs, Hindices. subst orgs.
    destruct Hindices as [[-> ->]|(pointer & l1 & l2 & -> & ->)];
      [reflexivity|].
    cbn [length Nat.eqb negb dimension_index_loop itemIndexOrganizationUID
         itemIndexPointer itemDescriptionLabel app].
    rewrite strict_eq_refl. cbn [negb]. reflexivity.
Qed.

(** X17: [getDimensionOrganization] returns exactly when the
    dimension organization sequence has one item and the dimension index
    sequence is either absent, or has two items, both of the
    organization of that item, the second of which points to the image
    position (0020,0032).  The result then lists the organization and
    one index per item, in order, with its pointer and its label. *)
Theorem X17_getDimensionOrganization_Ok
    (orgSq : option (list OrganizationItem))
    (indexSqElem : option (list IndexItem)) (dimension : Dimension) :
  getDimensionOrganization orgSq indexSqElem = Ok dimension <->
  exists orgUID,
    orgSq = Some [mkOrganizationItem orgUID]
    /\ organizations dimension = [orgUID]
    /\ (indexSqElem = None /\ indices dimension = []
        \/ exists pointer label1 label2,
             indexSqElem
             = Some [mkIndexItem orgUID pointer label1;
                     mkIndexItem orgUID (JStr "(0020,0032)") label2]
             /\ indices dimension
                = [mkDimensionIndex orgUID pointer label1;
                   mkDimensionIndex orgUID (JStr "(0020,0032)") label2]).
Proof. exact (getDimensionOrganization_spec orgSq indexSqElem dimension). Qed.

(** ** The meta data of the image *)

Lemma makeImage_metaTags {A : Type} {NA : Number A}
    (dataElements : SegElements A) parsed posPats g ids k buf image :
  makeImage dataElements parsed posPats g ids k buf = Ok image ->
  exists sopInstanceUID,
    rootElements dataElements !! "00080018" = Some sopInstanceUID
    /\ customSOPInstanceUID (meta image)
       = match value sopInstanceUID with
         | v :: _ => VScalar v
         | [] => VUndefined
         end
    /\ metaTags (meta image)
       = fold_left
           (fun meta kv =>
              match rootElements dataElements !! kv.2 with
              | Some _ =>
                <[kv.1 := safeGet (rootElements dataElements) kv.2]> meta
              | None => meta
              end)
           optionalMetaKeys
           (fold_left
              (fun meta kv =>
                 <[kv.1 := safeGet (rootElements dataElements) kv.2]> meta)
              metaKeys getDefaultDicomSegJson).
Proof.
  unfold makeImage.
  destruct (rootElements dataElements !! "00080018") as [sop|];
    [|discriminate].
  intros H. exists sop. split; [reflexivity|].
  match type of H with
  | Ok ?x = Ok _ => assert (E : x = image) by congruence
  end.
  rewrite <- E. cbn [meta metaTags customSOPInstanceUID].
  split; reflexivity.
Qed.

(** X18: the tags of the meta data of every image that [create]
    returns.  The property of each definition of the table holds the
    first accepted value of the definition, whatever the object holds
    for the tag; the properties of the study, the series, the patient
    and the equipment hold the first value of their element, or
    undefined without the element; the frame of reference and the lossy
    compression are properties only when the object has the element. *)
Theorem X18_create_meta_tags {A : Type} {NA : Number A} (fuel : nat)
    (dataElements : SegElements A) (pixelBuffer : PixelBuffer)
    (image : Image A) :
  create fuel dataElements pixelBuffer = Ok image ->
  Forall (fun reqTag =>
            metaTags (meta image) !! name reqTag
            = Some (nth 0 (enum reqTag) VUndefined))
         RequiredDicomSegTags
  /\ Forall (fun kv =>
               metaTags (meta image) !! kv.1
               = Some (safeGet (rootElements dataElements) kv.2))
            metaKeys
  /\ Forall (fun kv =>
               metaTags (meta image) !! kv.1
               = (fun element =>
                    safeGet (rootElements dataElements) kv.2)
                 <$> rootElements dataElements !! kv.2)
            optionalMetaKeys.
Proof.
  intros Hrun.
  destruct (create_Ok_inv _ _ _ _ Hrun)
    as (parsed & posPats & g & ids & buf & _ & _ & _ & Himg).
  destruct (makeImage_metaTags _ _ _ _ _ _ _ _ Himg)
    as (sop & _ & _ & ->).
  set (get := safeGet (rootElements dataElements)).
  assert (Hlookups : forall P : option DataElement -> option DataElement
                                -> Prop,
    (forall o1 o2, P o1 o2) ->
    P (rootElements dataElements !! "00200052")
      (rootElements dataElements !! "00282110")) by auto.
  (split; [|split]);
    repeat (apply List.Forall_cons; [|try apply List.Forall_nil]);
    cbn [fold_left optionalMetaKeys fst snd];
    pattern (rootElements dataElements !! "00200052"),
            (rootElements dataElements !! "00282110");
    apply Hlookups; clearbody get; clear;
    intros [o1|] [o2|]; vm_compute; reflexivity.
Qed.

Lemma X18_create_meta_tags_witness :
  exists image,
    create 8 scenario_two_frames all_set = Ok image
    /\ Forall (fun reqTag =>
                 metaTags (meta image) !! name reqTag
                 = Some (nth 0 (enum reqTag) VUndefined))
              RequiredDicomSegTags
    /\ Forall (fun kv =>
                 metaTags (meta image) !! kv.1
                 = Some (safeGet (rootElements scenario_two_frames) kv.2))
              metaKeys
    /\ Forall (fun kv =>
                 metaTags (meta image) !! kv.1
                 = (fun element =>
                      safeGet (rootElements scenario_two_frames) kv.2)
                   <$> rootElements scenario_two_frames !! kv.2)
              optionalMetaKeys.
Proof.
  destruct (volume_of_Ok _ _ (create_scenario_two_frames 8))
    as (image & Hrun & _).
  exists image. split; [exact Hrun|].
  exact (X18_create_meta_tags 8 scenario_two_frames all_set image Hrun).
Defined.

(** The number of frames that [create] has read equals the number of
    items of the per-frame sequence. *)
Lemma readElements_frames {A : Type} {NA : Number A}
    (dataElements : SegElements A) pixelBuffer parsed :
  readElements dataElements pixelBuffer = Ok parsed ->
  match rootElements dataElements !! "00280008" with
  | None => Some 1%Z
  | Some framesElem => parseInt (head (value framesElem))
  end = Some (Z.of_nat (length (frameInfos parsed))).
Proof.
  unfold readElements.
  destruct (checkTags _ _) as [[]| |]; cbn [mbind Completion_bind];
    try discriminate.
  set (frames := match rootElements dataElements !! "00280008" with
                 | Some framesElem => parseInt (head (value framesElem))
                 | None => Some 1%Z
                 end).
  destruct (frames_equal _ _ _); cbn [negb]; [|discriminate].
  destruct (getDimensionOrganization _ _) as [dim| |];
    cbn [mbind Completion_bind]; try discriminate.
  destruct (segmentSequence dataElements) as [segs|]; [|discriminate].
  destruct (readSharedGroups _) as [[sp o]| |];
    cbn [mbind Completion_bind]; try discriminate.
  destruct (perFrameFunctionalGroupsSequence dataElements) as [fis|];
    [|discriminate].
  destruct (bool_decide _) eqn:Hlen; cbn [negb]; [|discriminate].
  intros [= <-]. cbn [frameInfos].
  now apply bool_decide_eq_true in Hlen.
Qed.

(** X19: what every object that [create] decodes holds, beside
    the tags of the table: the SOP instance UID element (0008,0018), a
    segment sequence, a per-frame functional groups sequence, and a
    dimension organization sequence of one item.  Its number of frames
    (0028,0008) parses to the number of items of the per-frame sequence,
    and without that element the sequence has exactly one item.  The
    meta data hands these on: the segments, the frame infos, the
    organization, and the first value of the SOP instance UID. *)
Theorem X19_create_requires {A : Type} {NA : Number A} (fuel : nat)
    (dataElements : SegElements A) (pixelBuffer : PixelBuffer)
    (image : Image A) :
  create fuel dataElements pixelBuffer = Ok image ->
  exists sopInstanceUID segmentItems frames orgUID,
    rootElements dataElements !! "00080018" = Some sopInstanceUID
    /\ segmentSequence dataElements = Some segmentItems
    /\ perFrameFunctionalGroupsSequence dataElements = Some frames
    /\ dimensionOrganizationSequence dataElements
       = Some [mkOrganizationItem orgUID]
    /\ match rootElements dataElements !! "00280008" with
       | None => length frames = 1%nat
       | Some framesElem =>
         parseInt (head (value framesElem)) = Some (Z.of_nat (length frames))
       end
    /\ customSOPInstanceUID (meta image)
       = match value sopInstanceUID with
         | v :: _ => VScalar v
         | [] => VUndefined
         end
    /\ customSegments (meta image) = segmentItems
    /\ customFrameInfos (meta image) = frames
    /\ DimensionOrganizationSequence (meta image) = [orgUID].
Proof.
  intros Hrun.
  destruct (create_Ok_inv _ _ _ _ Hrun)
    as (parsed & posPats & g & ids & buf & Hread & _ & _ & Himg).
  destruct (readElements_Ok_inv _ _ _ Hread)
    as (_ & _ & _ & _ & _ & Hdim & Hsegs & _ & _ & Hframes).
  pose proof (readElements_frames _ _ _ Hread) as Hcount.
  destruct (makeImage_metaTags _ _ _ _ _ _ _ _ Himg)
    as (sop & Hsop & Hcustom & _).
  destruct (makeImage_Ok_inv _ _ _ _ _ _ _ _ Himg)
    as (_ & _ & _ & _ & _ & _ & Hfi & Hsg & Horg & _).
  apply getDimensionOrganization_spec in Hdim
    as (orgUID & Horgs & Hone & _).
  exists sop, (segments parsed), (frameInfos parsed), orgUID.
  rewrite Hfi, Hsg, Horg, Hone.
  repeat split; auto.
  destruct (rootElements dataElements !! "00280008"); [exact Hcount|].
  injection Hcount as Hcount. lia.
Qed.

Lemma X19_create_requires_witness :
  exists image,
    create 8 scenario_two_frames all_set = Ok image
    /\ exists sopInstanceUID segmentItems frames orgUID,
         rootElements scenario_two_frames !! "00080018" = Some sopInstanceUID
         /\ segmentSequence scenario_two_frames = Some segmentItems
         /\ perFrameFunctionalGroupsSequence scenario_two_frames
            = Some frames
         /\ dimensionOrganizationSequence scenario_two_frames
            = Some [mkOrganizationItem orgUID]
         /\ match rootElements scenario_two_frames !! "00280008" with
            | None => length frames = 1%nat
            | Some framesElem =>
              parseInt (head (value framesElem))
              = Some (Z.of_nat (length frames))
            end
         /\ customSOPInstanceUID (meta image)
            = match value sopInstanceUID with
              | v :: _ => VScalar v
              | [] => VUndefined
              end
         /\ customSegments (meta image) = segmentItems
         /\ customFrameInfos (meta image) = frames
         /\ DimensionOrganizationSequence (meta image) = [orgUID].
Proof.
  destruct (volume_of_Ok _ _ (create_scenario_two_frames 8))
    as (image & Hrun & _).
  exists image. split; [exact Hrun|].
  exact (X19_create_requires 8 scenario_two_frames all_set image Hrun).
Defined.

(** ** The tag checks *)

Lemma checkTags_Forall (dataElements : gmap string DataElement)
    (defs : list TagDefinition) :
  checkTags dataElements defs = Ok tt ->
  Forall (fun d => checkTag dataElements d = Ok tt) defs.
Proof.
  induction defs as [|d defs IH]; cbn [checkTags]; [constructor|].
  destruct (checkTag dataElements d) as [[]| |] eqn:Hd;
    cbn [mbind Completion_bind]; try discriminate.
  intros H. constructor; auto.
Qed.

(** X20: an element with no value or with several values is
    compared as an array, and the comparison throws at the first
    accepted value that is not an array.  So for every definition of
    the table but ImageType, an object that holds the tag with no value
    or several values fails its check with 'Cannot compare array and non
    array tag value.', and [create] returns no image for it. *)
Theorem X20_checkTag_array_value {A : Type} {NA : Number A}
    (dataElements : SegElements A) (tagDefinition : TagDefinition)
    (element : DataElement) :
  tagDefinition ∈ RequiredDicomSegTags ->
  name tagDefinition <> "ImageType" ->
  rootElements dataElements !! tag tagDefinition = Some element ->
  length (value element) <> 1%nat ->
  checkTag (rootElements dataElements) tagDefinition
  = Throw CannotCompareArray
  /\ forall fuel pixelBuffer image,
       create fuel dataElements pixelBuffer <> Ok image.
Proof.
  intros Hin Hname Helem Hlen.
  assert (Hcheck : checkTag (rootElements dataElements) tagDefinition
                   = Throw CannotCompareArray).
  { assert (Henum : exists accepted rest,
              enum tagDefinition = VScalar accepted :: rest).
    { unfold RequiredDicomSegTags in Hin.
      repeat (apply elem_of_cons in Hin as [->|Hin];
              [cbn [enum]; eauto|]);
        [now contradict Hname|inversion Hin]. }
    destruct Henum as (accepted & rest & Henum).
    unfold checkTag. rewrite Helem, Henum.
    destruct (strict_eq (type tagDefinition) (JNum 1)
              || strict_eq (type tagDefinition) (JNum 2));
      destruct (value element) as [|v [|v' l]]; cbn in Hlen |- *;
      try reflexivity; now contradict Hlen. }
  split; [exact Hcheck|].
  intros fuel pixelBuffer image Hrun.
  destruct (create_Ok_inv _ _ _ _ Hrun)
    as (parsed & posPats & g & ids & buf & Hread & _).
  destruct (readElements_Ok_inv _ _ _ Hread) as (Htags & _).
  apply checkTags_Forall in Htags.
  rewrite Forall_forall in Htags. specialize (Htags _ Hin). congruence.
Qed.

Lemma X20_checkTag_array_value_witness :
  checkTag (rootElements scenario_modality_twice) Modality_definition
  = Throw CannotCompareArray
  /\ forall fuel pixelBuffer image,
       create fuel scenario_modality_twice pixelBuffer <> Ok image.
Proof.
  apply (X20_checkTag_array_value scenario_modality_twice Modality_definition
           (mkDataElement [JStr "SEG"; JStr "SEG"])).
  - unfold RequiredDicomSegTags, Modality_definition.
    do 3 apply list_elem_of_further. apply list_elem_of_here.
  - discriminate.
  - vm_compute. reflexivity.
  - cbn. lia.
Defined.

(** ** The frames *)

Section FrameChecks.
Context {A : Type} {NA : Number A}.

Lemma first_given_None {T : Type} (property : FrameInfo A -> option T)
    (frames : list (FrameInfo A)) :
  (forall frameInfo, frameInfo ∈ frames -> property frameInfo = None) ->
  first_given property frames = None.
Proof.
  unfold first_given.
  induction frames as [|frameInfo frames IH]; intros Hnone; [reflexivity|].
  cbn [omap list_omap].
  rewrite (Hnone frameInfo) by apply list_elem_of_here.
  apply IH. intros fi Hin. apply Hnone. now apply list_elem_of_further.
Qed.

(** One step of the choice of a property: what is established stays,
    and else the frame gives it. *)
Lemma first_given_cons {T : Type} (property : FrameInfo A -> option T)
    (established : option T) frameInfo frames :
  match match established with
        | Some x => Some x
        | None => property frameInfo
        end with
  | Some x => Some x
  | None => first_given property frames
  end
  = match established with
    | Some x => Some x
    | None => first_given property (frameInfo :: frames)
    end.
Proof.
  unfold first_given. cbn [omap list_omap].
  destruct established; [reflexivity|].
  destruct (property frameInfo); reflexivity.
Qed.

(** The step of the loop on the orientation, when it does not throw. *)
Lemma orientation_step_Ok (given o o1 : option (ImageOrientation A)) :
  match given, o with
  | None, _ => Ok o
  | Some x, None => Ok (Some x)
  | Some x, Some reference =>
    if negb (arraySortEquals num_eq (orientation_values reference)
                                    (orientation_values x))
    then Throw MultiOrientationUnsupported
    else Ok o
  end = Ok o1 ->
  o1 = match o with
       | Some x => Some x
       | None => given
       end.
Proof.
  destruct given as [x|], o as [reference|]; try congruence.
  destruct (negb _); [discriminate|congruence].
Qed.

(** The step of the loop on the spacing, when it does not throw. *)
Lemma spacing_step_Ok (given s s1 : option (Spacing A)) :
  match given, s with
  | None, _ => Ok s
  | Some x, None => Ok (Some x)
  | Some x, Some reference =>
    if negb (spacing_equals reference x)
    then Throw MultiSpacingUnsupported
    else Ok s
  end = Ok s1 ->
  s1 = match s with
       | Some x => Some x
       | None => given
       end
  /\ forall x reference,
       given = Some x -> s = Some reference ->
       spacing_equals reference x = true.
Proof.
  destruct given as [x|], s as [reference|]; try (split; congruence).
  destruct (negb (spacing_equals reference x)) eqn:Heq; [discriminate|].
  apply negb_false_iff in Heq. split; congruence.
Qed.

(** The loop "check frame infos", when it ends normally. *)
Lemma checkFrameInfos_Ok (frames : list (FrameInfo A))
    framePosPats o s framePosPats' o' s' :
  checkFrameInfos frames framePosPats o s = Ok (framePosPats', o', s') ->
  (forall i j p q, (i < j)%nat ->
     framePosPats !! i = Some p -> framePosPats !! j = Some q ->
     equalPosPat q p = false) ->
  (forall i j p q, (i < j)%nat ->
     framePosPats' !! i = Some p -> framePosPats' !! j = Some q ->
     equalPosPat q p = false)
  /\ (forall p, p ∈ framePosPats' ->
        p ∈ framePosPats
        \/ exists frameInfo, frameInfo ∈ frames /\ imagePosPat frameInfo = p)
  /\ o' = match o with
          | Some x => Some x
          | None => first_given imageOrientationPatient frames
          end
  /\ s' = match s with
          | Some x => Some x
          | None => first_given spacing frames
          end
  /\ (forall frameInfo given chosen,
        frameInfo ∈ frames ->
        spacing frameInfo = Some given -> s' = Some chosen ->
        given = chosen \/ spacing_equals chosen given = true).
Proof.
  revert framePosPats o s.
  induction frames as [|frameInfo frames IH]; intros ps o s.
  - cbn [checkFrameInfos]. intros [= <- <- <-] Hdist.
    split; [exact Hdist|]. split; [auto|].
    split; [now destruct o|]. split; [now destruct s|].
    intros fi given chosen Hin. inversion Hin.
  - cbn [checkFrameInfos].
    set (ps1 := if negb (includesPosPat ps (imagePosPat frameInfo))
                then ps ++ [imagePosPat frameInfo] else ps).
    intros Hrun Hdist.
    assert (Hdist1 : forall i j p q, (i < j)%nat ->
              ps1 !! i = Some p -> ps1 !! j = Some q ->
              equalPosPat q p = false).
    { unfold ps1.
      destruct (includesPosPat ps (imagePosPat frameInfo)) eqn:Hinc;
        cbn [negb]; [exact Hdist|].
      intros i j p q Hij Hp Hq.
      assert (Hi : (i < length ps)%nat).
      { apply lookup_lt_Some in Hq. rewrite length_app in Hq.
        cbn [length] in Hq. lia. }
      rewrite lookup_app_l in Hp by exact Hi.
      destruct (decide (j < length ps)%nat) as [Hj|Hj].
      - rewrite lookup_app_l in Hq by exact Hj. eauto.
      - rewrite lookup_app_r in Hq by lia.
        destruct (j - length ps)%nat; [|discriminate].
        injection Hq as <-.
        unfold includesPosPat in Hinc.
        destruct (equalPosPat (imagePosPat frameInfo) p) eqn:Heq;
          [|reflexivity].
        assert (Hex : existsb (λ arrVal,
                         equalPosPat (imagePosPat frameInfo) arrVal) ps
                      = true); [|congruence].
        apply existsb_exists. exists p. split; [|exact Heq].
        apply list_elem_of_In. eapply list_elem_of_lookup_2, Hp. }
    assert (Hsub1 : forall p, p ∈ ps1 ->
              p ∈ ps \/ imagePosPat frameInfo = p).
    { unfold ps1. destruct (negb _); [|auto].
      intros p Hp. apply elem_of_app in Hp as [Hp|Hp]; [auto|].
      apply list_elem_of_singleton in Hp. auto. }
    clearbody ps1.
    destruct (match imageOrientationPatient frameInfo with
              | Some _ => _ | None => _ end) as [o1| |] eqn:Ho1;
      cbn [mbind Completion_bind] in Hrun; try discriminate.
    destruct (match spacing frameInfo with
              | Some _ => _ | None => _ end) as [s1| |] eqn:Hs1;
      cbn [mbind Completion_bind] in Hrun; try discriminate.
    apply orientation_step_Ok in Ho1.
    apply spacing_step_Ok in Hs1 as [Hs1 Hsame].
    destruct (IH _ _ _ Hrun Hdist1) as (Hd & Hsub & Ho & Hs & Hall).
    split; [exact Hd|]. split; [|split; [|split]].
    + intros p Hp. destruct (Hsub p Hp) as [Hp1|(fi & Hfi & Hpos)].
      * destruct (Hsub1 p Hp1) as [Hp0|Hp0]; [auto|].
        right. exists frameInfo. split; [apply list_elem_of_here|exact Hp0].
      * right. exists fi. split; [now apply list_elem_of_further|exact Hpos].
    + rewrite Ho, Ho1. apply first_given_cons.
    + rewrite Hs, Hs1. apply first_given_cons.
    + intros fi given chosen Hin Hgiven Hchosen.
      apply elem_of_cons in Hin as [->|Hin]; [|eauto].
      rewrite Hs, Hs1 in Hchosen.
      destruct s as [reference|].
      * right. assert (chosen = reference) as -> by congruence.
        now apply Hsame.
      * left. rewrite Hgiven in Hchosen. congruence.
Qed.

(** The loop "check frame infos" ends normally or with one of its two
    errors. *)
Lemma checkFrameInfos_completion (frames : list (FrameInfo A))
    framePosPats o s :
  (exists result, checkFrameInfos frames framePosPats o s = Ok result)
  \/ (checkFrameInfos frames framePosPats o s
      = Throw MultiOrientationUnsupported
      /\ (is_Some o \/ exists frameInfo,
            frameInfo ∈ frames
            /\ is_Some (imageOrientationPatient frameInfo)))
  \/ (checkFrameInfos frames framePosPats o s = Throw MultiSpacingUnsupported
      /\ (is_Some s \/ exists frameInfo,
            frameInfo ∈ frames /\ is_Some (spacing frameInfo))).
Proof.
  revert framePosPats o s.
  induction frames as [|frameInfo frames IH]; intros ps o s.
  - left. cbn [checkFrameInfos]. eauto.
  - cbn [checkFrameInfos].
    set (ps1 := if negb (includesPosPat ps (imagePosPat frameInfo))
                then ps ++ [imagePosPat frameInfo] else ps).
    clearbody ps1.
    assert (Hhere : frameInfo ∈ frameInfo :: frames)
      by apply list_elem_of_here.
    assert (Hfurther : forall P : FrameInfo A -> Prop,
              (exists fi, fi ∈ frames /\ P fi) ->
              exists fi, fi ∈ frameInfo :: frames /\ P fi).
    { intros P (fi & Hfi & HP). exists fi.
      split; [now apply list_elem_of_further|exact HP]. }
    destruct (imageOrientationPatient frameInfo) as [fo|] eqn:Hfo;
      [destruct o as [reference|];
       [destruct (negb (arraySortEquals num_eq _ _));
        [right; left; split; [reflexivity|left; eauto]|]|]|];
      cbn [mbind Completion_bind].
    all: destruct (spacing frameInfo) as [fs|] eqn:Hfs;
      [destruct s as [sref|];
       [destruct (negb (spacing_equals sref fs));
        [right; right; split; [reflexivity|left; eauto]|]|]|];
      cbn [mbind Completion_bind].
    all: match goal with
         | |- context [checkFrameInfos _ _ ?o1 ?s1] =>
           destruct (IH ps1 o1 s1)
             as [Hok|[[Hthrow Hwhy]|[Hthrow Hwhy]]]
         end.
    all: try (left; exact Hok).
    all: try (right; left; split; [exact Hthrow|];
              destruct Hwhy as [Hwhy|Hwhy];
              [first [left; exact Hwhy
                     |right; exists frameInfo; split;
                      [exact Hhere|rewrite Hfo; eauto]]
              |right; apply Hfurther, Hwhy]).
    all: try (right; right; split; [exact Hthrow|];
              destruct Hwhy as [Hwhy|Hwhy];
              [first [left; exact Hwhy
                     |right; exists frameInfo; split;
                      [exact Hhere|rewrite Hfs; eauto]]
              |right; apply Hfurther, Hwhy]).
Qed.

End FrameChecks.

(** X21: when the loop over the frame infos ends normally, the
    positions that it has collected are pairwise different (no position
    prints as an earlier one), and each of them is the position of a
    frame. *)
Theorem X21_frame_positions_distinct {A : Type} {NA : Number A}
    (frames : list (FrameInfo A)) (o o' : option (ImageOrientation A))
    (s s' : option (Spacing A)) (framePosPats : list (Pos A)) :
  checkFrameInfos frames [] o s = Ok (framePosPats, o', s') ->
  (forall i j p q, (i < j)%nat ->
     framePosPats !! i = Some p -> framePosPats !! j = Some q ->
     equalPosPat q p = false)
  /\ (forall p, p ∈ framePosPats ->
        exists frameInfo, frameInfo ∈ frames /\ imagePosPat frameInfo = p).
Proof.
  intros Hrun.
  destruct (checkFrameInfos_Ok _ _ _ _ _ _ _ Hrun) as (Hd & Hsub & _).
  { intros i j p q _ Hp. discriminate. }
  split; [exact Hd|].
  intros p Hp. destruct (Hsub p Hp) as [Hnil|Hframe]; [|exact Hframe].
  inversion Hnil.
Qed.

Lemma X21_frame_positions_distinct_witness :
  (forall i j p q, (i < j)%nat ->
     [(0, 0, 4); (0, 0, 0)]%float !! i = Some p ->
     [(0, 0, 4); (0, 0, 0)]%float !! j = Some q ->
     equalPosPat q p = false)
  /\ (forall p, p ∈ [(0, 0, 4); (0, 0, 0)]%float ->
        exists frameInfo,
          frameInfo ∈ frames_own_values /\ imagePosPat frameInfo = p).
Proof.
  apply (X21_frame_positions_distinct frames_own_values None (Some axial)
           None (Some (1, 1, 2)%float)).
  vm_compute. reflexivity.
Defined.

(** X22: when the loop over the frame infos ends normally, the
    orientation is the shared one when there is one, and else the one of
    the first frame that has one; the same holds for the spacing, and
    every frame that has a spacing has the chosen one. *)
Theorem X22_frame_values_chosen {A : Type} {NA : Number A}
    (frames : list (FrameInfo A)) (o o' : option (ImageOrientation A))
    (s s' : option (Spacing A)) (framePosPats : list (Pos A)) :
  checkFrameInfos frames [] o s = Ok (framePosPats, o', s') ->
  o' = match o with
       | Some shared => Some shared
       | None => first_given imageOrientationPatient frames
       end
  /\ s' = match s with
          | Some shared => Some shared
          | None => first_given spacing frames
          end
  /\ (forall frameInfo given chosen,
        frameInfo ∈ frames ->
        spacing frameInfo = Some given -> s' = Some chosen ->
        given = chosen \/ spacing_equals chosen given = true).
Proof.
  intros Hrun.
  destruct (checkFrameInfos_Ok _ _ _ _ _ _ _ Hrun) as (_ & _ & H).
  { intros i j p q _ Hp. discriminate. }
  exact H.
Qed.

Lemma X22_frame_values_chosen_witness :
  Some axial = first_given imageOrientationPatient frames_own_values
  /\ Some (1, 1, 2)%float = first_given spacing frames_own_values
  /\ (forall frameInfo given chosen,
        frameInfo ∈ frames_own_values ->
        spacing frameInfo = Some given ->
        Some (1, 1, 2)%float = Some chosen ->
        given = chosen \/ spacing_equals chosen given = true).
Proof.
  apply (X22_frame_values_chosen frames_own_values None (Some axial)
           None (Some (1, 1, 2)%float) [(0, 0, 4); (0, 0, 0)]%float).
  vm_compute. reflexivity.
Defined.

(** X23: an object without any spacing, shared or of a frame,
    is refused with 'No spacing found for DICOM SEG', unless its
    orientations are refused first; the check of the spacing comes
    before the check of the orientation. *)
Theorem X23_no_spacing_rejected {A : Type} {NA : Number A} (fuel : nat)
    (parsed : Parsed A) :
  sharedSpacing parsed = None ->
  (forall frameInfo, frameInfo ∈ frameInfos parsed ->
     spacing frameInfo = None) ->
  reconcile fuel parsed = Throw MissingSpacing
  \/ reconcile fuel parsed = Throw MultiOrientationUnsupported.
Proof.
  intros Hshared Hframes. unfold reconcile.
  destruct (checkFrameInfos_completion (frameInfos parsed) []
              (sharedOrientation parsed) (sharedSpacing parsed))
    as [[[[fps o'] s'] Hok]|[[Hthrow _]|[Hthrow Hwhy]]].
  - rewrite Hok. cbn [mbind Completion_bind]. left.
    destruct (checkFrameInfos_Ok _ _ _ _ _ _ _ Hok) as (_ & _ & _ & Hs & _).
    { intros i j p q _ Hp. discriminate. }
    rewrite Hshared in Hs.
    rewrite Hs, (first_given_None _ _ Hframes). reflexivity.
  - right. rewrite Hthrow. reflexivity.
  - exfalso. destruct Hwhy as [Hsome|(fi & Hin & Hsome)].
    + rewrite Hshared in Hsome. now destruct Hsome.
    + rewrite (Hframes fi Hin) in Hsome. now destruct Hsome.
Qed.

Lemma X23_no_spacing_rejected_witness :
  reconcile 8 parsed_no_spacing = Throw MissingSpacing
  \/ reconcile 8 parsed_no_spacing = Throw MultiOrientationUnsupported.
Proof.
  apply (X23_no_spacing_rejected 8 parsed_no_spacing).
  - reflexivity.
  - intros frameInfo Hin. cbn [frameInfos parsed_no_spacing] in Hin.
    apply elem_of_cons in Hin as [->|Hin]; [reflexivity|].
    apply list_elem_of_singleton in Hin. now subst.
Defined.

(** ** The listener handler *)

Section RemoveLoop.
Import ListenerHandler.











End RemoveLoop.







